(** * SrtTranslate: the translation client, the batch orchestrator and the
      task store, embedded from the TypeScript sources.

    Layout: first the JavaScript values the sources rely on (strings,
    dynamic values, objects), then the data model ([types/index.ts]), the
    prompt builders ([utils/translationPrompts]), the terms filter
    ([TermsContext]), the data manager ([services/dataManager]), the
    translation client ([TranslationContext]), the orchestrator
    ([TranslationControls.onStartTranslation]) and the per-file run of the
    file list ([SubtitleFileList.handleStartTranslation]); then the
    vocabulary of the statements and the sample data; then the terms list
    of the data manager with its provider ([TermsContext]), the history
    view ([HistoryContext]), the file list ([SubtitleContext]) and the
    reducer of the translation provider, with their vocabulary and sample
    data; the theorems follow.

    Strings are [string]s holding UTF-8 text.  The separators the sources
    split on (the pipe and the line feed) are ASCII, and UTF-8 is
    self-synchronising, so splitting, joining, trimming and substring search
    on bytes agree with the same operations on JavaScript's UTF-16 strings
    for every well-formed text.

    What lies outside the repository is a parameter of the model: the
    answers of the chat-completion endpoint and the state of the abort
    signal ([Translation.Step]), the [jsonrepair] decoder, the Unicode tables
    of the engine ([Terms.Unicode]), the outcome of a [localforage] write
    ([DataManager.Write]), the clock and the generated task ids. *)

From Stdlib Require Import String Ascii ZArith Lia DecimalString Decimal DecimalNat.
From stdpp Require Import base option list strings.

Open Scope string_scope.
Open Scope nat_scope.
Open Scope list_scope.

(* ================================================================== *)
(** ** JavaScript strings *)
(* ================================================================== *)

Module JS.

Definition bytes (s : string) : list nat :=
  map nat_of_ascii (list_ascii_of_string s).

Definition of_bytes (l : list nat) : string :=
  string_of_list_ascii (map ascii_of_nat l).

(** The one-character strings the sources use as separators; the double
    quote is spelled by its code. *)
Definition LF : ascii := ascii_of_nat 10.
Definition PIPE : ascii := ascii_of_nat 124.
Definition nl : string := String LF EmptyString.
Definition dq : string := String (ascii_of_nat 34) EmptyString.

(** ECMAScript WhiteSpace and LineTerminator code points, as UTF-8 byte
    sequences: TAB LF VT FF CR SP, NBSP, U+1680, U+2000..U+200A, U+2028,
    U+2029, U+202F, U+205F, U+3000 and U+FEFF. *)
Definition white_space : list (list nat) :=
  [ [9]; [10]; [11]; [12]; [13]; [32]; [194; 160]; [225; 154; 128];
    [226; 128; 128]; [226; 128; 129]; [226; 128; 130]; [226; 128; 131];
    [226; 128; 132]; [226; 128; 133]; [226; 128; 134]; [226; 128; 135];
    [226; 128; 136]; [226; 128; 137]; [226; 128; 138];
    [226; 128; 168]; [226; 128; 169]; [226; 128; 175]; [226; 129; 159];
    [227; 128; 128]; [239; 187; 191] ].

Fixpoint strip_prefix (p l : list nat) : option (list nat) :=
  match p, l with
  | [], _ => Some l
  | x :: p', y :: l' => if Nat.eqb x y then strip_prefix p' l' else None
  | _ :: _, [] => None
  end.

(** Drops one leading white-space character, if there is one. *)
Fixpoint strip_one (table : list (list nat)) (l : list nat) : option (list nat) :=
  match table with
  | [] => None
  | p :: table' =>
      match strip_prefix p l with
      | Some rest => Some rest
      | None => strip_one table' l
      end
  end.

Fixpoint trim_start_fuel (table : list (list nat)) (fuel : nat) (l : list nat) : list nat :=
  match fuel with
  | 0 => l
  | S fuel' =>
      match strip_one table l with
      | Some rest => trim_start_fuel table fuel' rest
      | None => l
      end
  end.

(** Every white-space sequence is at least one byte long, so the length of
    the input is enough fuel. *)
Definition trim_start_bytes (l : list nat) : list nat :=
  trim_start_fuel white_space (length l) l.

Definition trim_end_bytes (l : list nat) : list nat :=
  rev (trim_start_fuel (map (@rev nat) white_space) (length l) (rev l)).

(** [String.prototype.trim]. *)
Definition trim (s : string) : string :=
  of_bytes (trim_end_bytes (trim_start_bytes (bytes s))).

Definition is_empty (s : string) : bool :=
  match s with EmptyString => true | String _ _ => false end.

(** [s.split(c)] for a one-character separator: never the empty list. *)
Fixpoint split (c : ascii) (s : string) : list string :=
  match s with
  | EmptyString => [EmptyString]
  | String a rest =>
      if Ascii.eqb a c then EmptyString :: split c rest
      else match split c rest with
           | [] => [String a EmptyString]
           | w :: ws => String a w :: ws
           end
  end.

(** [l.join(sep)]. *)
Fixpoint join (sep : string) (l : list string) : string :=
  match l with
  | [] => EmptyString
  | [x] => x
  | x :: rest => x +:+ sep +:+ join sep rest
  end.

(** [hay.includes(needle)]. *)
Fixpoint includes (needle hay : string) : bool :=
  if String.prefix needle hay then true
  else match hay with
       | EmptyString => false
       | String _ rest => includes needle rest
       end.

(** The decimal numeral of a natural number, as a template literal
    prints it. *)
Definition decimal (n : nat) : string :=
  NilEmpty.string_of_uint (Nat.to_uint n).

(** The array index a property name denotes, if it is the canonical
    numeral of one. *)
Definition array_index (k : string) : option nat :=
  match NilEmpty.uint_of_string k with
  | Some d => if String.eqb (decimal (Nat.of_uint d)) k then Some (Nat.of_uint d) else None
  | None => None
  end.

(** [parseInt(s)] without a radix: leading white space, an optional sign,
    then the longest run of decimal digits ([0x] introduces hexadecimal
    digits).  [None] is NaN. *)
Definition digit_value (radix : nat) (b : nat) : option nat :=
  let v :=
    if (48 <=? b) && (b <=? 57) then Some (b - 48)
    else if (97 <=? b) && (b <=? 122) then Some (b - 87)
    else if (65 <=? b) && (b <=? 90) then Some (b - 55)
    else None in
  match v with
  | Some d => if d <? radix then Some d else None
  | None => None
  end.

Fixpoint digits_value (radix : nat) (acc : option nat) (l : list nat) : option nat :=
  match l with
  | [] => acc
  | b :: l' =>
      match digit_value radix b with
      | Some d => digits_value radix (Some (radix * default 0 acc + d)) l'
      | None => acc
      end
  end.

Definition parseInt (s : string) : option Z :=
  let l := trim_start_bytes (bytes s) in
  let '(neg, l) :=
    match l with
    | 45 :: l' => (true, l')
    | 43 :: l' => (false, l')
    | _ => (false, l)
    end in
  let magnitude :=
    match l with
    | 48 :: 120 :: l' | 48 :: 88 :: l' => digits_value 16 None l'
    | _ => digits_value 10 None l
    end in
  match magnitude with
  | Some m => Some (if neg : bool then (- Z.of_nat m)%Z else Z.of_nat m)
  | None => None
  end.

Definition decimalZ (z : Z) : string :=
  match z with
  | Zneg p => "-" +:+ decimal (Pos.to_nat p)
  | _ => decimal (Z.to_nat z)
  end.

(** *** Errors and completions *)

Record JsError := mkError { err_name : string; err_message : string }.

(** [new Error(msg)] and the engine's [TypeError]. *)
Definition Error (msg : string) : JsError := mkError "Error" msg.
Definition TypeError (msg : string) : JsError := mkError "TypeError" msg.

(** How an evaluation ends: with a value or with a thrown error. *)
Inductive Completion (A : Type) : Type :=
| Return (a : A)
| Throw (e : JsError).
Arguments Return {A} a.
Arguments Throw {A} e.

Definition bind {A B} (c : Completion A) (k : A -> Completion B) : Completion B :=
  match c with
  | Return a => k a
  | Throw e => Throw e
  end.

(** *** Dynamic values

    What [JSON.parse] returns and what the sources build from it.  An
    object lists its own properties in enumeration order: array indices
    in ascending order first, then the other names in insertion order. *)
#[warnings="-register-all"] Inductive Val : Type :=
| VUndef
| VNull
| VBool (b : bool)
| VNum (z : Z)
| VStr (s : string)
| VArr (l : list Val)
| VObj (l : list (string * Val)).

Definition truthy (v : Val) : bool :=
  match v with
  | VUndef | VNull => false
  | VBool b => b
  | VNum z => negb (Z.eqb z 0)
  | VStr s => negb (is_empty s)
  | VArr _ | VObj _ => true
  end.

(** [a || b]. *)
Definition or_else (a b : Val) : Val := if truthy a then a else b.

(** [typeof v === 'object']. *)
Definition typeof_object (v : Val) : bool :=
  match v with
  | VNull | VArr _ | VObj _ => true
  | _ => false
  end.

Fixpoint assoc (k : string) (l : list (string * Val)) : option Val :=
  match l with
  | [] => None
  | (k', v) :: l' => if String.eqb k' k then Some v else assoc k l'
  end.

Definition chars (s : string) : list Val :=
  map (fun c => VStr (String c EmptyString)) (list_ascii_of_string s).

(** [v[k]] and [v.k]: reading a property of [undefined] or [null] throws. *)
Definition get (v : Val) (k : string) : Completion Val :=
  match v with
  | VUndef =>
      Throw (TypeError ("Cannot read properties of undefined (reading '" +:+ k +:+ "')"))
  | VNull =>
      Throw (TypeError ("Cannot read properties of null (reading '" +:+ k +:+ "')"))
  | VBool _ | VNum _ => Return VUndef
  | VStr s =>
      if String.eqb k "length" then Return (VNum (Z.of_nat (String.length s)))
      else Return (default VUndef (i ← array_index k; chars s !! i))
  | VArr l =>
      if String.eqb k "length" then Return (VNum (Z.of_nat (length l)))
      else Return (default VUndef (i ← array_index k; l !! i))
  | VObj l => Return (default VUndef (assoc k l))
  end.

(** [v?.k]. *)
Definition get_opt (v : Val) (k : string) : Val :=
  match v with
  | VUndef | VNull => VUndef
  | _ => match get v k with Return x => x | Throw _ => VUndef end
  end.

(** [Object.entries(v)] and [Object.keys(v)]; positions in a string are
    counted in bytes, which is exact for ASCII text. *)
Definition indexed (l : list Val) : list (string * Val) :=
  imap (fun i x => (decimal i, x)) l.

Definition Object_entries (v : Val) : Completion (list (string * Val)) :=
  match v with
  | VUndef | VNull => Throw (TypeError "Cannot convert undefined or null to object")
  | VBool _ | VNum _ => Return []
  | VStr s => Return (indexed (chars s))
  | VArr l => Return (indexed l)
  | VObj l => Return l
  end.

Definition Object_keys (v : Val) : Completion (list string) :=
  bind (Object_entries v) (fun l => Return (map fst l)).

(** [o[k] = v] on an object under construction: an existing property is
    overwritten where it stands, a new array index goes to its place among
    the indices, any other new name goes last. *)
Fixpoint obj_replace (k : string) (v : Val) (l : list (string * Val)) : list (string * Val) :=
  match l with
  | [] => []
  | (k', v') :: l' =>
      if String.eqb k' k then (k, v) :: l' else (k', v') :: obj_replace k v l'
  end.

Fixpoint obj_insert_index (n : nat) (k : string) (v : Val) (l : list (string * Val))
  : list (string * Val) :=
  match l with
  | [] => [(k, v)]
  | (k', v') :: l' =>
      match array_index k' with
      | Some m => if m <? n then (k', v') :: obj_insert_index n k v l'
                  else (k, v) :: l
      | None => (k, v) :: l
      end
  end.

Definition obj_set (k : string) (v : Val) (l : list (string * Val)) : list (string * Val) :=
  match assoc k l with
  | Some _ => obj_replace k v l
  | None =>
      match array_index k with
      | Some n => obj_insert_index n k v l
      | None => l ++ [(k, v)]
      end
  end.

(** *** [JSON.stringify(v, null, 2)] *)

Definition hex_digit (n : nat) : string :=
  String (ascii_of_nat (if n <? 10 then 48 + n else 87 + n)) EmptyString.

Definition escape_byte (b : nat) : string :=
  if b =? 8 then "\b" else if b =? 9 then "\t" else if b =? 10 then "\n"
  else if b =? 12 then "\f" else if b =? 13 then "\r"
  else if b =? 34 then "\" +:+ dq else if b =? 92 then "\\"
  else if b <? 32 then "\u00" +:+ hex_digit (b / 16) +:+ hex_digit (b mod 16)
  else String (ascii_of_nat b) EmptyString.

Definition quote (s : string) : string :=
  dq +:+ String.concat "" (map escape_byte (bytes s)) +:+ dq.

Definition bracket (opening closing indent : string) (items : list string) : string :=
  match items with
  | [] => opening +:+ closing
  | _ =>
      let inner := indent +:+ "  " in
      opening +:+ nl +:+ inner +:+ join ("," +:+ nl +:+ inner) items
              +:+ nl +:+ indent +:+ closing
  end.

(** [None] stands for a value that is not serialised ([undefined]). *)
Fixpoint stringify_at (indent : string) (v : Val) : option string :=
  match v with
  | VUndef => None
  | VNull => Some "null"
  | VBool b => Some (if b then "true" else "false")
  | VNum z => Some (decimalZ z)
  | VStr s => Some (quote s)
  | VArr l =>
      let items :=
        (fix go (l : list Val) : list string :=
           match l with
           | [] => []
           | x :: r => default "null" (stringify_at (indent +:+ "  ") x) :: go r
           end) l in
      Some (bracket "[" "]" indent items)
  | VObj l =>
      let items :=
        (fix go (l : list (string * Val)) : list string :=
           match l with
           | [] => []
           | (k, x) :: r =>
               match stringify_at (indent +:+ "  ") x with
               | Some sx => (quote k +:+ ": " +:+ sx) :: go r
               | None => go r
               end
           end) l in
      Some (bracket "{" "}" indent items)
  end.

Definition JSON_stringify (v : Val) : string :=
  default "undefined" (stringify_at "" v).

End JS.

Export JS (Completion, Return, Throw, JsError, Val).

(* ================================================================== *)
(** ** The data model ([types/index.ts]) *)
(* ================================================================== *)

Module Types.

Record SubtitleEntry := mkEntry {
  id : nat;
  startTime : string;
  endTime : string;
  text : string;
  translatedText : option string   (* [None] is [undefined] *)
}.

Record Term := mkTerm { original : string; translation : string }.

Record TranslationConfig := mkConfig {
  apiKey : string;
  baseURL : string;
  model : string;
  sourceLanguage : string;
  targetLanguage : string;
  contextBefore : nat;
  contextAfter : nat;
  batchSize : nat;
  threadCount : nat;
  rpm : nat;
  enableReflection : bool
}.

(** ['idle' | 'translating' | 'completed']. *)
Inductive Status := Idle | Translating | Completed.

Record Progress := mkProgress {
  completed : nat;
  total : nat;
  tokens : nat;
  status : Status;
  current_index : option nat
}.

Record SingleTask := mkTask {
  taskId : string;
  subtitle_entries : list SubtitleEntry;
  subtitle_filename : string;
  translation_progress : Progress;
  index : nat
}.

Record CurrentTranslationTask := mkCurrent {
  cur_taskId : string;
  cur_subtitle_entries : list SubtitleEntry;
  cur_subtitle_filename : string;
  cur_translation_progress : Progress
}.

Record TranslationHistoryEntry := mkHistory {
  hist_taskId : string;
  hist_filename : string;
  completedCount : nat;
  totalTokens : nat;
  timestamp : nat;
  current_translation_task : CurrentTranslationTask
}.

(** [Omit<TranslationHistoryEntry, 'timestamp'>]. *)
Record HistoryInput := mkHistoryInput {
  in_taskId : string;
  in_filename : string;
  in_completedCount : nat;
  in_totalTokens : nat;
  in_current_translation_task : CurrentTranslationTask
}.

(** [Partial<SingleTask['translation_progress']>]: [None] is a field the
    update does not carry. *)
Record ProgressUpdate := mkUpdate {
  u_completed : option nat;
  u_total : option nat;
  u_tokens : option nat;
  u_status : option Status;
  u_current_index : option nat
}.

(** The test every component uses for a translated entry:
    [entry.translatedText && entry.translatedText.trim() !== '']. *)
Definition isTranslated (e : SubtitleEntry) : bool :=
  match translatedText e with
  | Some t => negb (JS.is_empty t) && negb (JS.is_empty (JS.trim t))
  | None => false
  end.

Definition countTranslated (entries : list SubtitleEntry) : nat :=
  length (List.filter isTranslated entries).

End Types.
Export Types.

(* ================================================================== *)
(** ** The prompt builders ([utils/translationPrompts]) *)
(* ================================================================== *)

Module Prompts.
Import JS.

(** A template literal, line by line. *)
Definition text_of_lines (l : list string) : string := join nl l.

Definition generateSharedPrompt (contextBefore contextAfter terms : string) : string :=
  text_of_lines
    [ "### Context Information";
      "<previous_content>";
      contextBefore;
      "</previous_content>";
      "";
      "<subsequent_content>";
      contextAfter;
      "</subsequent_content>";
      "";
      "### Terminology";
      terms ].

Definition directItem (line : string) : Val :=
  VObj [("origin", VStr line); ("direct", VStr "")].

(** [lineArray.forEach((line, index) => jsonDict[`${index + 1}`] = ...)]. *)
Definition directDict (lines : string) : list (string * Val) :=
  let lineArray := split LF lines in
  fold_left
    (fun jsonDict '(index, line) => obj_set (decimal (index + 1)) (directItem line) jsonDict)
    (imap pair lineArray) [].

(** The template literal of [generateDirectPrompt], line by line: what
    stands before the interpolated [jsonFormat], and what stands after it. *)
Definition directPromptHead
    (lines sharedPrompt sourceLanguage targetLanguage : string) : list string :=
    [ "## Role";
      "You are a professional Netflix subtitle translator, fluent in both "
        +:+ sourceLanguage +:+ " and " +:+ targetLanguage
        +:+ ", as well as their respective cultures. ";
      "Your expertise lies in accurately understanding the semantics and structure of the original "
        +:+ sourceLanguage +:+ " text and faithfully translating it into "
        +:+ targetLanguage +:+ " while preserving the original meaning.";
      "";
      "## Task";
      "We have a segment of original " +:+ sourceLanguage
        +:+ " subtitles that need to be directly translated into " +:+ targetLanguage
        +:+ ". These subtitles come from a specific context and may contain specific themes and terminology.";
      "";
      "1. Translate the original " +:+ sourceLanguage +:+ " subtitles into "
        +:+ targetLanguage +:+ " line by line";
      "2. Ensure the translation is faithful to the original, accurately conveying the original meaning";
      "3. Consider the context and professional terminology";
      "";
      sharedPrompt;
      "";
      "<translation_principles>";
      "1. Faithful to the original: Accurately convey the content and meaning of the original text, without arbitrarily changing, adding, or omitting content.";
      "2. Accurate terminology: Use professional terms correctly and maintain consistency in terminology.";
      "3. Understand the context: Fully comprehend and reflect the background and contextual relationships of the text.";
      "</translation_principles>";
      "";
      "## INPUT";
      "<subtitles>";
      lines;
      "</subtitles>";
      "";
      "## Output in only JSON format and no other text";
      "```json" ].

Definition directPromptTail : list string :=
  [ "```";
    "";
    "Note: Start you answer with ```json and end with ```, do not add any other text." ].

Definition generateDirectPrompt
    (lines sharedPrompt sourceLanguage targetLanguage : string) : string :=
  let jsonFormat := JSON_stringify (VObj (directDict lines)) in
  text_of_lines
    (directPromptHead lines sharedPrompt sourceLanguage targetLanguage
       ++ jsonFormat :: directPromptTail).

(** [Object.keys(directTranslations).forEach(key => jsonDict[key] = ...)];
    reading a field of a [null] item throws. *)
Definition reflectionItem (item : Val) : Completion Val :=
  bind (get item "origin") (fun origin =>
  bind (get item "direct") (fun direct =>
  Return (VObj [("origin", origin); ("direct", direct);
                ("reflect", VStr ""); ("free", VStr "")]))).

Fixpoint reflectionDict (directTranslations : Val) (keys : list string)
    (jsonDict : list (string * Val)) : Completion (list (string * Val)) :=
  match keys with
  | [] => Return jsonDict
  | key :: keys' =>
      bind (get directTranslations key) (fun item =>
      bind (reflectionItem item) (fun v =>
      reflectionDict directTranslations keys' (obj_set key v jsonDict)))
  end.

Definition generateReflectionPrompt (directTranslations : Val)
    (lines sharedPrompt sourceLanguage targetLanguage : string) : Completion string :=
  bind (Object_keys directTranslations) (fun keys =>
  bind (reflectionDict directTranslations keys []) (fun jsonDict =>
  let jsonFormat := JSON_stringify (VObj jsonDict) in
  Return (text_of_lines
    [ "## Role";
      "You are a professional subtitle editor for " +:+ targetLanguage +:+ ".";
      "";
      "## Your Task";
      "Critically review and refine the provided translation. Your revision must achieve three key goals:";
      "";
      "1.  **Natural Word Order**: Adjust the sentence structure to be fluent and natural for a "
        +:+ targetLanguage +:+ " speaker.";
      "2.  **Strict Terminology**: You MUST use the exact translations provided in the `### Terminology` list. This is a mandatory rule.";
      "3.  **Contextual Accuracy**: Use the surrounding subtitles (`<previous_content>` and `<subsequent_content>`) to correct any logical errors or mistranslations.";
      "";
      "## Process";
      "Directly provide the improved translation in the specified JSON format. Do not explain your thought process or add comments in the output. Your focus is the final, clean subtitle.";
      "";
      sharedPrompt;
      "";
      "## INPUT";
      "<subtitles>";
      lines;
      "</subtitles>";
      "";
      "## Output Format";
      "Provide your response strictly in the following JSON format. Do not include any other text.";
      "```json";
      jsonFormat;
      "```";
      "";
      "Note: Start your answer with ```json and end with ```." ]))).

End Prompts.

(* ================================================================== *)
(** ** The terms filter ([TermsContext]) *)
(* ================================================================== *)

Module Terms.

(** The two engine services [cleanText] calls.  They consult the Unicode
    tables of the JavaScript engine, which are not part of the
    repository, so they are taken as parameters:
    [toLowerCase s] is [s.toLowerCase()], and [removeNonAlnum s] is
    [s.replace(/[^\p{L}\p{N}]/gu, '')]. *)
Class Unicode := {
  toLowerCase : string -> string;
  removeNonAlnum : string -> string
}.

Section WithUnicode.
Context {U : Unicode}.

Definition cleanText (text : string) : string :=
  removeNonAlnum (toLowerCase text).

(** [term.cleanedOriginal && cleanedFullText.includes(term.cleanedOriginal)]. *)
Definition relevant (cleanedFullText : string) (term : Term) : bool :=
  let cleanedOriginal := cleanText (original term) in
  negb (JS.is_empty cleanedOriginal) && JS.includes cleanedOriginal cleanedFullText.

Definition getRelevantTerms (terms : list Term)
    (text contextBefore contextAfter : string) : list Term :=
  match terms with
  | [] => []
  | _ =>
      let fullText := contextBefore +:+ " " +:+ text +:+ " " +:+ contextAfter in
      let cleanedFullText := cleanText fullText in
      map (fun term => mkTerm (original term) (translation term))
          (List.filter (relevant cleanedFullText) terms)
  end.

End WithUnicode.

(** The tables restricted to ASCII: letters A-Z are folded to a-z, and the
    ASCII characters that are neither letters nor digits are removed;
    bytes of other characters are kept. *)
Definition ascii_lower (b : nat) : nat :=
  if (65 <=? b) && (b <=? 90) then b + 32 else b.

Definition ascii_alnum (b : nat) : bool :=
  ((48 <=? b) && (b <=? 57)) || ((97 <=? b) && (b <=? 122))
  || ((65 <=? b) && (b <=? 90)) || (128 <=? b).

Definition ascii_unicode : Unicode := {|
  toLowerCase s := JS.of_bytes (map ascii_lower (JS.bytes s));
  removeNonAlnum s := JS.of_bytes (List.filter ascii_alnum (JS.bytes s))
|}.

End Terms.

(* ================================================================== *)
(** ** The data manager ([services/dataManager]) *)
(* ================================================================== *)

Module DataManager.

(** [memoryStore] and, next to it, what [localforage] holds under the keys
    [batch_tasks], [terms_list] and [translation_history] ([None]: no item).
    [localforage.setItem] stores a structured clone, so the durable copy is a
    value of its own.  The sources never update an entries array or a task
    object in place (they build new ones with [map] and spreads), so plain
    values model them. *)
Record Store := mkStore {
  batch_tasks : list SingleTask;
  terms_list : list Term;
  translation_history : list TranslationHistoryEntry;
  disk_batch_tasks : option (list SingleTask);
  disk_terms : option (list Term);
  disk_history : option (list TranslationHistoryEntry)
}.

(** The constructor's [memoryStore], with nothing stored yet. *)
Definition empty : Store := mkStore [] [] [] None None None.

(** How one [localforage] call ends. *)
Inductive Write := Stored | Rejected (e : JsError).

Definition with_tasks (s : Store) (tasks : list SingleTask) : Store :=
  mkStore tasks (terms_list s) (translation_history s)
          (disk_batch_tasks s) (disk_terms s) (disk_history s).

Definition with_history (s : Store) (h : list TranslationHistoryEntry) : Store :=
  mkStore (batch_tasks s) (terms_list s) h
          (disk_batch_tasks s) (disk_terms s) (disk_history s).

(** [await localforage.setItem(KEYS.BATCH_TASKS, memoryStore.batch_tasks)]
    inside the method's [try]: a rejection is logged and rethrown. *)
Definition persist_tasks (w : Write) (s : Store) : Completion unit * Store :=
  match w with
  | Stored =>
      (Return (),
       mkStore (batch_tasks s) (terms_list s) (translation_history s)
               (Some (batch_tasks s)) (disk_terms s) (disk_history s))
  | Rejected e => (Throw e, s)
  end.

Definition persist_history (w : Write) (item : option (list TranslationHistoryEntry))
    (s : Store) : Completion unit * Store :=
  match w with
  | Stored =>
      (Return (),
       mkStore (batch_tasks s) (terms_list s) (translation_history s)
               (disk_batch_tasks s) (disk_terms s) item)
  | Rejected e => (Throw e, s)
  end.

(** [tasks.find(t => t.taskId === taskId)] together with
    [tasks.findIndex(...)]: the first match and its position. *)
Definition findTask (tid : string) (tasks : list SingleTask) : option (nat * SingleTask) :=
  list_find (λ t, taskId t = tid) tasks.

Definition getTaskById (tid : string) (s : Store) : option SingleTask :=
  snd <$> findTask tid (batch_tasks s).

Definition createNewTask (filename : string) (entries : list SubtitleEntry) (idx : nat)
    (freshId : string) (w : Write) (s : Store) : Completion string * Store :=
  let newTask :=
    mkTask freshId entries filename (mkProgress 0 (length entries) 0 Idle None) idx in
  let s1 := with_tasks s (batch_tasks s ++ [newTask]) in
  match persist_tasks w s1 with
  | (Return _, s2) => (Return freshId, s2)
  | (Throw e, s2) => (Throw e, s2)
  end.

(** [{ ...entry, text, translatedText: translatedText ?? entry.translatedText }]. *)
Definition rewriteEntry (e : SubtitleEntry) (newText : string)
    (newTranslated : option string) : SubtitleEntry :=
  mkEntry (id e) (startTime e) (endTime e) newText
          (match newTranslated with
           | Some t => Some t
           | None => translatedText e
           end).

(** The task rebuilt around new entries: [completed] is counted again,
    and [total] is [progress.total || updatedEntries.length]. *)
Definition withEntries (task : SingleTask) (updatedEntries : list SubtitleEntry) : SingleTask :=
  let p := translation_progress task in
  mkTask (taskId task) updatedEntries (subtitle_filename task)
         (mkProgress (countTranslated updatedEntries)
                     (if total p =? 0 then length updatedEntries else total p)
                     (tokens p) (status p) (current_index p))
         (index task).

Definition updateOne (entryId : nat) (newText : string) (newTranslated : option string)
    (entries : list SubtitleEntry) : list SubtitleEntry :=
  map (fun entry => if id entry =? entryId
                    then rewriteEntry entry newText newTranslated else entry) entries.

Definition updateTaskSubtitleEntryInMemory (tid : string) (entryId : nat)
    (newText : string) (newTranslated : option string) (s : Store) : Store :=
  match findTask tid (batch_tasks s) with
  | None => s
  | Some (taskIndex, task) =>
      let updatedEntries := updateOne entryId newText newTranslated (subtitle_entries task) in
      with_tasks s (<[taskIndex := withEntries task updatedEntries]> (batch_tasks s))
  end.

Definition updateTaskSubtitleEntry (tid : string) (entryId : nat)
    (newText : string) (newTranslated : option string) (w : Write) (s : Store)
    : Completion unit * Store :=
  match findTask tid (batch_tasks s) with
  | None => (Return (), s)
  | Some _ =>
      persist_tasks w (updateTaskSubtitleEntryInMemory tid entryId newText newTranslated s)
  end.

Record EntryUpdate := mkEntryUpdate {
  upd_id : nat;
  upd_text : string;
  upd_translatedText : option string
}.

(** [updates.find(u => u.id === entry.id)]: the first update for the entry. *)
Definition updateMany (updates : list EntryUpdate) (entries : list SubtitleEntry)
    : list SubtitleEntry :=
  map (fun entry =>
         match List.find (fun u => upd_id u =? id entry) updates with
         | Some u => rewriteEntry entry (upd_text u) (upd_translatedText u)
         | None => entry
         end) entries.

(** Asynchronous in the source, but it writes nothing to [localforage]. *)
Definition batchUpdateTaskSubtitleEntries (tid : string) (updates : list EntryUpdate)
    (s : Store) : Store :=
  match findTask tid (batch_tasks s) with
  | None => s
  | Some (taskIndex, task) =>
      let updatedEntries := updateMany updates (subtitle_entries task) in
      with_tasks s (<[taskIndex := withEntries task updatedEntries]> (batch_tasks s))
  end.

(** [{ ...task.translation_progress, ...updates }]. *)
Definition mergeProgress (p : Progress) (u : ProgressUpdate) : Progress :=
  mkProgress (default (completed p) (u_completed u))
             (default (total p) (u_total u))
             (default (tokens p) (u_tokens u))
             (default (status p) (u_status u))
             (match u_current_index u with
              | Some i => Some i
              | None => current_index p
              end).

Definition withProgress (task : SingleTask) (p : Progress) : SingleTask :=
  mkTask (taskId task) (subtitle_entries task) (subtitle_filename task) p (index task).

Definition updateTaskTranslationProgressInMemory (tid : string) (updates : ProgressUpdate)
    (s : Store) : Store :=
  match findTask tid (batch_tasks s) with
  | None => s
  | Some (taskIndex, task) =>
      let updatedTask := withProgress task (mergeProgress (translation_progress task) updates) in
      with_tasks s (<[taskIndex := updatedTask]> (batch_tasks s))
  end.

Definition updateTaskTranslationProgress (tid : string) (updates : ProgressUpdate)
    (w : Write) (s : Store) : Completion unit * Store :=
  match findTask tid (batch_tasks s) with
  | None => (Return (), s)
  | Some _ => persist_tasks w (updateTaskTranslationProgressInMemory tid updates s)
  end.

Definition completeTask (tid : string) (finalTokens : nat) (w : Write) (s : Store)
    : Completion unit * Store :=
  match findTask tid (batch_tasks s) with
  | None => (Return (), s)
  | Some (taskIndex, task) =>
      let completedCount := countTranslated (subtitle_entries task) in
      let oldTokens := tokens (translation_progress task) in
      let tokensToSave := Nat.max finalTokens oldTokens in
      let totalEntries := total (translation_progress task) in
      let updatedTask :=
        withProgress task
          (mkProgress completedCount totalEntries tokensToSave Completed
                      (current_index (translation_progress task))) in
      persist_tasks w (with_tasks s (<[taskIndex := updatedTask]> (batch_tasks s)))
  end.

Definition clearBatchTasks (w : Write) (s : Store) : Completion unit * Store :=
  let s1 := with_tasks s [] in
  match w with
  | Stored =>
      (Return (),
       mkStore (batch_tasks s1) (terms_list s1) (translation_history s1)
               (Some []) (disk_terms s1) (disk_history s1))
  | Rejected e => (Throw e, s1)
  end.

Definition removeTask (tid : string) (w : Write) (s : Store) : Completion unit * Store :=
  persist_tasks w (with_tasks s (filter (λ t, taskId t ≠ tid) (batch_tasks s))).

(** *** History *)

Definition stamp (entry : HistoryInput) (now : nat) : TranslationHistoryEntry :=
  mkHistory (in_taskId entry) (in_filename entry) (in_completedCount entry)
            (in_totalTokens entry) now (in_current_translation_task entry).

(** [now] is what [Date.now()] returns during the call. *)
Definition addHistoryEntry (entry : HistoryInput) (now : nat) (w : Write) (s : Store)
    : Completion unit * Store :=
  let existingIndex :=
    list_find (λ h, hist_taskId h = in_taskId entry) (translation_history s) in
  let newEntry := stamp entry now in
  let updatedHistory :=
    match existingIndex with
    | Some (i, _) => <[i := newEntry]> (translation_history s)
    | None => newEntry :: translation_history s
    end in
  persist_history w (Some updatedHistory) (with_history s updatedHistory).

Definition deleteHistoryEntry (tid : string) (w : Write) (s : Store)
    : Completion unit * Store :=
  let updatedHistory := filter (λ entry, hist_taskId entry ≠ tid) (translation_history s) in
  persist_history w (Some updatedHistory) (with_history s updatedHistory).

(** [localforage.removeItem(KEYS.HISTORY)]. *)
Definition clearHistory (w : Write) (s : Store) : Completion unit * Store :=
  persist_history w None (with_history s []).

End DataManager.

(* ================================================================== *)
(** ** The translation client ([TranslationContext]) *)
(* ================================================================== *)

Module Translation.
Import JS.

(** *** The outside world

    One [Step] describes one pass through the request code: whether the
    abort signal is already set at the first check, whether it is set after
    [rateLimiter.waitForAvailability()], and how [fetch] ends.  The body of a
    response is typed after the chat-completion interface; reading it
    ([response.json()]) can fail. *)
Inductive Read (A : Type) : Type :=
| ReadOk (a : A)
| ReadFails (e : JsError).
Arguments ReadOk {A} a.
Arguments ReadFails {A} e.

Record ChatCompletion := mkCompletion {
  usage_total_tokens : option nat;   (* [data.usage?.total_tokens] *)
  message_content : option string    (* [data.choices[0]?.message?.content] *)
}.

Record ErrorBody := mkErrorBody {
  error_message : option string      (* [errorData.error?.message] *)
}.

Inductive FetchResult :=
| Rejects (e : JsError)
| RespondsOk (body : Read ChatCompletion)
| RespondsError (http_status : nat) (body : Read ErrorBody).

Record Step := mkStep {
  abortedAtStart : bool;
  abortedAfterWait : bool;
  answer : FetchResult
}.

(** Modelled from the spec: [rateLimiter.waitForAvailability()] of
    [utils/rateLimiter], which is not among the sources.  It suspends the
    caller until a request slot is free and then returns; the model records
    the call as the event [Acquire] and goes on.  [rateLimiter.setRPM] only
    changes the limiter and leaves no event.

    The events are what the client does that can be observed from
    outside. *)
Inductive Event :=
| Acquire                                         (* a rate-limiter slot *)
| Fetch (key : option string) (prompt : string)   (* POST /chat/completions *)
| Sleep (ms : nat).                               (* the back-off timer *)

(** The provider's mutable state: [apiKeyIndexRef.current], the number of
    steps of the outside world consumed, and the events so far. *)
Record Client := mkClient {
  apiKeyIndex : nat;
  requests : nat;
  events : list Event
}.

Definition emit (ev : Event) (c : Client) : Client :=
  mkClient (apiKeyIndex c) (requests c) (events c ++ [ev]).

Definition next_step (c : Client) : Client :=
  mkClient (apiKeyIndex c) (S (requests c)) (events c).

Definition with_index (c : Client) (i : nat) : Client :=
  mkClient i (requests c) (events c).

Definition is_fetch (ev : Event) : bool :=
  match ev with Fetch _ _ => true | _ => false end.

Definition is_sleep (ev : Event) : bool :=
  match ev with Sleep _ => true | _ => false end.

Definition sleeps (evs : list Event) : list nat :=
  omap (fun ev => match ev with Sleep ms => Some ms | _ => None end) evs.

(** *** API keys *)

Definition validKeys (apiKeyStr : string) : list string :=
  List.filter (fun key => negb (is_empty key)) (map trim (split PIPE apiKeyStr)).

Definition noValidKey : JsError := Error "未配置有效的API密钥".

(** Returns [apiKeys[currentIndex]] ([None] is [undefined]) and the next
    value of [apiKeyIndexRef.current]. *)
Definition getNextApiKey (apiKeyStr : string) (currentIndex : nat)
    : Completion (option string) * nat :=
  let apiKeys := validKeys apiKeyStr in
  match apiKeys with
  | [] => (Throw noValidKey, currentIndex)
  | _ =>
      let nextIndex := (currentIndex + 1) mod length apiKeys in
      (Return (apiKeys !! currentIndex), nextIndex)
  end.

(** *** translateBatch *)

Definition cancelled : JsError := Error "翻译被取消".
Definition notConfigured : JsError := Error "请先配置API密钥".
Definition directFailedError : JsError := Error "直译失败".

(** [error.name === 'AbortError' || error.message?.includes('取消')]. *)
Definition isCancellation (e : JsError) : bool :=
  String.eqb (err_name e) "AbortError" || includes "取消" (err_message e).

(** [errorData.error?.message || `HTTP ${response.status}`]. *)
Definition httpError (http_status : nat) (b : ErrorBody) : JsError :=
  Error (match error_message b with
         | Some m => if is_empty m then "HTTP " +:+ decimal http_status else m
         | None => "HTTP " +:+ decimal http_status
         end).

Section WithWorld.

(** [JSON.parse(jsonrepair(content))], from the [jsonrepair] package. *)
Variable decode : string -> Completion Val.
(** The outside world, step by step. *)
Variable net : nat -> Step.

(** The body of the direct pass's [try], after the first abort check.
    Returns how the body ended, the client, and the tokens it added to
    [totalTokensUsed] (they are added before the content is decoded). *)
Definition directAttempt (cfg : TranslationConfig) (directPrompt : string)
    (step : Step) (c : Client) : Completion Val * Client * nat :=
  let c := emit Acquire c in
  if abortedAfterWait step then (Throw cancelled, c, 0)
  else
    match getNextApiKey (apiKey cfg) (apiKeyIndex c) with
    | (Throw e, i) => (Throw e, with_index c i, 0)
    | (Return key, i) =>
        let c := emit (Fetch key directPrompt) (with_index c i) in
        match answer step with
        | Rejects e => (Throw e, c, 0)
        | RespondsError http_status (ReadFails e) => (Throw e, c, 0)
        | RespondsError http_status (ReadOk errorData) =>
            (Throw (httpError http_status errorData), c, 0)
        | RespondsOk (ReadFails e) => (Throw e, c, 0)
        | RespondsOk (ReadOk directData) =>
            let directTokensUsed := default 0 (usage_total_tokens directData) in
            let directContent := default "" (message_content directData) in
            (decode directContent, c, directTokensUsed)
        end
    end.

(** The loop [for (attempt = 1; attempt <= maxRetries; attempt++)], with
    [remaining] iterations to go.  It returns [directResult] (still [{}] when
    the loop ran out), [lastError] and [totalTokensUsed]. *)
Fixpoint directLoop (cfg : TranslationConfig) (directPrompt : string) (maxRetries : nat)
    (remaining attempt : nat) (lastError : option JsError) (totalTokensUsed : nat)
    (c : Client) : Completion (Val * option JsError * nat) * Client :=
  match remaining with
  | 0 => (Return (VObj [], lastError, totalTokensUsed), c)
  | S remaining' =>
      let step := net (requests c) in
      let c := next_step c in
      if abortedAtStart step then (Throw cancelled, c)
      else
        let '(outcome, c, used) := directAttempt cfg directPrompt step c in
        let totalTokensUsed := totalTokensUsed + used in
        match outcome with
        | Return directResult => (Return (directResult, lastError, totalTokensUsed), c)
        | Throw error =>
            if isCancellation error then (Throw error, c)
            else
              let c := if attempt <? maxRetries then emit (Sleep (1000 * attempt)) c else c in
              directLoop cfg directPrompt maxRetries remaining' (S attempt)
                         (Some error) totalTokensUsed c
        end
  end.

(** [!directResult || Object.keys(directResult).length === 0]. *)
Definition isEmptyResult (directResult : Val) : bool :=
  negb (truthy directResult)
  || match Object_keys directResult with
     | Return [] => true
     | _ => false
     end.

(** The reflection answer put back into the shape of the direct result. *)
Definition formatItem (item : Val) : Completion Val :=
  bind (get item "origin") (fun origin =>
  bind (get item "free") (fun free =>
  bind (get item "direct") (fun direct =>
  Return (VObj [("origin", origin); ("direct", or_else free direct)])))).

Fixpoint formatKeys (reflectionResult : Val) (keys : list string)
    (formattedResult : list (string * Val)) : Completion (list (string * Val)) :=
  match keys with
  | [] => Return formattedResult
  | key :: keys' =>
      bind (get reflectionResult key) (fun item =>
      bind (formatItem item) (fun v =>
      formatKeys reflectionResult keys' (obj_set key v formattedResult)))
  end.

Definition formatReflection (reflectionResult : Val) : Completion Val :=
  bind (Object_keys reflectionResult) (fun keys =>
  bind (formatKeys reflectionResult keys []) (fun formattedResult =>
  Return (VObj formattedResult))).

(** The body of the reflection pass's outer [try]. *)
Definition reflectionAttempt (cfg : TranslationConfig)
    (textToTranslate sharedPrompt : string) (directResult : Val) (totalTokensUsed : nat)
    (step : Step) (c : Client) : Completion (Val * nat) * Client :=
  if abortedAtStart step then (Throw cancelled, c)
  else
    match Prompts.generateReflectionPrompt directResult textToTranslate sharedPrompt
            (sourceLanguage cfg) (targetLanguage cfg) with
    | Throw e => (Throw e, c)
    | Return reflectionPrompt =>
        let c := emit Acquire c in
        if abortedAfterWait step then (Throw cancelled, c)
        else
          match getNextApiKey (apiKey cfg) (apiKeyIndex c) with
          | (Throw e, i) => (Throw e, with_index c i)
          | (Return key, i) =>
              let c := emit (Fetch key reflectionPrompt) (with_index c i) in
              match answer step with
              | Rejects e => (Throw e, c)
              | RespondsError _ (ReadFails e) => (Throw e, c)
              | RespondsError _ (ReadOk _) => (Return (directResult, totalTokensUsed), c)
              | RespondsOk (ReadFails e) => (Throw e, c)
              | RespondsOk (ReadOk reflectionData) =>
                  let totalTokensUsed :=
                    totalTokensUsed + default 0 (usage_total_tokens reflectionData) in
                  let reflectionContent := default "" (message_content reflectionData) in
                  match bind (decode reflectionContent) formatReflection with
                  | Return formattedResult => (Return (formattedResult, totalTokensUsed), c)
                  | Throw _ => (Return (directResult, totalTokensUsed), c)
                  end
              end
          end
    end.

Definition reflectionPass (cfg : TranslationConfig)
    (textToTranslate sharedPrompt : string) (directResult : Val) (totalTokensUsed : nat)
    (c : Client) : Completion (Val * nat) * Client :=
  let step := net (requests c) in
  let c := next_step c in
  match reflectionAttempt cfg textToTranslate sharedPrompt directResult totalTokensUsed step c with
  | (Throw error, c) =>
      if isCancellation error then (Throw error, c)
      else (Return (directResult, totalTokensUsed), c)
  | done => done
  end.

(** [translateBatch(texts, signal, contextBefore, contextAfter, terms,
    maxRetries)]: the translations and [tokensUsed], or the error thrown. *)
Definition translateBatch (cfg : TranslationConfig) (texts : list string)
    (contextBefore contextAfter terms : string) (maxRetries : nat) (c : Client)
    : Completion (Val * nat) * Client :=
  if is_empty (apiKey cfg) then (Throw notConfigured, c)
  else
    let textToTranslate := join nl texts in
    let sharedPrompt := Prompts.generateSharedPrompt contextBefore contextAfter terms in
    let directPrompt :=
      Prompts.generateDirectPrompt textToTranslate sharedPrompt
        (sourceLanguage cfg) (targetLanguage cfg) in
    match directLoop cfg directPrompt maxRetries maxRetries 1 None 0 c with
    | (Throw e, c) => (Throw e, c)
    | (Return (directResult, lastError, totalTokensUsed), c) =>
        if isEmptyResult directResult
        then (Throw (default directFailedError lastError), c)
        else if enableReflection cfg
        then reflectionPass cfg textToTranslate sharedPrompt directResult totalTokensUsed c
        else (Return (directResult, totalTokensUsed), c)
    end.

End WithWorld.

(** The default of the [maxRetries] parameter; no caller passes another. *)
Definition defaultMaxRetries : nat := 5.

(** *** Progress *)

Inductive Phase := PhaseDirect | PhaseCompleted.

(** [updateProgress(current, total, phase, status, taskId, newTokens)], as
    far as the task store is concerned; [currentTaskId] is the provider's. *)
Definition updateProgress (current totalCount : nat) (phase : Phase)
    (taskId currentTaskId : string) (newTokens : option nat)
    (s : DataManager.Store) : DataManager.Store :=
  let actualTaskId := if is_empty taskId then currentTaskId else taskId in
  if is_empty actualTaskId then s
  else
    let updateObj :=
      mkUpdate (Some current) (Some totalCount) newTokens
               (Some (match phase with
                      | PhaseCompleted => Completed
                      | PhaseDirect => Translating
                      end))
               None in
    DataManager.updateTaskTranslationProgressInMemory actualTaskId updateObj s.

(** [completeTranslation(taskId)]: the update in memory ... *)
Definition completeTranslation (taskId : string) (s : DataManager.Store) : DataManager.Store :=
  match DataManager.getTaskById taskId s with
  | Some task =>
      let taskTokens := tokens (translation_progress task) in
      DataManager.updateTaskTranslationProgressInMemory taskId
        (mkUpdate None None (Some taskTokens) (Some Completed) None) s
  | None => s
  end.

(** ... and the write its 200 ms timer makes, with the tokens read when
    [completeTranslation] ran; a rejection is logged there. *)
Definition completeTranslationTimer (taskId : string) (taskTokens : nat)
    (w : DataManager.Write) (s : DataManager.Store) : DataManager.Store :=
  snd (DataManager.updateTaskTranslationProgress taskId
         (mkUpdate None None (Some taskTokens) (Some Completed) None) w s).

End Translation.

(* ================================================================== *)
(** ** The orchestrator ([TranslationControls.onStartTranslation]) *)
(* ================================================================== *)

Module Controls.
Import JS.

(** [l.slice(a, b)] for indices that are not negative. *)
Definition slice {A} (a b : nat) (l : list A) : list A := take (b - a) (drop a l).

(** [Math.ceil(n / b)] on natural numbers, for [b >= 1]. *)
Definition ceil_div (n b : nat) : nat := (n + b - 1) / b.

(** [!entry.translatedText || !entry.translatedText.trim()]. *)
Definition isUntranslated (e : SubtitleEntry) : bool :=
  match translatedText e with
  | Some t => is_empty t || is_empty (trim t)
  | None => true
  end.

(** The values of [batchIndex] the planning loop goes through,
    [for (batchIndex = startBatchIndex; batchIndex < totalBatches; ...)].
    With [batchSize = 0] the bounds are [NaN] or [Infinity] and the loop
    body never runs. *)
Definition batchIndices (entries : list SubtitleEntry) (batchSize : nat) : list nat :=
  if batchSize =? 0 then []
  else
    let totalBatches := ceil_div (length entries) batchSize in
    let startBatchIndex := countTranslated entries / batchSize in
    seq startBatchIndex (totalBatches - startBatchIndex).

Record Batch := mkBatch {
  batchIndex : nat;
  untranslatedEntries : list SubtitleEntry;
  textsToTranslate : list string;
  contextBeforeTexts : string;
  contextAfterTexts : string;
  termsText : string
}.

Section WithTerms.
Context {U : Terms.Unicode}.
(** [state.terms] of the terms provider. *)
Variable terms : list Term.

(** One turn of the planning loop; [None] is its [continue]. *)
Definition planBatch (entries : list SubtitleEntry) (cfg : TranslationConfig)
    (batchIndex : nat) : option Batch :=
  let startIdx := batchIndex * batchSize cfg in
  let endIdx := Nat.min (startIdx + batchSize cfg) (length entries) in
  let batchEntries := slice startIdx endIdx entries in
  let untranslatedEntries := List.filter isUntranslated batchEntries in
  match untranslatedEntries with
  | [] => None
  | _ =>
      let contextBeforeTexts :=
        join nl (map text (slice (startIdx - contextBefore cfg) startIdx entries)) in
      let contextAfterTexts :=
        join nl (map text
                   (slice endIdx (Nat.min (length entries) (endIdx + contextAfter cfg)) entries)) in
      let batchText := join " " (map text untranslatedEntries) in
      let relevantTerms :=
        Terms.getRelevantTerms terms batchText contextBeforeTexts contextAfterTexts in
      let termsText :=
        join nl (map (fun term => original term +:+ " -> " +:+ translation term) relevantTerms) in
      Some (mkBatch batchIndex untranslatedEntries (map text untranslatedEntries)
                    contextBeforeTexts contextAfterTexts termsText)
  end.

Definition allBatches (entries : list SubtitleEntry) (cfg : TranslationConfig) : list Batch :=
  omap (planBatch entries cfg) (batchIndices entries (batchSize cfg)).

(** The loop over [Object.entries(translationResult.translations)] that
    fills [batchUpdates].  [Return None] marks data that leaves the typed
    model: a [direct] that is truthy but not a string. *)
Definition entryAt (untranslated : list SubtitleEntry) (key : string) : option SubtitleEntry :=
  match parseInt key with
  | Some z => if (z - 1 <? 0)%Z then None else untranslated !! Z.to_nat (z - 1)
  | None => None
  end.

Fixpoint collectUpdates (results : list (string * Val)) (untranslated : list SubtitleEntry)
    (batchUpdates : list DataManager.EntryUpdate)
    : Completion (option (list DataManager.EntryUpdate)) :=
  match results with
  | [] => Return (Some batchUpdates)
  | (key, value) :: rest =>
      match entryAt untranslated key with
      | None => collectUpdates rest untranslated batchUpdates
      | Some untranslatedEntry =>
          if typeof_object value then
            match get value "direct" with
            | Throw e => Throw e
            | Return direct =>
                if truthy direct then
                  match direct with
                  | VStr t =>
                      collectUpdates rest untranslated
                        (batchUpdates ++
                           [DataManager.mkEntryUpdate (id untranslatedEntry)
                              (text untranslatedEntry) (Some t)])
                  | _ => Return None
                  end
                else collectUpdates rest untranslated batchUpdates
            end
          else collectUpdates rest untranslated batchUpdates
      end
  end.

(** What the run changes: the task store, the client, and the closure
    variable [currentCompletedCount]. *)
Record Run := mkRun {
  store : DataManager.Store;
  client : Translation.Client;
  currentCompletedCount : nat
}.

(** What a run is given besides the entries: the id [createNewTask]
    generates, how the three writes to [localforage] end, and the clock
    read by [addHistoryEntry]. *)
Record World := mkWorld {
  freshTaskId : string;
  write_create : DataManager.Write;
  write_complete : DataManager.Write;
  write_history : DataManager.Write;
  clock : nat
}.

Variable decode : string -> Completion Val.
Variable net : nat -> Translation.Step.

(** [updateEntry] of [useSingleSubtitle], as far as the store goes: it
    updates the task the file was imported as. *)
Definition applyUpdates (fileTaskId : string) (updates : list DataManager.EntryUpdate)
    (s : DataManager.Store) : DataManager.Store :=
  fold_left
    (fun s u =>
       DataManager.updateTaskSubtitleEntryInMemory fileTaskId
         (DataManager.upd_id u) (DataManager.upd_text u) (DataManager.upd_translatedText u) s)
    updates s.

(** The body run for one batch, with its [try]/[catch]: a failed batch is
    reported and leaves the store as it is.  [None]: the data left the
    typed model. *)
Definition runBatch (cfg : TranslationConfig) (entryCount : nat)
    (currentTaskId fileTaskId : string) (batch : Batch) (r : Run) : option Run :=
  match Translation.translateBatch decode net cfg (textsToTranslate batch)
          (contextBeforeTexts batch) (contextAfterTexts batch) (termsText batch)
          Translation.defaultMaxRetries (client r) with
  | (Throw _, c) => Some (mkRun (store r) c (currentCompletedCount r))
  | (Return (translations, _), c) =>
      match bind (Object_entries translations)
                 (fun results => collectUpdates results (untranslatedEntries batch) []) with
      | Throw _ => Some (mkRun (store r) c (currentCompletedCount r))
      | Return None => None
      | Return (Some batchUpdates) =>
          let count := currentCompletedCount r + length batchUpdates in
          match batchUpdates with
          | [] => Some (mkRun (store r) c count)
          | _ =>
              let s := DataManager.batchUpdateTaskSubtitleEntries currentTaskId batchUpdates (store r) in
              let s := applyUpdates fileTaskId batchUpdates s in
              let s := Translation.updateProgress count entryCount Translation.PhaseDirect
                         currentTaskId "" None s in
              Some (mkRun s c count)
          end
      end
  end.

Fixpoint runBatches (cfg : TranslationConfig) (entryCount : nat)
    (currentTaskId fileTaskId : string) (batches : list Batch) (r : Run) : option Run :=
  match batches with
  | [] => Some r
  | batch :: rest =>
      r' ← runBatch cfg entryCount currentTaskId fileTaskId batch r;
      runBatches cfg entryCount currentTaskId fileTaskId rest r'
  end.

(** The groups of [threadCount] batches the dispatch loop forms.  With
    [threadCount = 0] and a batch to send the loop never advances, which
    [None] stands for. *)
Fixpoint chunks {A} (fuel size : nat) (l : list A) : list (list A) :=
  match fuel, l with
  | S fuel', _ :: _ => take size l :: chunks fuel' size (drop size l)
  | _, _ => []
  end.

Definition batchGroups (threadCount : nat) (batches : list Batch) : option (list (list Batch)) :=
  match threadCount, batches with
  | 0, _ :: _ => None
  | _, _ => Some (chunks (length batches) threadCount batches)
  end.

(** The snapshot [addHistoryEntry] receives. *)
Definition historyInput (currentTaskId filename : string) (tokensUsed : nat)
    (currentTask : SingleTask) : HistoryInput :=
  let p := translation_progress currentTask in
  let finalTokens := if tokens p =? 0 then tokensUsed else tokens p in
  mkHistoryInput currentTaskId filename
    (countTranslated (subtitle_entries currentTask)) finalTokens
    (mkCurrent (taskId currentTask) (subtitle_entries currentTask)
               (subtitle_filename currentTask) p).

(** After the last group: the final progress report, [completeTranslation]
    with its timer, and the history entry.  [entries] is the array the
    callback closed over when it was created; the state updates made during
    the run build new arrays, so it is still the array the run started
    with. *)
Definition finish (w : World) (entries : list SubtitleEntry) (filename : string)
    (tokensUsed : nat) (currentTaskId : string) (r : Run) : Run :=
  let finalCompleted := countTranslated entries in
  let s := Translation.updateProgress finalCompleted (length entries)
             Translation.PhaseCompleted currentTaskId "" None (store r) in
  let s :=
    match DataManager.getTaskById currentTaskId s with
    | Some task =>
        Translation.completeTranslationTimer currentTaskId
          (tokens (translation_progress task)) (write_complete w)
          (Translation.completeTranslation currentTaskId s)
    | None => s
    end in
  let s :=
    match DataManager.getTaskById currentTaskId s with
    | Some currentTask =>
        if 0 <? countTranslated (subtitle_entries currentTask)
        then snd (DataManager.addHistoryEntry
                    (historyInput currentTaskId filename tokensUsed currentTask)
                    (clock w) (write_history w) s)
        else s
    | None => s
    end in
  mkRun s (client r) (currentCompletedCount r).

(** How a call of [onStartTranslation] ends. *)
Inductive Outcome :=
| NoEntries                          (* "upload a file first" *)
| NotConfigured                      (* "configure the API first" *)
| InitializationFailed (e : JsError) (s : DataManager.Store) (* [createNewTask] rejected *)
| Finished (r : Run)
| OutsideModel.                      (* no termination, or ill-typed data *)

(** [onStartTranslation].  The batches of a group run concurrently in the
    source; here each batch runs to its end before the next one starts,
    which is the only schedule there is for [threadCount = 1]. *)
Definition onStartTranslation (w : World) (cfg : TranslationConfig)
    (entries : list SubtitleEntry) (filename fileTaskId : string) (tokensUsed : nat)
    (s : DataManager.Store) (c : Translation.Client) : Outcome :=
  match entries with
  | [] => NoEntries
  | _ =>
      if is_empty (apiKey cfg) then NotConfigured
      else
        match DataManager.createNewTask filename entries 0 (freshTaskId w) (write_create w) s with
        | (Throw e, s) => InitializationFailed e s
        | (Return currentTaskId, s) =>
            let count := countTranslated entries in
            let s := Translation.updateProgress count (length entries) Translation.PhaseDirect
                       currentTaskId "" None s in
            let batches := allBatches entries cfg in
            match batchGroups (threadCount cfg) batches with
            | None => OutsideModel
            | Some groups =>
                match runBatches cfg (length entries) currentTaskId fileTaskId
                        (concat groups) (mkRun s c count) with
                | None => OutsideModel
                | Some r => Finished (finish w entries filename tokensUsed currentTaskId r)
                end
            end
        end
  end.

End WithTerms.

End Controls.

(* ================================================================== *)
(** ** The per-file run ([SubtitleFileList.handleStartTranslation]) *)
(* ================================================================== *)

Module FileList.
Import JS.

Section WithWorld.
Context {U : Terms.Unicode}.
Variable terms : list Term.
Variable decode : string -> Completion Val.
Variable net : nat -> Translation.Step.

(** [config.contextBefore || 2] entries before the batch. *)
Definition getPreviousEntries (cfg : TranslationConfig) (entries : list SubtitleEntry)
    (currentIndex : nat) : string :=
  let contextBefore := if contextBefore cfg =? 0 then 2 else contextBefore cfg in
  join nl (map text (Controls.slice (currentIndex - contextBefore) currentIndex entries)).

Definition getNextEntries (cfg : TranslationConfig) (entries : list SubtitleEntry)
    (currentIndex : nat) : string :=
  let contextAfter := if contextAfter cfg =? 0 then 2 else contextAfter cfg in
  let endIndex := Nat.min (length entries) (currentIndex + contextAfter) in
  join nl (map text (Controls.slice currentIndex endIndex entries)).

(** The loop over the entries of one batch:
    [result.translations[`${j + 1}`]?.direct || ''], stored when truthy.
    [Return None]: a [direct] that is truthy but not a string. *)
Fixpoint storeBatch (fileTaskId : string) (translations : Val) (j : nat)
    (batch : list SubtitleEntry) (s : DataManager.Store)
    : Completion (option DataManager.Store) :=
  match batch with
  | [] => Return (Some s)
  | entry :: rest =>
      bind (get translations (decimal (j + 1))) (fun item =>
      match or_else (get_opt item "direct") (VStr "") with
      | VStr t =>
          let s := if is_empty t then s
                   else DataManager.updateTaskSubtitleEntryInMemory fileTaskId
                          (id entry) (text entry) (Some t) s in
          storeBatch fileTaskId translations (S j) rest s
      | _ => Return None
      end)
  end.

(** The batches starting at [i = k * batchSize] for the [k] listed.  A
    batch that throws ends the run: the error reaches the handler's
    [catch]. *)
Fixpoint runFrom (cfg : TranslationConfig) (batchSize : nat) (termsString : string)
    (entries : list SubtitleEntry) (fileTaskId : string) (ks : list nat)
    (s : DataManager.Store) (c : Translation.Client)
    : Completion (option DataManager.Store) * Translation.Client :=
  match ks with
  | [] => (Return (Some s), c)
  | k :: ks' =>
      let i := k * batchSize in
      let batch := Controls.slice i (i + batchSize) entries in
      match Translation.translateBatch decode net cfg (map text batch)
              (getPreviousEntries cfg entries i)
              (getNextEntries cfg entries (i + length batch))
              termsString Translation.defaultMaxRetries c with
      | (Throw e, c) => (Throw e, c)
      | (Return (translations, tokensUsed), c) =>
          match storeBatch fileTaskId translations 0 batch s with
          | Throw e => (Throw e, c)
          | Return None => (Return None, c)
          | Return (Some s) =>
              let currentTokens :=
                match DataManager.getTaskById fileTaskId s with
                | Some task => tokens (translation_progress task)
                | None => 0
                end in
              let newTokens := currentTokens + tokensUsed in
              let completed := Nat.min (i + length batch) (length entries) in
              let s := Translation.updateProgress completed (length entries)
                         Translation.PhaseDirect fileTaskId "" (Some newTokens) s in
              runFrom cfg batchSize termsString entries fileTaskId ks' s c
          end
      end
  end.

(** [handleStartTranslation(file)] up to [completeTranslation]; the batch
    size is [config.batchSize || 10]. *)
Definition handleStartTranslation (cfg : TranslationConfig) (entries : list SubtitleEntry)
    (filename fileTaskId : string) (s : DataManager.Store) (c : Translation.Client)
    : Completion (option DataManager.Store) * Translation.Client :=
  let relevantTerms := Terms.getRelevantTerms terms filename "" "" in
  let termsString :=
    join nl (map (fun term => original term +:+ " -> " +:+ translation term) relevantTerms) in
  let batchSize := if batchSize cfg =? 0 then 10 else batchSize cfg in
  match runFrom cfg batchSize termsString entries fileTaskId
          (seq 0 (Controls.ceil_div (length entries) batchSize)) s c with
  | (Return (Some s), c) => (Return (Some (Translation.completeTranslation fileTaskId s)), c)
  | other => other
  end.

End WithWorld.

End FileList.

(* ================================================================== *)
(** ** Vocabulary of the statements *)
(* ================================================================== *)

Module Spec.
Import DataManager.

(** The progress counter agrees with the entries. *)
Definition consistent (t : SingleTask) : Prop :=
  completed (translation_progress t) = countTranslated (subtitle_entries t).

(** The operations of the data manager that change one task. *)
Inductive TaskOp :=
| UpdateEntryInMemory (entryId : nat) (newText : string) (newTranslated : option string)
| UpdateEntry (entryId : nat) (newText : string) (newTranslated : option string) (w : Write)
| BatchUpdate (updates : list EntryUpdate)
| Complete (finalTokens : nat) (w : Write)
| ProgressInMemory (updates : ProgressUpdate)
| ProgressPersisted (updates : ProgressUpdate) (w : Write).

Definition applyTaskOp (tid : string) (op : TaskOp) (s : Store) : Store :=
  match op with
  | UpdateEntryInMemory entryId newText newTranslated =>
      updateTaskSubtitleEntryInMemory tid entryId newText newTranslated s
  | UpdateEntry entryId newText newTranslated w =>
      snd (updateTaskSubtitleEntry tid entryId newText newTranslated w s)
  | BatchUpdate updates => batchUpdateTaskSubtitleEntries tid updates s
  | Complete finalTokens w => snd (completeTask tid finalTokens w s)
  | ProgressInMemory updates => updateTaskTranslationProgressInMemory tid updates s
  | ProgressPersisted updates w => snd (updateTaskTranslationProgress tid updates w s)
  end.

(** The operations that count [completed] again from the entries. *)
Definition recounts (op : TaskOp) : bool :=
  match op with
  | ProgressInMemory _ | ProgressPersisted _ _ => false
  | _ => true
  end.

(** The [completed] field a progress update carries. *)
Definition carriedCompleted (op : TaskOp) : option nat :=
  match op with
  | ProgressInMemory u | ProgressPersisted u _ => u_completed u
  | _ => None
  end.

(** The operations on the translation history. *)
Inductive HistoryOp :=
| AddEntry (entry : HistoryInput) (now : nat) (w : Write)
| DeleteEntry (tid : string) (w : Write)
| ClearAll (w : Write).

Definition applyHistoryOp (s : Store) (op : HistoryOp) : Store :=
  match op with
  | AddEntry entry now w => snd (addHistoryEntry entry now w s)
  | DeleteEntry tid w => snd (deleteHistoryEntry tid w s)
  | ClearAll w => snd (clearHistory w s)
  end.

Definition runHistory (ops : list HistoryOp) (s : Store) : Store :=
  fold_left applyHistoryOp ops s.

Definition historyKeys (s : Store) : list string :=
  hist_taskId <$> translation_history s.

(** The template [generateDirectPrompt] is expected to build for the lines
    [ls]: key [k] (counted from 1) holds the [k]-th line and an empty
    [direct]. *)
Definition numbered (ls : list string) : list (string * Val) :=
  imap (fun i line => (JS.decimal (S i), Prompts.directItem line)) ls.

(** A source line: a text without a line feed. *)
Definition single_line (s : string) : Prop :=
  Forall (fun a => a ≠ JS.LF) (list_ascii_of_string s).

(** *** The direct pass seen from the outside world *)

(** The error a step makes the request code fail with once [fetch] has been
    called: a rejected [fetch] (network error, abort), a response that is
    not ok, a body that cannot be read, a content that cannot be decoded.
    [None]: the step yields a result. *)
Definition failureOf (decode : string -> Completion Val) (step : Translation.Step)
    : option JsError :=
  match Translation.answer step with
  | Translation.Rejects e => Some e
  | Translation.RespondsError _ (Translation.ReadFails e) => Some e
  | Translation.RespondsError http_status (Translation.ReadOk errorData) =>
      Some (Translation.httpError http_status errorData)
  | Translation.RespondsOk (Translation.ReadFails e) => Some e
  | Translation.RespondsOk (Translation.ReadOk data) =>
      match decode (default "" (Translation.message_content data)) with
      | Throw e => Some e
      | Return _ => None
      end
  end.

Definition tokensOf (step : Translation.Step) : nat :=
  match Translation.answer step with
  | Translation.RespondsOk (Translation.ReadOk data) =>
      default 0 (Translation.usage_total_tokens data)
  | _ => 0
  end.

(** Step [n] of the world is a failure that the [catch] block does not
    take for a cancellation: the signal is not set, and the request fails
    with an error whose name is not [AbortError] and whose message does
    not contain the word the cancellation error carries. *)
Definition failsTransiently (decode : string -> Completion Val)
    (net : nat -> Translation.Step) (n : nat) : Prop :=
  Translation.abortedAtStart (net n) = false
  ∧ Translation.abortedAfterWait (net n) = false
  ∧ ∃ e, failureOf decode (net n) = Some e ∧ Translation.isCancellation e = false.

Definition fetches (evs : list Translation.Event) : nat :=
  length (List.filter Translation.is_fetch evs).

(** The keys the next [n] calls of [getNextApiKey] return. *)
Fixpoint keysUsed (apiKeyStr : string) (n currentIndex : nat) : list (option string) :=
  match n with
  | 0 => []
  | S n' =>
      match Translation.getNextApiKey apiKeyStr currentIndex with
      | (Return key, nextIndex) => key :: keysUsed apiKeyStr n' nextIndex
      | (Throw _, _) => []
      end
  end.

(** The configuration with the reflection pass switched on or off. *)
Definition withReflection (b : bool) (cfg : TranslationConfig) : TranslationConfig :=
  mkConfig (apiKey cfg) (baseURL cfg) (model cfg) (sourceLanguage cfg) (targetLanguage cfg)
           (contextBefore cfg) (contextAfter cfg) (batchSize cfg) (threadCount cfg)
           (rpm cfg) b.


(** The client after a request that reached [fetch]. *)
Definition requested (cfg : TranslationConfig) (prompt : string)
    (c : Translation.Client) : Translation.Client :=
  Translation.emit
    (Translation.Fetch (Translation.validKeys (apiKey cfg) !! Translation.apiKeyIndex c) prompt)
    (Translation.with_index (Translation.emit Translation.Acquire c)
       ((Translation.apiKeyIndex c + 1) mod length (Translation.validKeys (apiKey cfg)))).

End Spec.

(* ================================================================== *)
(** ** Sample data *)
(* ================================================================== *)

Module Samples.
Import DataManager Spec.

Definition sample_entry (n : nat) (t : option string) : SubtitleEntry :=
  mkEntry n "00:00:01,000" "00:00:02,000" "Hello" t.

Definition sample_store : Store :=
  mkStore [mkTask "task_a" [sample_entry 1 None] "a.srt" (mkProgress 0 1 0 Idle None) 0]
          [] [] None None None.

Definition sample_snapshot : CurrentTranslationTask :=
  mkCurrent "task_a" [sample_entry 1 (Some "Bonjour")] "a.srt" (mkProgress 1 1 9 Completed None).

Definition sample_history : Store :=
  runHistory
    [AddEntry (mkHistoryInput "task_a" "a.srt" 1 9 sample_snapshot) 100 Stored;
     AddEntry (mkHistoryInput "task_b" "b.srt" 1 5 sample_snapshot) 200 Stored]
    empty.


(** A configuration with the defaults of [initialConfig] and a given key
    string, batch size and thread count. *)
Definition sample_config (key : string) (size threads : nat) (reflection : bool)
    : TranslationConfig :=
  mkConfig key "https://api.openai.com/v1" "gpt-3.5-turbo" "English" "简体中文"
           2 2 size threads 0 reflection.

Definition fresh_client : Translation.Client := Translation.mkClient 0 0 [].

(** A decoder that rejects every content. *)
Definition no_json (content : string) : Completion Val :=
  Throw (JS.mkError "SyntaxError" "Unexpected end of JSON input").

(** A world in which every request is answered 400 with the given message. *)
Definition always_400 (msg : string) (n : nat) : Translation.Step :=
  Translation.mkStep false false
    (Translation.RespondsError 400 (Translation.ReadOk (Translation.mkErrorBody (Some msg)))).


(** A decoder that knows one content. *)
Definition decode_only (content : string) (v : Val) (s : string) : Completion Val :=
  if String.eqb s content then Return v else no_json s.


(** *** The two-entry scenario *)

Definition timed_entry (n : nat) (source : string) (t : option string) : SubtitleEntry :=
  mkEntry n "00:00:01,000" "00:00:02,000" source t.

Definition scenario_entries : list SubtitleEntry :=
  [timed_entry 1 "Hello" None; timed_entry 2 "World" None].

Definition quoted (s : string) : string := JS.dq +:+ s +:+ JS.dq.

(** The content of the mocked answer, as JSON text. *)
Definition scenario_content : string :=
  "{" +:+ quoted "1" +:+ ":{" +:+ quoted "origin" +:+ ":" +:+ quoted "Hello" +:+ ","
      +:+ quoted "direct" +:+ ":" +:+ quoted "你好" +:+ "},"
      +:+ quoted "2" +:+ ":{" +:+ quoted "origin" +:+ ":" +:+ quoted "World" +:+ ","
      +:+ quoted "direct" +:+ ":" +:+ quoted "世界" +:+ "}}".

(** What [JSON.parse] makes of it. *)
Definition scenario_result : Val :=
  JS.VObj [("1", JS.VObj [("origin", JS.VStr "Hello"); ("direct", JS.VStr "你好")]);
           ("2", JS.VObj [("origin", JS.VStr "World"); ("direct", JS.VStr "世界")])].

(** Every call is answered 200 with that content and 42 tokens. *)
Definition scenario_net (n : nat) : Translation.Step :=
  Translation.mkStep false false
    (Translation.RespondsOk
       (Translation.ReadOk (Translation.mkCompletion (Some 42) (Some scenario_content)))).

Definition scenario_world : Controls.World :=
  Controls.mkWorld "task_run" Stored Stored Stored 1000.

(** The store after the file was imported as task [task_import]. *)
Definition scenario_store : Store :=
  (createNewTask "a.srt" scenario_entries 0 "task_import" Stored empty).2.

(** One run of [onStartTranslation] with batchSize 2, threadCount 1 and
    reflection off. *)
Definition scenario_outcome : Controls.Outcome :=
  @Controls.onStartTranslation Terms.ascii_unicode []
    (decode_only scenario_content scenario_result) scenario_net
    scenario_world (sample_config "sk-test" 2 1 false)
    scenario_entries "a.srt" "task_import" 0 scenario_store fresh_client.

Definition scenario_final_store : option Store :=
  match scenario_outcome with
  | Controls.Finished r => Some (Controls.store r)
  | _ => None
  end.

(** The same scenario through the per-file run of the file list. *)
Definition scenario_file_list : option Store :=
  match @FileList.handleStartTranslation Terms.ascii_unicode []
          (decode_only scenario_content scenario_result) scenario_net
          (sample_config "sk-test" 2 1 false)
          scenario_entries "a.srt" "task_import" scenario_store fresh_client with
  | (Return (Some s), _) => Some s
  | _ => None
  end.

(** Four entries of which the first two are translated. *)
Definition resumed_entries : list SubtitleEntry :=
  [timed_entry 1 "One" (Some "Un"); timed_entry 2 "Two" (Some "Deux");
   timed_entry 3 "Three" None; timed_entry 4 "Four" None].

(** The error [fetch] is rejected with when the signal aborts it. *)
Definition abortError : JsError := JS.mkError "AbortError" "The user aborted a request.".

(** A world in which the signal is already set. *)
Definition signal_set (n : nat) : Translation.Step :=
  Translation.mkStep true true (Translation.Rejects abortError).

(** A world in which every request is aborted while in flight. *)
Definition aborted_in_flight (n : nat) : Translation.Step :=
  Translation.mkStep false false (Translation.Rejects abortError).

(** The batches planned for the two-entry scenario. *)
Definition scenario_batches : list Controls.Batch :=
  @Controls.allBatches Terms.ascii_unicode [] scenario_entries
    (sample_config "sk-test" 2 1 false).

End Samples.

(* ================================================================== *)
(** ** The terms list of the data manager *)
(* ================================================================== *)

Module TermsList.
Import JS DataManager.

Definition with_terms (s : Store) (terms : list Term) : Store :=
  mkStore (batch_tasks s) terms (translation_history s)
          (disk_batch_tasks s) (disk_terms s) (disk_history s).

(** [localforage.setItem(KEYS.TERMS, terms)] ([Some terms]) or
    [localforage.removeItem(KEYS.TERMS)] ([None]) inside the method's
    [try]: a rejection is logged and rethrown. *)
Definition persist_terms (w : Write) (item : option (list Term)) (s : Store)
    : Completion unit * Store :=
  match w with
  | Stored =>
      (Return (),
       mkStore (batch_tasks s) (terms_list s) (translation_history s)
               (disk_batch_tasks s) item (disk_history s))
  | Rejected e => (Throw e, s)
  end.

Definition getTerms (s : Store) : list Term := terms_list s.

Definition saveTerms (terms : list Term) (w : Write) (s : Store) : Completion unit * Store :=
  persist_terms w (Some terms) (with_terms s terms).

(** [l.filter((_, i) => keep(i))], with [i] the index of the first element
    of [l]. *)
Fixpoint filter_index {A} (keep : nat -> bool) (i : nat) (l : list A) : list A :=
  match l with
  | [] => []
  | x :: rest =>
      if keep i then x :: filter_index keep (S i) rest
      else filter_index keep (S i) rest
  end.

(** [const a = [...l]; a[index] = x] for an index that is a natural number.
    An index past the end would leave holes in the array, which a list of
    terms cannot hold: [None]. *)
Definition assign {A} (index : nat) (x : A) (l : list A) : option (list A) :=
  if index <? length l then Some (<[index := x]> l)
  else if index =? length l then Some (l ++ [x])
  else None.

Definition addTerm (term : Term) (w : Write) (s : Store) : Completion unit * Store :=
  let updatedTerms := terms_list s ++ [term] in
  persist_terms w (Some updatedTerms) (with_terms s updatedTerms).

Definition removeTerm (index : nat) (w : Write) (s : Store) : Completion unit * Store :=
  let updatedTerms := filter_index (fun i => negb (i =? index)) 0 (terms_list s) in
  persist_terms w (Some updatedTerms) (with_terms s updatedTerms).

Definition updateTerm (index : nat) (original translation : string) (w : Write) (s : Store)
    : option (Completion unit * Store) :=
  let updatedTerm := mkTerm original translation in
  updatedTerms ← assign index updatedTerm (terms_list s);
  Some (persist_terms w (Some updatedTerms) (with_terms s updatedTerms)).

Definition clearTerms (w : Write) (s : Store) : Completion unit * Store :=
  persist_terms w None (with_terms s []).

End TermsList.

(* ================================================================== *)
(** ** The terms provider ([TermsContext]) *)
(* ================================================================== *)

Module TermsView.
Import JS.

Definition COLON : ascii := ascii_of_nat 58.

Record TermsState := mkTermsState {
  terms : list Term;
  isLoading : bool;
  error : option string          (* [None] is [null] *)
}.

Inductive TermsAction :=
| SET_LOADING (payload : bool)
| SET_ERROR (payload : option string)
| SET_TERMS (payload : list Term)
| ADD_TERM (payload : Term)
| REMOVE_TERM (payload : nat)
| UPDATE_TERM (index : nat) (term : Term)
| CLEAR_TERMS.

Definition initialState : TermsState := mkTermsState [] false None.

Definition termsReducer (state : TermsState) (action : TermsAction) : TermsState :=
  match action with
  | SET_LOADING payload => mkTermsState (terms state) payload (error state)
  | SET_ERROR payload => mkTermsState (terms state) (isLoading state) payload
  | SET_TERMS payload => mkTermsState payload (isLoading state) (error state)
  | ADD_TERM payload => mkTermsState (terms state ++ [payload]) (isLoading state) (error state)
  | REMOVE_TERM payload =>
      mkTermsState (TermsList.filter_index (fun index => negb (index =? payload)) 0 (terms state))
                   (isLoading state) (error state)
  | UPDATE_TERM index term =>
      mkTermsState (imap (fun i t => if i =? index then term else t) (terms state))
                   (isLoading state) (error state)
  | CLEAR_TERMS => mkTermsState [] (isLoading state) (error state)
  end.

(** The provider's callbacks: the dispatch, then the data manager; a
    rejected write reaches the caller.  They return how the call ended, the
    provider's state and the store. *)
Definition addTerm (original translation : string) (w : DataManager.Write)
    (state : TermsState) (s : DataManager.Store)
    : Completion unit * TermsState * DataManager.Store :=
  let newTerm := mkTerm original translation in
  let state := termsReducer state (ADD_TERM newTerm) in
  let '(r, s) := TermsList.addTerm newTerm w s in
  (r, state, s).

Definition removeTerm (index : nat) (w : DataManager.Write)
    (state : TermsState) (s : DataManager.Store)
    : Completion unit * TermsState * DataManager.Store :=
  let state := termsReducer state (REMOVE_TERM index) in
  let '(r, s) := TermsList.removeTerm index w s in
  (r, state, s).

(** [None]: the index is past the end by more than one, where the data
    manager's list would get holes. *)
Definition updateTerm (index : nat) (original translation : string)
    (w : DataManager.Write) (state : TermsState) (s : DataManager.Store)
    : option (Completion unit * TermsState * DataManager.Store) :=
  let updatedTerm := mkTerm original translation in
  let state := termsReducer state (UPDATE_TERM index updatedTerm) in
  '(r, s) ← TermsList.updateTerm index original translation w s;
  Some (r, state, s).

Definition clearTerms (w : DataManager.Write)
    (state : TermsState) (s : DataManager.Store)
    : Completion unit * TermsState * DataManager.Store :=
  let state := termsReducer state CLEAR_TERMS in
  let '(r, s) := TermsList.clearTerms w s in
  (r, state, s).

(** The lines of [importTerms] that build [newTerms]: the lines that are
    not blank, split at the colons; a line with fewer than two parts is
    skipped, parts after the second are dropped. *)
Definition parseTerms (termsText : string) : list Term :=
  let lines := List.filter (fun line => negb (is_empty (trim line))) (split LF termsText) in
  omap (fun line =>
          match map trim (split COLON line) with
          | part0 :: part1 :: _ => Some (mkTerm part0 part1)
          | _ => None
          end) lines.

(** [importTerms]: a rejected write is caught and becomes the state's
    [error]. *)
Definition importTerms (termsText : string) (w : DataManager.Write)
    (state : TermsState) (s : DataManager.Store) : TermsState * DataManager.Store :=
  let newTerms := parseTerms termsText in
  let state := termsReducer state (SET_TERMS newTerms) in
  match TermsList.saveTerms newTerms w s with
  | (Return _, s) => (state, s)
  | (Throw e, s) => (termsReducer state (SET_ERROR (Some (err_message e))), s)
  end.

Definition exportTerms (state : TermsState) : string :=
  join nl (map (fun term => original term +:+ ": " +:+ translation term) (terms state)).

End TermsView.

(* ================================================================== *)
(** ** The history view ([HistoryContext]) *)
(* ================================================================== *)

Module HistoryView.
Import JS.

Record HistoryState := mkHistoryState {
  history : list TranslationHistoryEntry;
  isLoading : bool;
  error : option string
}.

Inductive HistoryAction :=
| SET_LOADING (payload : bool)
| SET_ERROR (payload : option string)
| SET_HISTORY (payload : list TranslationHistoryEntry)
| ADD_HISTORY_ENTRY (payload : TranslationHistoryEntry)
| DELETE_HISTORY_ENTRY (payload : string)
| CLEAR_HISTORY.

Definition initialState : HistoryState := mkHistoryState [] false None.

Definition historyReducer (state : HistoryState) (action : HistoryAction) : HistoryState :=
  match action with
  | SET_LOADING payload => mkHistoryState (history state) payload (error state)
  | SET_ERROR payload => mkHistoryState (history state) (isLoading state) payload
  | SET_HISTORY payload => mkHistoryState payload (isLoading state) (error state)
  | ADD_HISTORY_ENTRY payload =>
      mkHistoryState (payload :: history state) (isLoading state) (error state)
  | DELETE_HISTORY_ENTRY payload =>
      mkHistoryState (filter (λ entry, hist_taskId entry ≠ payload) (history state))
                     (isLoading state) (error state)
  | CLEAR_HISTORY => mkHistoryState [] (isLoading state) (error state)
  end.

(** [addHistoryEntry]: the view is set from the data manager after the
    write; a rejected write is caught and becomes the state's [error]. *)
Definition addHistoryEntry (entry : HistoryInput) (now : nat) (w : DataManager.Write)
    (state : HistoryState) (s : DataManager.Store) : HistoryState * DataManager.Store :=
  match DataManager.addHistoryEntry entry now w s with
  | (Return _, s) =>
      (historyReducer state (SET_HISTORY (DataManager.translation_history s)), s)
  | (Throw _, s) => (historyReducer state (SET_ERROR (Some "保存历史记录失败")), s)
  end.

Definition deleteHistoryEntry (taskId : string) (w : DataManager.Write)
    (state : HistoryState) (s : DataManager.Store)
    : Completion unit * HistoryState * DataManager.Store :=
  let state := historyReducer state (DELETE_HISTORY_ENTRY taskId) in
  let '(r, s) := DataManager.deleteHistoryEntry taskId w s in
  (r, state, s).

Definition clearHistory (w : DataManager.Write)
    (state : HistoryState) (s : DataManager.Store)
    : Completion unit * HistoryState * DataManager.Store :=
  let state := historyReducer state CLEAR_HISTORY in
  let '(r, s) := DataManager.clearHistory w s in
  (r, state, s).

(** [state.history.find(entry => entry.taskId === taskId) || null]. *)
Definition loadHistoryEntry (taskId : string) (state : HistoryState)
    : option TranslationHistoryEntry :=
  snd <$> list_find (λ entry, hist_taskId entry = taskId) (history state).

(** [{ total, totalTokens }]. *)
Definition getHistoryStats (state : HistoryState) : nat * nat :=
  (length (history state),
   fold_left (fun sum entry => sum + totalTokens entry) (history state) 0).

(** [refreshHistory], and the effect run when the provider mounts. *)
Definition refreshHistory (state : HistoryState) (s : DataManager.Store) : HistoryState :=
  let state := historyReducer state (SET_LOADING true) in
  let state := historyReducer state (SET_HISTORY (DataManager.translation_history s)) in
  historyReducer state (SET_LOADING false).

End HistoryView.

(* ================================================================== *)
(** ** The file list ([SubtitleContext]) *)
(* ================================================================== *)

Module Subtitles.
Import JS.

Record SubtitleFile := mkFile {
  file_id : string;
  name : string;
  file_size : nat;
  lastModified : nat;
  entries : list SubtitleEntry;
  filename : string;
  currentTaskId : string
}.

(** [Partial<SubtitleFile>]. *)
Record FileUpdates := mkFileUpdates {
  set_id : option string;
  set_name : option string;
  set_size : option nat;
  set_lastModified : option nat;
  set_entries : option (list SubtitleEntry);
  set_filename : option string;
  set_currentTaskId : option string
}.

Record SubtitleState := mkSubtitleState {
  files : list SubtitleFile;
  isLoading : bool;
  error : option string
}.

Inductive SubtitleAction :=
| SET_LOADING (payload : bool)
| SET_ERROR (payload : option string)
| ADD_FILE (payload : SubtitleFile)
| UPDATE_FILE (fileId : string) (updates : FileUpdates)
| UPDATE_ENTRY (fileId : string) (entryId : nat) (newText : string)
               (newTranslated : option string)
| REMOVE_FILE (payload : string)
| CLEAR_ALL_DATA
| SET_FILES (payload : list SubtitleFile).

Definition initialState : SubtitleState := mkSubtitleState [] false None.

Definition generateStableFileId (taskId : string) : string := "file_" +:+ taskId.

(** [{ ...file, ...updates }]. *)
Definition mergeFile (file : SubtitleFile) (u : FileUpdates) : SubtitleFile :=
  mkFile (default (file_id file) (set_id u))
         (default (name file) (set_name u))
         (default (file_size file) (set_size u))
         (default (lastModified file) (set_lastModified u))
         (default (entries file) (set_entries u))
         (default (filename file) (set_filename u))
         (default (currentTaskId file) (set_currentTaskId u)).

Definition withFileEntries (file : SubtitleFile) (es : list SubtitleEntry) : SubtitleFile :=
  mkFile (file_id file) (name file) (file_size file) (lastModified file) es
         (filename file) (currentTaskId file).

Definition subtitleReducer (state : SubtitleState) (action : SubtitleAction) : SubtitleState :=
  match action with
  | SET_LOADING payload => mkSubtitleState (files state) payload (error state)
  | SET_ERROR payload => mkSubtitleState (files state) (isLoading state) payload
  | ADD_FILE payload => mkSubtitleState (files state ++ [payload]) (isLoading state) (error state)
  | SET_FILES payload => mkSubtitleState payload (isLoading state) (error state)
  | UPDATE_FILE fileId updates =>
      mkSubtitleState
        (map (fun file => if String.eqb (file_id file) fileId
                          then mergeFile file updates else file) (files state))
        (isLoading state) (error state)
  | UPDATE_ENTRY fileId entryId newText newTranslated =>
      mkSubtitleState
        (map (fun file =>
                if String.eqb (file_id file) fileId
                then withFileEntries file
                       (map (fun entry =>
                               if id entry =? entryId
                               then mkEntry (id entry) (startTime entry) (endTime entry) newText
                                      (match newTranslated with
                                       | Some t => Some t
                                       | None => translatedText entry
                                       end)
                               else entry) (entries file))
                else file) (files state))
        (isLoading state) (error state)
  | REMOVE_FILE payload =>
      mkSubtitleState (filter (λ file, file_id file ≠ payload) (files state))
                      (isLoading state) (error state)
  | CLEAR_ALL_DATA => initialState
  end.

(** [state.files.find(f => f.id === fileId)]. *)
Definition getFile (fileId : string) (state : SubtitleState) : option SubtitleFile :=
  snd <$> list_find (λ f, file_id f = fileId) (files state).

(** [loadFromFile].  [parsed] is how [parseSRT(await file.text())] ends
    ([utils/srtParser] is outside the sources); [fileName] and
    [fileLastModified] are the fields of the [File]. *)
Definition loadFromFile (fileName : string) (fileLastModified : nat)
    (parsed : Completion (list SubtitleEntry)) (freshId : string) (w : DataManager.Write)
    (state : SubtitleState) (s : DataManager.Store) : SubtitleState * DataManager.Store :=
  let index := length (files state) in
  let state := subtitleReducer state (SET_LOADING true) in
  let state := subtitleReducer state (SET_ERROR None) in
  let '(state, s) :=
    match parsed with
    | Throw e => (subtitleReducer state (SET_ERROR (Some (err_message e))), s)
    | Return parsedEntries =>
        match DataManager.createNewTask fileName parsedEntries index freshId w s with
        | (Throw e, s) => (subtitleReducer state (SET_ERROR (Some (err_message e))), s)
        | (Return taskId, s) =>
            let fileId := generateStableFileId taskId in
            let newFile := mkFile fileId fileName 0 fileLastModified parsedEntries
                                  fileName taskId in
            (subtitleReducer state (ADD_FILE newFile), s)
        end
    end in
  (subtitleReducer state (SET_LOADING false), s).

(** [updateEntry]: the dispatch, then the task of the file in memory. *)
Definition updateEntry (fileId : string) (entryId : nat) (newText : string)
    (newTranslated : option string) (state : SubtitleState) (s : DataManager.Store)
    : SubtitleState * DataManager.Store :=
  let state' := subtitleReducer state (UPDATE_ENTRY fileId entryId newText newTranslated) in
  match getFile fileId state with
  | Some file =>
      (state',
       DataManager.updateTaskSubtitleEntryInMemory (currentTaskId file) entryId newText
         newTranslated s)
  | None => (state', s)
  end.

(** [clearFile]: a rejected write reaches the caller. *)
Definition clearFile (fileId : string) (w : DataManager.Write)
    (state : SubtitleState) (s : DataManager.Store)
    : Completion unit * SubtitleState * DataManager.Store :=
  let state' := subtitleReducer state (REMOVE_FILE fileId) in
  match getFile fileId state with
  | Some file =>
      let '(r, s) := DataManager.removeTask (currentTaskId file) w s in
      (r, state', s)
  | None => (Return (), state', s)
  end.

(** [removeFile]: nothing for an unknown file; a rejected write is caught
    and reported. *)
Definition removeFile (fileId : string) (w : DataManager.Write)
    (state : SubtitleState) (s : DataManager.Store) : SubtitleState * DataManager.Store :=
  match getFile fileId state with
  | None => (state, s)
  | Some file =>
      (subtitleReducer state (REMOVE_FILE fileId),
       snd (DataManager.removeTask (currentTaskId file) w s))
  end.

Definition clearAllData (w : DataManager.Write)
    (state : SubtitleState) (s : DataManager.Store)
    : Completion unit * SubtitleState * DataManager.Store :=
  let state := subtitleReducer state CLEAR_ALL_DATA in
  let '(r, s) := DataManager.clearBatchTasks w s in
  (r, state, s).

(** [generateNewTaskId], given the id [generateTaskId()] returns. *)
Definition generateNewTaskId (fileId newTaskId : string) (state : SubtitleState)
    : string * SubtitleState :=
  let newFileId := generateStableFileId newTaskId in
  (newTaskId,
   subtitleReducer state
     (UPDATE_FILE fileId
        (mkFileUpdates (Some newFileId) None None None None None (Some newTaskId)))).

(** [file?.currentTaskId || '']. *)
Definition getCurrentTaskId (fileId : string) (state : SubtitleState) : string :=
  match getFile fileId state with
  | Some file => currentTaskId file
  | None => ""
  end.

(** [entry.translatedText] as a condition: a string that is not empty. *)
Definition hasTranslation (entry : SubtitleEntry) : bool :=
  match translatedText entry with
  | Some t => negb (is_empty t)
  | None => false
  end.

(** [getTranslationProgress]: [{ completed, total }]. *)
Definition getTranslationProgress (fileId : string) (state : SubtitleState) : nat * nat :=
  match getFile fileId state with
  | None => (0, 0)
  | Some file => (length (List.filter hasTranslation (entries file)), length (entries file))
  end.

(** The effect run when the provider mounts: the files are rebuilt from
    the stored tasks when there are none yet; [now] is [Date.now()]. *)
Definition loadSavedData (now : nat) (state : SubtitleState) (s : DataManager.Store)
    : SubtitleState :=
  match files state, DataManager.batch_tasks s with
  | [], _ :: _ =>
      let filesToLoad :=
        map (fun task =>
               mkFile (generateStableFileId (taskId task)) (subtitle_filename task) 0 now
                      (subtitle_entries task) (subtitle_filename task) (taskId task))
            (DataManager.batch_tasks s) in
      subtitleReducer state (SET_FILES filesToLoad)
  | _, _ => state
  end.

End Subtitles.

(* ================================================================== *)
(** ** The translation provider's state ([translationReducer]) *)
(* ================================================================== *)

Module Provider.
Import JS.

(** [TranslationProgress] of the provider. *)
Record TranslationProgress := mkTranslationProgress {
  tp_current : nat;
  tp_total : nat;
  tp_phase : Translation.Phase;
  tp_status : string;
  tp_taskId : option string
}.

(** [Partial<TranslationConfig>]. *)
Record ConfigUpdate := mkConfigUpdate {
  set_apiKey : option string;
  set_baseURL : option string;
  set_model : option string;
  set_sourceLanguage : option string;
  set_targetLanguage : option string;
  set_contextBefore : option nat;
  set_contextAfter : option nat;
  set_batchSize : option nat;
  set_threadCount : option nat;
  set_rpm : option nat;
  set_enableReflection : option bool
}.

Record TranslationState := mkTranslationState {
  config : TranslationConfig;
  isTranslating : bool;
  progress : TranslationProgress;
  tokensUsed : nat;
  isConfigured : bool;
  abortController : option nat;     (* the controller, by a number; [None] is [null] *)
  currentTaskId : string
}.

Inductive TranslationAction :=
| SET_CONFIG (payload : ConfigUpdate)
| SET_TRANSLATING (payload : bool)
| SET_PROGRESS (payload : TranslationProgress)
| SET_TOKENS_USED (payload : nat)
| ADD_TOKENS_USED (payload : nat)
| SET_ABORT_CONTROLLER (payload : option nat)
| SET_TASK_ID (payload : string)
| RESET_PROGRESS.

Definition initialConfig : TranslationConfig :=
  mkConfig "" "https://api.openai.com/v1" "gpt-3.5-turbo" "English" "简体中文"
           2 2 10 4 0 false.

Definition initialProgress : TranslationProgress :=
  mkTranslationProgress 0 0 Translation.PhaseDirect "准备中..." None.

Definition initialState : TranslationState :=
  mkTranslationState initialConfig false initialProgress 0 false None "".

(** [{ ...state.config, ...action.payload }]. *)
Definition mergeConfig (cfg : TranslationConfig) (u : ConfigUpdate) : TranslationConfig :=
  mkConfig (default (apiKey cfg) (set_apiKey u))
           (default (baseURL cfg) (set_baseURL u))
           (default (model cfg) (set_model u))
           (default (sourceLanguage cfg) (set_sourceLanguage u))
           (default (targetLanguage cfg) (set_targetLanguage u))
           (default (contextBefore cfg) (set_contextBefore u))
           (default (contextAfter cfg) (set_contextAfter u))
           (default (batchSize cfg) (set_batchSize u))
           (default (threadCount cfg) (set_threadCount u))
           (default (rpm cfg) (set_rpm u))
           (default (enableReflection cfg) (set_enableReflection u)).

Definition translationReducer (state : TranslationState) (action : TranslationAction)
    : TranslationState :=
  match action with
  | SET_CONFIG payload =>
      let newConfig := mergeConfig (config state) payload in
      mkTranslationState newConfig (isTranslating state) (progress state) (tokensUsed state)
                         (0 <? String.length (apiKey newConfig))
                         (abortController state) (currentTaskId state)
  | SET_TRANSLATING payload =>
      mkTranslationState (config state) payload (progress state) (tokensUsed state)
                         (isConfigured state) (abortController state) (currentTaskId state)
  | SET_PROGRESS payload =>
      mkTranslationState (config state) (isTranslating state) payload (tokensUsed state)
                         (isConfigured state) (abortController state) (currentTaskId state)
  | SET_TOKENS_USED payload =>
      mkTranslationState (config state) (isTranslating state) (progress state) payload
                         (isConfigured state) (abortController state) (currentTaskId state)
  | ADD_TOKENS_USED payload =>
      mkTranslationState (config state) (isTranslating state) (progress state)
                         (tokensUsed state + payload)
                         (isConfigured state) (abortController state) (currentTaskId state)
  | SET_ABORT_CONTROLLER payload =>
      mkTranslationState (config state) (isTranslating state) (progress state)
                         (tokensUsed state) (isConfigured state) payload (currentTaskId state)
  | SET_TASK_ID payload =>
      mkTranslationState (config state) (isTranslating state) (progress state)
                         (tokensUsed state) (isConfigured state) (abortController state) payload
  | RESET_PROGRESS =>
      mkTranslationState (config state) (isTranslating state) initialProgress 0
                         (isConfigured state) None (currentTaskId state)
  end.

(** The state after a sequence of dispatches. *)
Definition dispatchAll (actions : list TranslationAction) (state : TranslationState)
    : TranslationState :=
  fold_left translationReducer actions state.

End Provider.

(* ================================================================== *)
(** ** Vocabulary of the further properties *)
(* ================================================================== *)

Module Props.

(** Two tasks that differ at most in the texts and translations of their
    entries and in their progress. *)
Definition same_shape (t t' : SingleTask) : Prop :=
  taskId t' = taskId t
  ∧ subtitle_filename t' = subtitle_filename t
  ∧ index t' = index t
  ∧ map id (subtitle_entries t') = map id (subtitle_entries t)
  ∧ map startTime (subtitle_entries t') = map startTime (subtitle_entries t)
  ∧ map endTime (subtitle_entries t') = map endTime (subtitle_entries t).

(** The operations that leave the [tokens] of a task alone. *)
Definition keepsTokens (op : Spec.TaskOp) : Prop :=
  match op with
  | Spec.Complete _ _ => False
  | Spec.ProgressInMemory u | Spec.ProgressPersisted u _ => u_tokens u = None
  | _ => True
  end.

(** The task a run works on is in the store, has recorded no tokens, and
    holds the entries with the given ids. *)
Definition run_task (tid : string) (ids : list nat) (s : DataManager.Store) : Prop :=
  ∃ t, DataManager.getTaskById tid s = Some t
       ∧ tokens (translation_progress t) = 0
       ∧ map id (subtitle_entries t) = ids.

(** A text in which the character [c] does not occur. *)
Definition lacks (c : ascii) (s : string) : Prop :=
  Forall (fun a => a ≠ c) (list_ascii_of_string s).

(** One side of a term as the terms dialog expects it: no colon, no line
    feed, no white space at either end. *)
Definition plain_part (s : string) : Prop :=
  lacks JS.LF s ∧ lacks TermsView.COLON s ∧ JS.trim s = s.

Definition plain_term (term : Term) : Prop :=
  plain_part (original term) ∧ plain_part (translation term).

(** The line [exportTerms] writes for a term. *)
Definition term_line (term : Term) : string :=
  original term +:+ ": " +:+ translation term.

(** Every file of the list carries the id derived from its task, and the
    store holds that task with the entries the file shows. *)
Definition in_step (state : Subtitles.SubtitleState) (s : DataManager.Store) : Prop :=
  Forall (fun f =>
            Subtitles.file_id f = Subtitles.generateStableFileId (Subtitles.currentTaskId f)
            ∧ ∃ t, DataManager.getTaskById (Subtitles.currentTaskId f) s = Some t
                   ∧ subtitle_entries t = Subtitles.entries f)
         (Subtitles.files state).

(** The callbacks of the subtitle provider that change the file list. *)
Inductive FileOp :=
| Load (fileName : string) (fileLastModified : nat)
       (parsed : Completion (list SubtitleEntry)) (freshId : string) (w : DataManager.Write)
| Edit (fileId : string) (entryId : nat) (newText : string) (newTranslated : option string)
| Clear (fileId : string) (w : DataManager.Write)
| Remove (fileId : string) (w : DataManager.Write)
| ClearAll (w : DataManager.Write).

Definition applyFileOp (op : FileOp) (state : Subtitles.SubtitleState)
    (s : DataManager.Store) : Subtitles.SubtitleState * DataManager.Store :=
  match op with
  | Load fileName fileLastModified parsed freshId w =>
      Subtitles.loadFromFile fileName fileLastModified parsed freshId w state s
  | Edit fileId entryId newText newTranslated =>
      Subtitles.updateEntry fileId entryId newText newTranslated state s
  | Clear fileId w =>
      let '(_, state, s) := Subtitles.clearFile fileId w state s in (state, s)
  | Remove fileId w => Subtitles.removeFile fileId w state s
  | ClearAll w =>
      let '(_, state, s) := Subtitles.clearAllData w state s in (state, s)
  end.

(** The task id generated for an import is not in use. *)
Definition fresh_id (op : FileOp) (s : DataManager.Store) : Prop :=
  match op with
  | Load _ _ _ freshId _ => freshId ∉ (taskId <$> DataManager.batch_tasks s)
  | _ => True
  end.

(** A translation that is not empty but blank. *)
Definition blankTranslation (entry : SubtitleEntry) : bool :=
  match translatedText entry with
  | Some t => negb (JS.is_empty t) && JS.is_empty (JS.trim t)
  | None => false
  end.

(** The tokens the endpoint reports for the steps [from], ..., [upto - 1]
    of the world. *)
Definition usageOf (net : nat -> Translation.Step) (from upto : nat) : nat :=
  sum_list_with (fun n => Spec.tokensOf (net n)) (seq from (upto - from)).

(** An item of the formatted result: the item the answer holds under the
    same key, with its [free] translation in the place of [direct] unless
    [free] is falsy. *)
Definition formatted_from (reflectionResult : Val) (kv : string * Val) : Prop :=
  ∃ item origin free direct,
    JS.get reflectionResult kv.1 = Return item
    ∧ JS.get item "origin" = Return origin
    ∧ JS.get item "free" = Return free
    ∧ JS.get item "direct" = Return direct
    ∧ kv.2 = JS.VObj [("origin", origin);
                      ("direct", if JS.truthy free then free else direct)].

(** The answer of the endpoint to a batch, decoded: under the key [k]
    (counted from 1) the source text and the translation of the [k]-th
    line. *)
Definition answered (lines : list (string * string)) : list (string * Val) :=
  imap (fun i line =>
          (JS.decimal (S i),
           JS.VObj [("origin", JS.VStr line.1); ("direct", JS.VStr line.2)]))
       lines.

(** The plan as the spec words it: all ceil(N / B) batches are looked at,
    and those without an entry to translate are left out. *)
Definition specBatches {U : Terms.Unicode} (terms : list Term)
    (entries : list SubtitleEntry) (cfg : TranslationConfig) : list Controls.Batch :=
  omap (Controls.planBatch terms entries cfg)
       (seq 0 (Controls.ceil_div (length entries) (batchSize cfg))).

End Props.

Module MoreSamples.

(** A world whose first answer is a 200 with a content that cannot be
    decoded and 5 tokens, and whose later answers are 200 with the content
    of the scenario and 7 tokens. *)
Definition garbled_then_ok (n : nat) : Translation.Step :=
  Translation.mkStep false false
    (Translation.RespondsOk
       (Translation.ReadOk
          (match n with
           | 0 => Translation.mkCompletion (Some 5) (Some "{")
           | _ => Translation.mkCompletion (Some 7) (Some Samples.scenario_content)
           end))).

(** A reflection answer: the first line has a free translation, the
    second has none. *)
Definition reflected_answer : Val :=
  JS.VObj [("1", JS.VObj [("origin", JS.VStr "Hello"); ("direct", JS.VStr "你好");
                          ("reflect", JS.VStr "too plain"); ("free", JS.VStr "你好啊")]);
           ("2", JS.VObj [("origin", JS.VStr "World"); ("direct", JS.VStr "世界");
                          ("reflect", JS.VStr ""); ("free", JS.VStr "")])].

(** Two terms of the terms dialog. *)
Definition two_terms : list Term := [mkTerm "New York" "纽约"; mkTerm "cat" "chat"].

(** The store and the view after one term was added. *)
Definition one_term_store : DataManager.Store :=
  TermsList.with_terms DataManager.empty [mkTerm "cat" "chat"].

Definition one_term_view : TermsView.TermsState :=
  TermsView.mkTermsState [mkTerm "cat" "chat"] false None.

(** The history view after the provider has mounted on the sample
    history. *)
Definition mounted_history : HistoryView.HistoryState :=
  HistoryView.refreshHistory HistoryView.initialState Samples.sample_history.

(** The file list after a one-entry file was imported as [task_1]. *)
Definition one_file : Subtitles.SubtitleState * DataManager.Store :=
  Subtitles.loadFromFile "a.srt" 0 (Return [Samples.sample_entry 1 None]) "task_1"
    DataManager.Stored Subtitles.initialState DataManager.empty.

(** *** A file translated in the middle only *)

(** Four entries of which the second and the third are translated. *)
Definition gapped_entries : list SubtitleEntry :=
  [Samples.timed_entry 1 "One" None; Samples.timed_entry 2 "Two" (Some "Deux");
   Samples.timed_entry 3 "Three" (Some "Trois"); Samples.timed_entry 4 "Four" None].

(** The answer to a batch that holds the text [Four] only. *)
Definition gapped_content : string :=
  "{" +:+ Samples.quoted "1" +:+ ":{" +:+ Samples.quoted "origin" +:+ ":"
      +:+ Samples.quoted "Four" +:+ "," +:+ Samples.quoted "direct" +:+ ":"
      +:+ Samples.quoted "Quatre" +:+ "}}".

Definition gapped_result : Val :=
  JS.VObj [("1", JS.VObj [("origin", JS.VStr "Four"); ("direct", JS.VStr "Quatre")])].

(** Every call is answered 200 with that content and 7 tokens. *)
Definition gapped_net (n : nat) : Translation.Step :=
  Translation.mkStep false false
    (Translation.RespondsOk
       (Translation.ReadOk (Translation.mkCompletion (Some 7) (Some gapped_content)))).

(** The store after the file was imported as task [task_import]. *)
Definition gapped_store : DataManager.Store :=
  (DataManager.createNewTask "a.srt" gapped_entries 0 "task_import"
     DataManager.Stored DataManager.empty).2.

(** One run of [onStartTranslation] on it, with batchSize 2, threadCount 1
    and reflection off. *)
Definition gapped_outcome : Controls.Outcome :=
  @Controls.onStartTranslation Terms.ascii_unicode []
    (Samples.decode_only gapped_content gapped_result) gapped_net
    Samples.scenario_world (Samples.sample_config "sk-test" 2 1 false)
    gapped_entries "a.srt" "task_import" 0 gapped_store Samples.fresh_client.

(** *** An error body that cannot be read *)



End MoreSamples.

(** Closes a goal about [parseInt] on a numeral whose digits [H] sums up. *)
Ltac parse_digits H :=
  match type of H with
  | ?dv = _ =>
      match goal with
      | |- _ = ?rhs =>
          change (match dv with Some m => Some (Z.of_nat m) | None => None end = rhs);
          by rewrite H
      end
  end.

(* ================================================================== *)
(** ** The task store *)
(* ================================================================== *)

Section StoreFacts.
Import DataManager Spec Samples.

Lemma findTask_absent (tid : string) (tasks : list SingleTask) :
  tid ∉ (taskId <$> tasks) → findTask tid tasks = None.
Proof.
  intros Habs. apply list_find_None, Forall_forall.
  intros t Ht Heq. apply Habs. rewrite <- Heq. by apply list_elem_of_fmap_2.
Qed.

Lemma findTask_insert (tid : string) (tasks : list SingleTask) i t t' :
  findTask tid tasks = Some (i, t) → taskId t' = tid →
  findTask tid (<[i := t']> tasks) = Some (i, t').
Proof.
  intros Hfind Hid. apply list_find_Some in Hfind as (Hi & _ & Hbefore).
  apply list_find_insert_Some. right; left.
  repeat split; try done. by eapply lookup_lt_Some.
Qed.

Lemma findTask_same_id (tid : string) (tasks : list SingleTask) i t :
  findTask tid tasks = Some (i, t) → taskId t = tid ∧ tasks !! i = Some t.
Proof. intros Hfind. apply list_find_Some in Hfind as (Hi & Hid & _). done. Qed.

(** What every operation does to the store's task list. *)
Lemma applyTaskOp_tasks (tid : string) (op : TaskOp) (s : Store) :
  match findTask tid (batch_tasks s) with
  | None => batch_tasks (applyTaskOp tid op s) = batch_tasks s
  | Some (i, t) =>
      ∃ t', batch_tasks (applyTaskOp tid op s) = <[i := t']> (batch_tasks s)
            ∧ taskId t' = tid
            ∧ (recounts op = true → consistent t')
            ∧ (carriedCompleted op = None → recounts op = false →
               completed (translation_progress t') = completed (translation_progress t)
               ∧ subtitle_entries t' = subtitle_entries t)
            ∧ (∀ c, carriedCompleted op = Some c →
                    completed (translation_progress t') = c
                    ∧ subtitle_entries t' = subtitle_entries t)
  end.
Proof.
  destruct (findTask tid (batch_tasks s)) as [[i t]|] eqn:Hfind.
  - apply findTask_same_id in Hfind as Hid. destruct Hid as [Hid _].
    destruct op as [e x tt|e x tt w|us|ft w|u|u w]; simpl;
      unfold updateTaskSubtitleEntry, updateTaskSubtitleEntryInMemory,
             batchUpdateTaskSubtitleEntries, completeTask,
             updateTaskTranslationProgress, updateTaskTranslationProgressInMemory;
      rewrite ?Hfind; try destruct w; simpl;
      eexists; (split; [reflexivity|]); (split; [exact Hid|]);
      (split; [done|]);
      (split; [intros Hnone Hkeep; try done; unfold mergeProgress; simpl in *;
               by rewrite Hnone
              |intros c Hc; try done; unfold mergeProgress; simpl in *; by rewrite Hc]).
  - destruct op as [e x tt|e x tt w|us|ft w|u|u w]; simpl;
      unfold updateTaskSubtitleEntry, updateTaskSubtitleEntryInMemory,
             batchUpdateTaskSubtitleEntries, completeTask,
             updateTaskTranslationProgress, updateTaskTranslationProgressInMemory;
      by rewrite ?Hfind.
Qed.

(** C8: for a taskId that no task of the store carries,
    [updateTaskSubtitleEntryInMemory], [updateTaskTranslationProgressInMemory]
    and [completeTask] change nothing, in memory or in [localforage], and
    none of them throws. *)
Theorem absent_task_is_noop (s : Store) (tid : string) :
  tid ∉ (taskId <$> batch_tasks s) →
  (∀ entryId newText newTranslated,
     updateTaskSubtitleEntryInMemory tid entryId newText newTranslated s = s)
  ∧ (∀ updates, updateTaskTranslationProgressInMemory tid updates s = s)
  ∧ (∀ finalTokens w, completeTask tid finalTokens w s = (Return (), s)).
Proof.
  intros Habs. apply findTask_absent in Habs.
  unfold updateTaskSubtitleEntryInMemory, updateTaskTranslationProgressInMemory,
         completeTask.
  rewrite Habs. done.
Qed.

Lemma absent_task_is_noop_witness :
  updateTaskSubtitleEntryInMemory "task_b" 1 "Hi" (Some "x") sample_store = sample_store
  ∧ completeTask "task_b" 7 Stored sample_store = (Return (), sample_store).
Proof.
  destruct (absent_task_is_noop sample_store "task_b") as (H1 & _ & H3).
  - simpl. rewrite list_elem_of_singleton. discriminate.
  - split; [apply H1 | apply H3].
Defined.

(** C3, as the code has it: after an operation that rewrites a task's
    entries ([updateTaskSubtitleEntry], its in-memory variant,
    [batchUpdateTaskSubtitleEntries]) and after [completeTask], the
    [completed] field of the task found under that taskId is the number of
    its entries with a non-blank [translatedText]; a progress update
    ([updateTaskTranslationProgress], its in-memory variant) that carries
    no [completed] field leaves the field and the entries as they were, and
    one that carries a [completed] value stores that value as it is and
    leaves the entries as they were; and no operation touches a task with
    another taskId. *)
Theorem completed_is_recounted (s : Store) (tid : string) (op : TaskOp) (t' : SingleTask) :
  getTaskById tid (applyTaskOp tid op s) = Some t' →
  (recounts op = true → consistent t')
  ∧ (recounts op = false → carriedCompleted op = None →
     ∃ t, getTaskById tid s = Some t
          ∧ completed (translation_progress t') = completed (translation_progress t)
          ∧ subtitle_entries t' = subtitle_entries t)
  ∧ (∀ c, carriedCompleted op = Some c →
          recounts op = false
          ∧ completed (translation_progress t') = c
          ∧ ∃ t, getTaskById tid s = Some t
                 ∧ subtitle_entries t' = subtitle_entries t)
  ∧ (∀ j other, batch_tasks s !! j = Some other → taskId other ≠ tid →
                batch_tasks (applyTaskOp tid op s) !! j = Some other).
Proof.
  unfold getTaskById. intros Hget.
  pose proof (applyTaskOp_tasks tid op s) as Hop.
  destruct (findTask tid (batch_tasks s)) as [[i t]|] eqn:Hfind.
  - destruct Hop as (t1 & Htasks & Hid & Hrec & Hkeep & Hcarried).
    rewrite Htasks in Hget |- *.
    rewrite (findTask_insert tid _ i t t1 Hfind Hid) in Hget.
    simpl in Hget. injection Hget as <-.
    split; [exact Hrec|]. split; [|split].
    + intros Hno Hnone. exists t. split; [done|]. by apply Hkeep.
    + intros c Hc. destruct (Hcarried c Hc) as [Hcompleted Hentries].
      split; [by destruct op|]. split; [done|]. by exists t.
    + intros j other Hj Hne. rewrite list_lookup_insert_ne; [done|].
      intros ->. apply findTask_same_id in Hfind as [Hid' Hi]. congruence.
  - rewrite Hop in Hget |- *. rewrite Hfind in Hget. discriminate.
Qed.

Lemma completed_is_recounted_witness :
  consistent (mkTask "task_a" [sample_entry 1 (Some "Bonjour")] "a.srt"
                     (mkProgress 1 1 0 Idle None) 0)
  ∧ completed (mkProgress 1 1 0 Idle None) = 1
  ∧ ∃ t, getTaskById "task_a" sample_store = Some t
         ∧ completed (mkProgress 0 1 7 Translating None) = completed (translation_progress t).
Proof.
  split; [|split].
  - refine (proj1 (completed_is_recounted sample_store "task_a"
                     (UpdateEntryInMemory 1 "Hello" (Some "Bonjour")) _ _) _);
      reflexivity.
  - destruct (completed_is_recounted sample_store "task_a"
                (ProgressInMemory (mkUpdate (Some 1) None None None None))
                (mkTask "task_a" [sample_entry 1 None] "a.srt"
                        (mkProgress 1 1 0 Idle None) 0) eq_refl)
      as (_ & _ & Hstored & _).
    destruct (Hstored 1 eq_refl) as (_ & Hc & _). exact Hc.
  - destruct (completed_is_recounted sample_store "task_a"
                (ProgressInMemory (mkUpdate None None (Some 7) (Some Translating) None))
                (mkTask "task_a" [sample_entry 1 None] "a.srt"
                        (mkProgress 0 1 7 Translating None) 0) eq_refl)
      as (_ & Hkeep & _).
    destruct (Hkeep eq_refl eq_refl) as (t & Ht & Hc & _).
    exists t. split; [exact Ht | exact Hc].
Defined.

(** C3 as stated fails: [updateTaskTranslationProgressInMemory] stores the
    [completed] it is given, here 1 for a task none of whose entries is
    translated. *)
Lemma completed_can_drift :
  Forall consistent (batch_tasks sample_store)
  ∧ ¬ Forall consistent
        (batch_tasks (updateTaskTranslationProgressInMemory "task_a"
                        (mkUpdate (Some 1) None None None None) sample_store)).
Proof.
  split.
  - repeat constructor.
  - intros H. apply Forall_cons in H as [H _]. vm_compute in H. discriminate.
Qed.

End StoreFacts.

(* ================================================================== *)
(** ** The translation history *)
(* ================================================================== *)

Section HistoryFacts.
Import DataManager Spec Samples.

Lemma history_of_persist w item s :
  translation_history (snd (persist_history w item s)) = translation_history s.
Proof. by destruct w. Qed.

Lemma addHistoryEntry_history entry now w s :
  translation_history (snd (addHistoryEntry entry now w s)) =
  match list_find (λ h, hist_taskId h = in_taskId entry) (translation_history s) with
  | Some (i, _) => <[i := stamp entry now]> (translation_history s)
  | None => stamp entry now :: translation_history s
  end.
Proof. unfold addHistoryEntry. rewrite history_of_persist. by destruct (list_find _ _) as [[]|]. Qed.

Lemma applyHistoryOp_NoDup (s : Store) (op : HistoryOp) :
  NoDup (historyKeys s) → NoDup (historyKeys (applyHistoryOp s op)).
Proof.
  unfold historyKeys. intros Hnd. destruct op as [entry now w|tid w|w]; simpl.
  - rewrite addHistoryEntry_history.
    destruct (list_find _ _) as [[i old]|] eqn:Hfind.
    + apply list_find_Some in Hfind as (Hi & Hkey & _).
      rewrite list_fmap_insert, list_insert_id; [done|].
      rewrite list_lookup_fmap, Hi. simpl. by rewrite Hkey.
    + apply list_find_None in Hfind. rewrite fmap_cons. apply NoDup_cons. split; [|done].
      intros Hin. apply list_elem_of_fmap in Hin as (h & Hk & Hh).
      rewrite Forall_forall in Hfind. by apply (Hfind h Hh).
  - unfold deleteHistoryEntry. rewrite history_of_persist. simpl.
    eapply sublist_NoDup; [exact Hnd|]. apply fmap_sublist, sublist_filter.
  - unfold clearHistory. rewrite history_of_persist. simpl. constructor.
Qed.

(** C10: [addHistoryEntry] overwrites the entry that has the same taskId
    where it stands, with the time of the call, and the list keeps its
    length; and a history without two entries of one taskId stays so under
    every sequence of [addHistoryEntry], [deleteHistoryEntry] and
    [clearHistory], whatever the writes to [localforage] do.  The history
    the constructor starts from is empty. *)
Theorem history_is_keyed_by_taskId :
  (∀ s entry now w,
     in_taskId entry ∈ historyKeys s →
     ∃ i old,
       translation_history s !! i = Some old
       ∧ hist_taskId old = in_taskId entry
       ∧ translation_history (snd (addHistoryEntry entry now w s))
         = <[i := stamp entry now]> (translation_history s)
       ∧ translation_history (snd (addHistoryEntry entry now w s)) !! i
         = Some (stamp entry now)
       ∧ timestamp (stamp entry now) = now
       ∧ length (translation_history (snd (addHistoryEntry entry now w s)))
         = length (translation_history s))
  ∧ (∀ s ops, NoDup (historyKeys s) → NoDup (historyKeys (runHistory ops s)))
  ∧ (∀ ops, NoDup (historyKeys (runHistory ops empty))).
Proof.
  assert (Hinv : ∀ ops s, NoDup (historyKeys s) → NoDup (historyKeys (runHistory ops s))).
  { induction ops as [|op ops IH]; intros s Hnd; simpl; [done|].
    apply IH. by apply applyHistoryOp_NoDup. }
  split; [|split].
  - intros s entry now w Hin. rewrite addHistoryEntry_history.
    destruct (list_find _ _) as [[i old]|] eqn:Hfind.
    + apply list_find_Some in Hfind as (Hi & Hkey & _).
      exists i, old. repeat split; try done.
      * apply list_lookup_insert_eq. by eapply lookup_lt_Some.
      * by rewrite length_insert.
    + apply list_find_None in Hfind. rewrite Forall_forall in Hfind.
      apply list_elem_of_fmap in Hin as (h & Hk & Hh). by destruct (Hfind h Hh).
  - intros s ops. apply Hinv.
  - intros ops. apply Hinv. constructor.
Qed.

Lemma history_is_keyed_by_taskId_witness :
  (∃ i old,
     translation_history sample_history !! i = Some old
     ∧ hist_taskId old = "task_a"
     ∧ timestamp old = 100
     ∧ translation_history
         (snd (addHistoryEntry (mkHistoryInput "task_a" "a.srt" 1 12 sample_snapshot)
                 300 Stored sample_history)) !! i
       = Some (mkHistory "task_a" "a.srt" 1 12 300 sample_snapshot))
  ∧ NoDup (historyKeys
             (runHistory [DeleteEntry "task_b" Stored;
                          AddEntry (mkHistoryInput "task_a" "a.srt" 1 12 sample_snapshot)
                                   300 (Rejected (JS.Error "quota"))]
                         sample_history)).
Proof.
  destruct history_is_keyed_by_taskId as (Hadd & Hinv & _). split.
  - destruct (Hadd sample_history (mkHistoryInput "task_a" "a.srt" 1 12 sample_snapshot)
                   300 Stored) as (i & old & Hi & Hk & _ & Hnew & _).
    + vm_compute. apply list_elem_of_In. simpl. tauto.
    + assert (i = 1) as ->.
      { destruct i as [|[|i]]; vm_compute in Hi;
          [ injection Hi as <-; vm_compute in Hk; discriminate Hk
          | reflexivity
          | discriminate Hi ]. }
      vm_compute in Hi. injection Hi as <-.
      eexists 1, _. split; [reflexivity|]. split; [reflexivity|]. split; [reflexivity|].
      exact Hnew.
  - apply Hinv. vm_compute. repeat constructor; rewrite ?list_elem_of_In; simpl; intuition discriminate.
Defined.

End HistoryFacts.

(* ================================================================== *)
(** ** The terms filter *)
(* ================================================================== *)

Section TermsFacts.
Import Terms.
Context {U : Unicode}.

Lemma bool_filter_sublist {A} (f : A → bool) (l : list A) :
  List.filter f l `sublist_of` l.
Proof.
  induction l as [|x l IH]; simpl; [constructor|].
  destruct (f x); by constructor.
Qed.

Lemma rebuild_terms (l : list Term) :
  map (fun term => mkTerm (original term) (translation term)) l = l.
Proof. induction l as [|[o t] l IH]; simpl; [done|]. by rewrite IH. Qed.

Lemma getRelevantTerms_filter (terms : list Term) (text before after : string) :
  getRelevantTerms terms text before after =
  List.filter (relevant (cleanText (before +:+ " " +:+ text +:+ " " +:+ after))) terms.
Proof. unfold getRelevantTerms. destruct terms; [done|]. apply rebuild_terms. Qed.

(** C9: [getRelevantTerms] returns a subsequence of the term list, its
    members are exactly the listed terms whose cleaned original is not
    empty and occurs in the cleaned text, and a term whose cleaned original
    is the empty string is never among them. *)
Theorem relevant_terms_subsequence (terms : list Term) (text before after : string) :
  getRelevantTerms terms text before after `sublist_of` terms
  ∧ (∀ term, term ∈ getRelevantTerms terms text before after ↔
             term ∈ terms
             ∧ cleanText (original term) ≠ ""
             ∧ JS.includes (cleanText (original term))
                 (cleanText (before +:+ " " +:+ text +:+ " " +:+ after)) = true)
  ∧ (∀ term, cleanText (original term) = "" →
             term ∉ getRelevantTerms terms text before after).
Proof.
  rewrite getRelevantTerms_filter.
  assert (Hmem : ∀ term,
    term ∈ List.filter (relevant (cleanText (before +:+ " " +:+ text +:+ " " +:+ after))) terms ↔
    term ∈ terms ∧ cleanText (original term) ≠ ""
    ∧ JS.includes (cleanText (original term))
        (cleanText (before +:+ " " +:+ text +:+ " " +:+ after)) = true).
  { intros term. rewrite !list_elem_of_In, filter_In. unfold relevant.
    rewrite andb_true_iff, negb_true_iff.
    destruct (cleanText (original term)); simpl; intuition congruence. }
  split; [apply bool_filter_sublist|]. split; [exact Hmem|].
  intros term Hempty Hin. apply Hmem in Hin. tauto.
Qed.

End TermsFacts.

Lemma relevant_terms_subsequence_witness :
  mkTerm "--" "dash" ∉
    @Terms.getRelevantTerms Terms.ascii_unicode
      [mkTerm "New-York" "NY"; mkTerm "--" "dash"; mkTerm "foo" "bar"]
      "I love -- new york" "" "".
Proof.
  apply (@relevant_terms_subsequence Terms.ascii_unicode). reflexivity.
Defined.

(* ================================================================== *)
(** ** The direct prompt *)
(* ================================================================== *)

Section PromptFacts.
Import JS Prompts Spec.

Lemma decimal_inj (n m : nat) : decimal n = decimal m → n = m.
Proof.
  unfold decimal. intros H.
  assert (Some (Nat.to_uint n) = Some (Nat.to_uint m)) as Heq.
  { rewrite <- !NilEmpty.usu. by rewrite H. }
  injection Heq as Heq. rewrite <- (Unsigned.of_to n), <- (Unsigned.of_to m). by rewrite Heq.
Qed.

Lemma array_index_decimal (n : nat) : array_index (decimal n) = Some n.
Proof.
  unfold array_index. unfold decimal at 1. rewrite NilEmpty.usu.
  rewrite Unsigned.of_to, String.eqb_refl. done.
Qed.

Lemma assoc_fresh (k : string) (l : list (string * Val)) :
  k ∉ (fst <$> l) → assoc k l = None.
Proof.
  induction l as [|[k' v] l IH]; simpl; [done|].
  rewrite not_elem_of_cons. intros [Hne Hl].
  destruct (String.eqb_spec k' k); [congruence|]. by apply IH.
Qed.

Lemma obj_insert_index_last (n : nat) (k : string) (v : Val) (l : list (string * Val)) :
  Forall (fun kv => ∃ m, array_index (fst kv) = Some m ∧ m < n) l →
  obj_insert_index n k v l = l ++ [(k, v)].
Proof.
  induction 1 as [|[k' v'] l (m & Hm & Hlt) _ IH]; simpl; [done|].
  simpl in Hm. rewrite Hm. destruct (Nat.ltb_spec m n); [|lia]. by rewrite IH.
Qed.

Lemma numbered_keys (ls : list string) :
  fst <$> numbered ls = decimal <$> seq 1 (length ls).
Proof.
  unfold numbered. rewrite fmap_imap.
  rewrite (imap_ext _ (fun j _ => decimal (S j))); [|done].
  rewrite imap_seq_0. by rewrite <- fmap_S_seq, <- list_fmap_compose.
Qed.

Lemma numbered_snoc (ls : list string) (line : string) :
  obj_set (decimal (S (length ls))) (directItem line) (numbered ls) = numbered (ls ++ [line]).
Proof.
  unfold obj_set. rewrite assoc_fresh.
  - rewrite array_index_decimal, obj_insert_index_last.
    + unfold numbered. rewrite imap_app. simpl. by rewrite Nat.add_0_r.
    + apply Forall_forall. intros [k v] Hin.
      apply elem_of_lookup_imap_1 in Hin as (i & y & Heq & Hi).
      injection Heq as -> ->. exists (S i). split; [apply array_index_decimal|].
      apply lookup_lt_Some in Hi. simpl. lia.
  - rewrite numbered_keys. intros Hin.
    apply list_elem_of_fmap in Hin as (m & Heq & Hm).
    apply decimal_inj in Heq. subst m. apply elem_of_seq in Hm. lia.
Qed.

Lemma directDict_fold (done todo : list string) :
  fold_left
    (fun jsonDict '(index, line) => obj_set (decimal (index + 1)) (directItem line) jsonDict)
    (imap (fun i line => (length done + i, line)) todo) (numbered done)
  = numbered (done ++ todo).
Proof.
  revert done. induction todo as [|line todo IH]; intros done; simpl.
  - by rewrite app_nil_r.
  - rewrite Nat.add_0_r, Nat.add_1_r, numbered_snoc.
    rewrite (imap_ext _ (fun i line0 => (length (done ++ [line]) + i, line0))).
    + rewrite IH. by rewrite <- app_assoc.
    + intros i x _. simpl. rewrite length_app. simpl. f_equal. lia.
Qed.

(** Whatever text the builder is given, the template numbers the pieces
    between its line feeds. *)
Lemma directDict_split (lines : string) :
  directDict lines = numbered (split LF lines).
Proof.
  unfold directDict. apply (directDict_fold []).
Qed.

Lemma split_single (s : string) : single_line s → split LF s = [s].
Proof.
  unfold single_line. induction s as [|a s IH]; simpl; [done|].
  intros H. apply Forall_cons in H as [Ha Hs].
  destruct (Ascii.eqb_spec a LF); [done|]. by rewrite IH.
Qed.

Lemma split_line_feed (x rest : string) :
  single_line x → split LF (x +:+ String LF rest) = x :: split LF rest.
Proof.
  unfold single_line. induction x as [|a x IH]; simpl.
  - intros _. by rewrite ?Ascii.eqb_refl.
  - intros H. apply Forall_cons in H as [Ha Hs].
    destruct (Ascii.eqb_spec a LF); [done|]. by rewrite IH.
Qed.

Lemma split_join (ls : list string) :
  ls ≠ [] → Forall single_line ls → split LF (join nl ls) = ls.
Proof.
  induction ls as [|x ls IH]; [done|]. intros _ H.
  apply Forall_cons in H as [Hx Hls]. destruct ls as [|y ls].
  - simpl. by apply split_single.
  - change (join nl (x :: y :: ls)) with (x +:+ String LF (join nl (y :: ls))).
    rewrite split_line_feed by done. by rewrite IH.
Qed.

Lemma append_assoc (a b c : string) : (a +:+ b) +:+ c = a +:+ b +:+ c.
Proof.
  induction a as [|x a IH]; [done|].
  change (String x ((a +:+ b) +:+ c) = String x (a +:+ b +:+ c)). by rewrite IH.
Qed.

Lemma join_middle (sep x : string) (l1 l2 : list string) :
  l1 ≠ [] → l2 ≠ [] →
  join sep (l1 ++ x :: l2) = (join sep l1 +:+ sep) +:+ x +:+ (sep +:+ join sep l2).
Proof.
  intros H1 H2. induction l1 as [|a l1 IH]; [done|].
  destruct l1 as [|b l1].
  - simpl. destruct l2; [done|]. by rewrite !append_assoc.
  - change (join sep ((a :: b :: l1) ++ x :: l2))
      with (a +:+ sep +:+ join sep ((b :: l1) ++ x :: l2)).
    rewrite IH by done.
    change (join sep (a :: b :: l1)) with (a +:+ sep +:+ join sep (b :: l1)).
    by rewrite !append_assoc.
Qed.

Lemma split_nonempty (c : ascii) (s : string) : split c s ≠ [].
Proof.
  induction s as [|a s IH]; simpl; [done|].
  destruct (Ascii.eqb a c); [done|]. by destruct (split c s).
Qed.

(** C7: the builder numbers the lines of the text it is given (the pieces
    between its line feeds, of which there is at least one): the template
    has exactly the keys 1 to n in that order, key k holds the k-th line as
    [origin] and the empty string as [direct], and the prompt contains the
    template's JSON text.  A non-empty list of source lines (texts without
    a line feed), joined by line feeds as [translateBatch] hands it over,
    is the list of lines of the joined text. *)
Theorem direct_prompt_template :
  (∀ lines sharedPrompt src tgt,
     split LF lines ≠ []
     ∧ directDict lines = numbered (split LF lines)
     ∧ fst <$> directDict lines = decimal <$> seq 1 (length (split LF lines))
     ∧ (∀ k line, split LF lines !! k = Some line →
          directDict lines !! k
          = Some (decimal (S k), VObj [("origin", VStr line); ("direct", VStr "")]))
     ∧ ∃ before after,
         generateDirectPrompt lines sharedPrompt src tgt
         = before +:+ JSON_stringify (VObj (directDict lines)) +:+ after)
  ∧ (∀ ls, ls ≠ [] → Forall single_line ls → split LF (join nl ls) = ls).
Proof.
  split; [|exact split_join].
  intros lines sharedPrompt src tgt.
  split; [apply split_nonempty|]. split; [apply directDict_split|]. split; [|split].
  - rewrite directDict_split. apply numbered_keys.
  - intros k line Hk. rewrite directDict_split. unfold numbered.
    rewrite list_lookup_imap, Hk. done.
  - eexists _, _. unfold generateDirectPrompt, text_of_lines.
    apply join_middle; done.
Qed.

Lemma direct_prompt_template_witness :
  fst <$> directDict (join nl ["a"; "b"; "c"]) = ["1"; "2"; "3"]
  ∧ directDict (join nl ["a"; "b"; "c"]) !! 1
    = Some ("2", VObj [("origin", VStr "b"); ("direct", VStr "")]).
Proof.
  destruct direct_prompt_template as [Hbuild Hlines].
  destruct (Hbuild (join nl ["a"; "b"; "c"]) "" "English" "French")
    as (_ & _ & Hkeys & Hitem & _).
  assert (split LF (join nl ["a"; "b"; "c"]) = ["a"; "b"; "c"]) as Hsplit.
  { apply Hlines; [discriminate|]. repeat constructor; discriminate. }
  rewrite Hsplit in Hkeys, Hitem.
  split; [exact Hkeys | exact (Hitem 1 "b" eq_refl)].
Defined.

End PromptFacts.

(* ================================================================== *)
(** ** The translation client *)
(* ================================================================== *)

Section ClientFacts.
Import JS Translation Spec Samples.

Variable decode : string -> Completion Val.
Variable net : nat -> Step.
Variable cfg : TranslationConfig.
Variable directPrompt : string.

Lemma fetches_app (a b : list Event) : fetches (a ++ b) = fetches a + fetches b.
Proof. unfold fetches. by rewrite List.filter_app, length_app. Qed.

Lemma sleeps_app (a b : list Event) : sleeps (a ++ b) = sleeps a ++ sleeps b.
Proof. unfold sleeps. by rewrite omap_app. Qed.

Lemma fetches_emit (ev : Event) (c : Client) :
  fetches (events (emit ev c)) = fetches (events c) + (if is_fetch ev then 1 else 0).
Proof. simpl. rewrite fetches_app. f_equal. unfold fetches. simpl. by destruct (is_fetch ev). Qed.

Lemma sleeps_emit (ev : Event) (c : Client) :
  sleeps (events (emit ev c))
  = sleeps (events c) ++ match ev with Sleep ms => [ms] | _ => [] end.
Proof. simpl. rewrite sleeps_app. f_equal. by destruct ev. Qed.

Lemma sleeps_requested (c : Client) :
  sleeps (events (requested cfg directPrompt c)) = sleeps (events c).
Proof.
  unfold requested. rewrite sleeps_emit.
  change (events (with_index (emit Acquire c) ?i)) with (events (emit Acquire c)).
  rewrite sleeps_emit. by rewrite !app_nil_r.
Qed.

Lemma fetches_requested (c : Client) :
  fetches (events (requested cfg directPrompt c)) = S (fetches (events c)).
Proof.
  unfold requested. rewrite fetches_emit.
  change (events (with_index (emit Acquire c) ?i)) with (events (emit Acquire c)).
  rewrite fetches_emit. simpl. lia.
Qed.

Lemma getNextApiKey_valid (i : nat) :
  validKeys (apiKey cfg) ≠ [] →
  getNextApiKey (apiKey cfg) i
  = (Return (validKeys (apiKey cfg) !! i), (i + 1) mod length (validKeys (apiKey cfg))).
Proof. unfold getNextApiKey. by destruct (validKeys (apiKey cfg)). Qed.

Lemma directAttempt_failure (step : Step) (c : Client) (e : JsError) :
  abortedAfterWait step = false →
  validKeys (apiKey cfg) ≠ [] →
  failureOf decode step = Some e →
  directAttempt decode cfg directPrompt step c
  = (Throw e, requested cfg directPrompt c, tokensOf step).
Proof.
  intros Hwait Hkeys Hfail. unfold directAttempt. rewrite Hwait.
  change (apiKeyIndex (emit Acquire c)) with (apiKeyIndex c).
  rewrite (getNextApiKey_valid _ Hkeys).
  unfold failureOf, tokensOf in *. fold (requested cfg directPrompt c).
  destruct (answer step) as [e'|[d|e']|st [b|e']]; try (injection Hfail as <-; done).
  destruct (decode _); [discriminate|]. by injection Hfail as <-.
Qed.

Lemma directLoop_step (maxRetries remaining attempt : nat) (lastError : option JsError)
    (total : nat) (c : Client) :
  directLoop decode net cfg directPrompt maxRetries (S remaining) attempt lastError total c
  = let step := net (requests c) in
    let c := next_step c in
    if abortedAtStart step then (Throw cancelled, c)
    else
      let '(outcome, c, used) := directAttempt decode cfg directPrompt step c in
      let total := total + used in
      match outcome with
      | Return directResult => (Return (directResult, lastError, total), c)
      | Throw error =>
          if isCancellation error then (Throw error, c)
          else
            let c := if attempt <? maxRetries then emit (Sleep (1000 * attempt)) c else c in
            directLoop decode net cfg directPrompt maxRetries remaining (S attempt)
                       (Some error) total c
      end.
Proof. reflexivity. Qed.

(** A failure that is not taken for a cancellation: the loop waits
    [1000 * attempt] ms when another attempt is left, and goes on. *)
Lemma directLoop_retry (maxRetries remaining attempt : nat) (lastError : option JsError)
    (total : nat) (c : Client) (e : JsError) :
  validKeys (apiKey cfg) ≠ [] →
  abortedAtStart (net (requests c)) = false →
  abortedAfterWait (net (requests c)) = false →
  failureOf decode (net (requests c)) = Some e →
  isCancellation e = false →
  directLoop decode net cfg directPrompt maxRetries (S remaining) attempt lastError total c
  = directLoop decode net cfg directPrompt maxRetries remaining (S attempt) (Some e)
      (total + tokensOf (net (requests c)))
      (if attempt <? maxRetries
       then emit (Sleep (1000 * attempt)) (requested cfg directPrompt (next_step c))
       else requested cfg directPrompt (next_step c)).
Proof.
  intros Hkeys Hstart Hwait Hfail Hcancel. rewrite directLoop_step. simpl.
  rewrite Hstart, (directAttempt_failure _ _ e Hwait Hkeys Hfail), Hcancel. done.
Qed.

Lemma directAttempt_fetches (step : Step) (c : Client) :
  fetches (events (directAttempt decode cfg directPrompt step c).1.2) ≤ S (fetches (events c)).
Proof.
  unfold directAttempt.
  destruct (abortedAfterWait step); cbn [fst snd].
  { rewrite fetches_emit. simpl. lia. }
  destruct (getNextApiKey _ _) as [[key|e] i]; cbn [fst snd].
  2:{ change (events (with_index (emit Acquire c) i)) with (events (emit Acquire c)).
      rewrite fetches_emit. simpl. lia. }
  assert (fetches (events (emit (Fetch key directPrompt) (with_index (emit Acquire c) i)))
          = S (fetches (events c))) as Hcount.
  { rewrite fetches_emit.
    change (events (with_index (emit Acquire c) i)) with (events (emit Acquire c)).
    rewrite fetches_emit. simpl. lia. }
  destruct (answer step) as [e'|[d|e']|st [b|e']]; cbn [fst snd]; rewrite ?Hcount; lia.
Qed.

(** In any world the loop calls [fetch] at most once per attempt. *)
Lemma directLoop_fetches (maxRetries remaining attempt : nat) (lastError : option JsError)
    (total : nat) (c : Client) :
  fetches (events (directLoop decode net cfg directPrompt maxRetries remaining attempt
                     lastError total c).2)
  ≤ fetches (events c) + remaining.
Proof.
  revert attempt lastError total c.
  induction remaining as [|remaining IH]; intros attempt lastError total c.
  { simpl. lia. }
  rewrite directLoop_step. cbv zeta.
  destruct (abortedAtStart _); cbn [fst snd]; [simpl; lia|].
  pose proof (directAttempt_fetches (net (requests c)) (next_step c)) as Hatt.
  destruct (directAttempt _ _ _ _ _) as [[outcome c1] used]. cbn [fst snd] in Hatt.
  change (events (next_step c)) with (events c) in Hatt.
  destruct outcome as [v|e]; cbn [fst snd]; [lia|].
  destruct (isCancellation e); cbn [fst snd]; [lia|].
  etransitivity; [apply IH|].
  destruct (attempt <? maxRetries); rewrite ?fetches_emit; simpl; lia.
Qed.

(** When every attempt left fails without being taken for a cancellation,
    the loop runs out with the error of the last attempt. *)
Lemma directLoop_exhausted (maxRetries remaining attempt : nat) (lastError : option JsError)
    (total : nat) (c : Client) :
  validKeys (apiKey cfg) ≠ [] →
  attempt + remaining = S maxRetries →
  (∀ j, j < remaining → failsTransiently decode net (requests c + j)) →
  ∃ total' c',
    directLoop decode net cfg directPrompt maxRetries remaining attempt lastError total c
    = (Return (VObj [],
               match remaining with
               | 0 => lastError
               | S r => failureOf decode (net (requests c + r))
               end, total'), c')
    ∧ sleeps (events c') = sleeps (events c) ++ ((fun k => 1000 * k) <$> seq attempt (remaining - 1))
    ∧ fetches (events c') = fetches (events c) + remaining
    ∧ requests c' = requests c + remaining.
Proof.
  intros Hkeys. revert attempt lastError total c.
  induction remaining as [|remaining IH]; intros attempt lastError total c Hsum Hall.
  { exists total, c. simpl. rewrite app_nil_r, !Nat.add_0_r. done. }
  destruct (Hall 0 ltac:(lia)) as (Hstart & Hwait & e & Hfail & Hcancel).
  rewrite Nat.add_0_r in Hstart, Hwait, Hfail.
  rewrite (directLoop_retry _ _ _ _ _ _ e Hkeys Hstart Hwait Hfail Hcancel).
  set (c1 := if attempt <? maxRetries then _ else _).
  assert (Hreq : requests c1 = S (requests c)).
  { subst c1. by destruct (attempt <? maxRetries). }
  destruct (IH (S attempt) (Some e) (total + tokensOf (net (requests c))) c1)
    as (total' & c' & Hrun & Hsleep & Hfetch & Hreq').
  { lia. }
  { intros j Hj. rewrite Hreq. replace (S (requests c) + j) with (requests c + S j) by lia.
    apply Hall. lia. }
  exists total', c'. rewrite Hrun. split; [|split; [|split]].
  - f_equal. f_equal. f_equal. destruct remaining as [|r].
    + by rewrite Nat.add_0_r, Hfail.
    + rewrite Hreq. by replace (requests c + S r) with (S (requests c) + r) by lia.
  - rewrite Hsleep. subst c1. destruct remaining as [|r].
    + assert ((attempt <? maxRetries) = false) as -> by (apply Nat.ltb_ge; lia).
      rewrite sleeps_requested. done.
    + assert ((attempt <? maxRetries) = true) as -> by (apply Nat.ltb_lt; lia).
      rewrite sleeps_emit, sleeps_requested. simpl. rewrite Nat.sub_0_r.
      by rewrite <- app_assoc.
  - rewrite Hfetch. subst c1.
    destruct (attempt <? maxRetries); rewrite ?fetches_emit, fetches_requested; simpl; lia.
  - lia.
Qed.

End ClientFacts.

Section ClientTheorems.
Import JS Translation Spec Samples.

Variable decode : string -> Completion Val.
Variable net : nat -> Step.
Variable cfg : TranslationConfig.

(** The direct pass does not look at the reflection switch. *)
Lemma directLoop_reflection_switch (b : bool) (directPrompt : string)
    (maxRetries remaining attempt : nat)
    (lastError : option JsError) (total : nat) (c : Client) :
  directLoop decode net (withReflection b cfg) directPrompt maxRetries remaining attempt
             lastError total c
  = directLoop decode net cfg directPrompt maxRetries remaining attempt lastError total c.
Proof.
  revert attempt lastError total c.
  induction remaining as [|remaining IH]; intros attempt lastError total c; [done|].
  rewrite !directLoop_step. cbv zeta.
  change (directAttempt decode (withReflection b cfg)) with (directAttempt decode cfg).
  destruct (abortedAtStart _); [reflexivity|].
  destruct (directAttempt _ _ _ _ _) as [[[v|e] c1] used]; [reflexivity|].
  destruct (isCancellation e); [reflexivity|]. apply IH.
Qed.

(** C4, as the code has it.  In the loop of the direct pass:
    (1) a failed request (response that is not ok, unreadable or undecodable
    body, rejected [fetch]) whose error the [catch] block does not take for
    a cancellation is followed, on attempt k < maxRetries, by a wait of
    1000 k ms and by attempt k + 1;
    (2) whatever the world does, [fetch] is called at most [maxRetries]
    times;
    (3) when the signal is set at one of the two checks of an attempt the
    loop throws the cancellation error without calling [fetch] or waiting
    again, and a [fetch] rejected with an [AbortError] is rethrown at once;
    (4) when all [maxRetries] attempts fail as in (1), [translateBatch]
    throws the error of the last attempt, after the waits 1000, 2000, ...,
    1000 (maxRetries - 1). *)
Theorem direct_pass_retries :
  (∀ directPrompt maxRetries remaining attempt lastError total c e,
     attempt < maxRetries →
     validKeys (apiKey cfg) ≠ [] →
     abortedAtStart (net (requests c)) = false →
     abortedAfterWait (net (requests c)) = false →
     failureOf decode (net (requests c)) = Some e →
     isCancellation e = false →
     ∃ c',
       directLoop decode net cfg directPrompt maxRetries (S remaining) attempt lastError total c
       = directLoop decode net cfg directPrompt maxRetries remaining (S attempt) (Some e)
           (total + tokensOf (net (requests c))) c'
       ∧ events c'
         = events c ++ [Acquire;
                        Fetch (validKeys (apiKey cfg) !! apiKeyIndex c) directPrompt;
                        Sleep (1000 * attempt)])
  ∧ (∀ directPrompt maxRetries c,
       fetches (events (directLoop decode net cfg directPrompt maxRetries maxRetries 1
                          None 0 c).2)
       ≤ fetches (events c) + maxRetries)
  ∧ (∀ directPrompt maxRetries remaining attempt lastError total c,
       (abortedAtStart (net (requests c)) = true
        ∨ abortedAfterWait (net (requests c)) = true) →
       ∃ c',
         directLoop decode net cfg directPrompt maxRetries (S remaining) attempt lastError total c
         = (Throw cancelled, c')
         ∧ fetches (events c') = fetches (events c)
         ∧ sleeps (events c') = sleeps (events c))
  ∧ (∀ directPrompt maxRetries remaining attempt lastError total c e,
       validKeys (apiKey cfg) ≠ [] →
       abortedAtStart (net (requests c)) = false →
       abortedAfterWait (net (requests c)) = false →
       answer (net (requests c)) = Rejects e →
       err_name e = "AbortError" →
       ∃ c',
         directLoop decode net cfg directPrompt maxRetries (S remaining) attempt lastError total c
         = (Throw e, c')
         ∧ fetches (events c') = S (fetches (events c))
         ∧ sleeps (events c') = sleeps (events c))
  ∧ (∀ texts contextBefore contextAfter terms maxRetries c,
       apiKey cfg ≠ "" →
       validKeys (apiKey cfg) ≠ [] →
       1 ≤ maxRetries →
       (∀ j, j < maxRetries → failsTransiently decode net (requests c + j)) →
       ∃ e c',
         translateBatch decode net cfg texts contextBefore contextAfter terms maxRetries c
         = (Throw e, c')
         ∧ failureOf decode (net (requests c + (maxRetries - 1))) = Some e
         ∧ sleeps (events c')
           = sleeps (events c) ++ ((fun k => 1000 * k) <$> seq 1 (maxRetries - 1))
         ∧ fetches (events c') = fetches (events c) + maxRetries).
Proof.
  split; [|split; [|split; [|split]]].
  - intros directPrompt maxRetries remaining attempt lastError total c e
           Hk Hkeys Hstart Hwait Hfail Hcancel.
    rewrite (directLoop_retry _ _ _ _ _ _ _ _ _ _ e Hkeys Hstart Hwait Hfail Hcancel).
    apply Nat.ltb_lt in Hk. rewrite Hk. eexists. split; [reflexivity|].
    simpl. by rewrite <- !app_assoc.
  - intros directPrompt maxRetries c. apply directLoop_fetches.
  - intros directPrompt maxRetries remaining attempt lastError total c Habort.
    rewrite directLoop_step. cbv zeta.
    destruct (abortedAtStart (net (requests c))) eqn:Hstart.
    + eexists. split; [reflexivity|]. done.
    + destruct Habort as [Habort|Habort]; [discriminate|].
      unfold directAttempt. rewrite Habort. eexists. split; [reflexivity|].
      change (events (emit Acquire (next_step c))) with (events (emit Acquire c)).
      rewrite fetches_emit, sleeps_emit. simpl. split; [lia|]. by rewrite app_nil_r.
  - intros directPrompt maxRetries remaining attempt lastError total c e
           Hkeys Hstart Hwait Hans Hname.
    rewrite directLoop_step. cbv zeta. rewrite Hstart.
    rewrite (directAttempt_failure _ _ _ _ _ e Hwait Hkeys).
    2:{ unfold failureOf. by rewrite Hans. }
    unfold isCancellation. rewrite Hname. simpl.
    eexists. split; [reflexivity|].
    rewrite fetches_requested, sleeps_requested. done.
  - intros texts contextBefore contextAfter terms maxRetries c Hkey Hkeys Hmax Hall.
    unfold translateBatch.
    assert (is_empty (apiKey cfg) = false) as -> by (by destruct (apiKey cfg)).
    cbv zeta.
    set (prompt := Prompts.generateDirectPrompt _ _ _ _). clearbody prompt.
    destruct (directLoop_exhausted decode net cfg prompt maxRetries maxRetries 1 None 0 c)
      as (total' & c' & Hrun & Hsleep & Hfetch & _); [done|lia|done|].
    rewrite Hrun. destruct maxRetries as [|m]; [lia|].
    destruct (Hall m ltac:(lia)) as (_ & _ & e & Hfail & _).
    rewrite Hfail. change (isEmptyResult (VObj [])) with true. cbn [default from_option id].
    exists e, c'. cbn [Nat.sub] in *. rewrite ?Nat.sub_0_r in *. done.
Qed.






End ClientTheorems.

Section ClientExamples.
Import JS Translation Spec Samples.

Lemma direct_pass_retries_witness :
  (∃ e c',
     translateBatch no_json (always_400 "bad request") (sample_config "k1" 2 1 false)
                    ["Hello"] "" "" "" defaultMaxRetries fresh_client = (Throw e, c')
     ∧ failureOf no_json (always_400 "bad request" 4) = Some e
     ∧ sleeps (events c') = [1000; 2000; 3000; 4000]
     ∧ fetches (events c') = 5)
  ∧ (∃ c',
       directLoop no_json (always_400 "bad request") (sample_config "k1" 2 1 false)
                  "prompt" 5 5 1 None 0 fresh_client
       = directLoop no_json (always_400 "bad request") (sample_config "k1" 2 1 false)
                    "prompt" 5 4 2 (Some (Error "bad request")) 0 c'
       ∧ events c' = [Acquire; Fetch (Some "k1") "prompt"; Sleep 1000])
  ∧ (∃ c',
       directLoop no_json signal_set (sample_config "k1" 2 1 false)
                  "prompt" 5 5 1 None 0 fresh_client = (Throw cancelled, c')
       ∧ fetches (events c') = 0)
  ∧ (∃ c',
       directLoop no_json aborted_in_flight (sample_config "k1" 2 1 false)
                  "prompt" 5 5 1 None 0 fresh_client = (Throw abortError, c')
       ∧ fetches (events c') = 1
       ∧ sleeps (events c') = []).
Proof.
  split; [|split; [|split]].
  - destruct (direct_pass_retries no_json (always_400 "bad request")
                (sample_config "k1" 2 1 false)) as (_ & _ & _ & _ & Hall).
    apply (Hall ["Hello"] "" "" "" defaultMaxRetries fresh_client).
    + discriminate.
    + discriminate.
    + unfold defaultMaxRetries. lia.
    + intros j _. repeat split. eexists. split; reflexivity.
  - destruct (direct_pass_retries no_json (always_400 "bad request")
                (sample_config "k1" 2 1 false)) as (Hretry & _).
    apply (Hretry "prompt" 5 4 1 None 0 fresh_client (Error "bad request"));
      [lia | discriminate | reflexivity..].
  - destruct (direct_pass_retries no_json signal_set
                (sample_config "k1" 2 1 false)) as (_ & _ & Hcancel & _).
    destruct (Hcancel "prompt" 5 4 1 None 0 fresh_client) as (c' & Hrun & Hf & _).
    + by left.
    + exists c'. split; [exact Hrun | exact Hf].
  - destruct (direct_pass_retries no_json aborted_in_flight
                (sample_config "k1" 2 1 false)) as (_ & _ & _ & Habort & _).
    apply (Habort "prompt" 5 4 1 None 0 fresh_client abortError);
      [discriminate | reflexivity..].
Defined.

(** C4 as stated fails: a response that is not ok whose error message
    contains the word of the cancellation error (here "your subscription
    has been cancelled") is rethrown on the first attempt, without a wait
    and without a second request. *)
Lemma http_error_taken_for_cancellation :
  failureOf no_json (always_400 "您的订阅已取消" 0) = Some (Error "您的订阅已取消")
  ∧ (translateBatch no_json (always_400 "您的订阅已取消") (sample_config "k1" 2 1 false)
       ["Hello"] "" "" "" defaultMaxRetries fresh_client).1
    = Throw (Error "您的订阅已取消")
  ∧ sleeps (events (translateBatch no_json (always_400 "您的订阅已取消")
                      (sample_config "k1" 2 1 false)
                      ["Hello"] "" "" "" defaultMaxRetries fresh_client).2) = []
  ∧ fetches (events (translateBatch no_json (always_400 "您的订阅已取消")
                       (sample_config "k1" 2 1 false)
                       ["Hello"] "" "" "" defaultMaxRetries fresh_client).2) = 1.
Proof. vm_compute. done. Qed.

(** C5, the rotation: with at least one valid key and an index in range,
    the calls of [getNextApiKey] hand out the keys in turn, wrapping at the
    end of the list. *)
Lemma keys_round_robin (apiKeyStr : string) (n i : nat) :
  i < length (validKeys apiKeyStr) →
  keysUsed apiKeyStr n i
  = (fun j => validKeys apiKeyStr !! ((i + j) mod length (validKeys apiKeyStr))) <$> seq 0 n.
Proof.
  revert i. induction n as [|n IH]; intros i Hi; [done|].
  cbn [keysUsed]. unfold getNextApiKey.
  destruct (validKeys apiKeyStr) as [|k ks] eqn:Hkeys; [simpl in Hi; lia|].
  rewrite <- Hkeys in *. cbn [seq fmap list_fmap].
  rewrite Nat.add_0_r, (Nat.mod_small i) by done. f_equal.
  rewrite IH by (apply Nat.mod_upper_bound; lia).
  rewrite <- fmap_S_seq, <- list_fmap_compose. apply list_fmap_ext.
  intros _ j _. simpl. f_equal.
  rewrite Nat.Div0.add_mod_idemp_l. f_equal. lia.
Qed.

(** C5, the configuration error: for the key string "|", which is not
    empty and holds no valid key, [translateBatch] goes through all five
    attempts with the waits between them before it throws the error; no
    request is sent. *)
Lemma zero_keys_error_is_retried :
  validKeys "|" = []
  ∧ translateBatch no_json (always_400 "bad request") (sample_config "|" 2 1 false)
      ["Hello"] "" "" "" defaultMaxRetries fresh_client
    = (Throw noValidKey,
       mkClient 0 5 [Acquire; Sleep 1000; Acquire; Sleep 2000; Acquire; Sleep 3000;
                     Acquire; Sleep 4000; Acquire]).
Proof. vm_compute. done. Qed.



End ClientExamples.



(* ================================================================== *)
(** ** The orchestrator *)
(* ================================================================== *)

Section OrchestratorFacts.
Import JS Controls Spec Samples.
Context {U : Terms.Unicode}.
Variable terms : list Term.

(** [ceil_div n b] is the least number of batches of [b] entries that hold
    [n] entries. *)
Lemma ceil_div_spec (n b : nat) :
  1 ≤ b → n ≤ ceil_div n b * b ∧ (0 < n → (ceil_div n b - 1) * b < n).
Proof.
  intros Hb. unfold ceil_div.
  pose proof (Nat.div_mod_eq (n + b - 1) b) as Hdiv.
  pose proof (Nat.mod_upper_bound (n + b - 1) b ltac:(lia)) as Hmod.
  split; [nia|]. intros Hn.
  destruct ((n + b - 1) / b) as [|q] eqn:Hq; [nia|].
  simpl. rewrite Nat.sub_0_r. nia.
Qed.

Lemma isUntranslated_negb (e : SubtitleEntry) : isUntranslated e = negb (isTranslated e).
Proof.
  unfold isUntranslated, isTranslated. destruct (translatedText e) as [t|]; [|done].
  by rewrite negb_andb, !negb_involutive.
Qed.

Lemma slice_subseteq {A} (a b : nat) (l : list A) : slice a b l ⊆ l.
Proof. unfold slice. etransitivity; [apply subseteq_take | apply subseteq_drop]. Qed.

Lemma planBatch_Some (entries : list SubtitleEntry) (cfg : TranslationConfig)
    (i : nat) (batch : Batch) :
  planBatch terms entries cfg i = Some batch →
  batchIndex batch = i
  ∧ untranslatedEntries batch
    = List.filter isUntranslated
        (slice (i * batchSize cfg)
               (Nat.min (i * batchSize cfg + batchSize cfg) (length entries)) entries)
  ∧ untranslatedEntries batch ≠ []
  ∧ textsToTranslate batch = map text (untranslatedEntries batch).
Proof.
  unfold planBatch. cbv zeta.
  destruct (List.filter isUntranslated _) as [|e es] eqn:Hfilter; [discriminate|].
  intros H. injection H as <-. simpl. done.
Qed.

Lemma planBatch_all_translated (entries : list SubtitleEntry) (cfg : TranslationConfig)
    (i : nat) :
  (∀ e, e ∈ entries → isTranslated e = true) → planBatch terms entries cfg i = None.
Proof.
  intros Hall. unfold planBatch. cbv zeta.
  destruct (List.filter isUntranslated _) as [|e es] eqn:Hfilter; [done|].
  assert (In e (List.filter isUntranslated
                  (slice (i * batchSize cfg)
                         (Nat.min (i * batchSize cfg + batchSize cfg) (length entries))
                         entries))) as Hin.
  { rewrite Hfilter. by left. }
  apply filter_In in Hin as [Hin Hun]. apply list_elem_of_In, slice_subseteq in Hin.
  rewrite isUntranslated_negb, (Hall e Hin) in Hun. discriminate.
Qed.

Lemma allBatches_all_translated (entries : list SubtitleEntry) (cfg : TranslationConfig) :
  (∀ e, e ∈ entries → isTranslated e = true) → allBatches terms entries cfg = [].
Proof.
  intros Hall. unfold allBatches.
  induction (batchIndices entries (batchSize cfg)) as [|i l IH]; [done|].
  simpl. by rewrite (planBatch_all_translated _ _ _ Hall).
Qed.

(** The planning loop as the code has it.  For a batch size of at least 1:
    (1) the planning loop goes through the batch indices from
    floor(c / B) up to ceil(N / B) - 1, where c is the number of entries
    already translated, so through ceil(N / B) - floor(c / B) batches, which
    is ceil(N / B) when fewer than B entries are translated;
    (2) a batch that is sent holds at least one entry, only entries of the
    file whose [translatedText] is blank or missing, and sends their texts;
    (3) when every entry is translated no batch is planned, and a run ends
    without the client having done anything: no request is made. *)
Theorem batches_planned_and_sent :
  (∀ entries B,
     1 ≤ B →
     (∀ i, i ∈ batchIndices entries B
           ↔ countTranslated entries / B ≤ i < ceil_div (length entries) B)
     ∧ length (batchIndices entries B)
       = ceil_div (length entries) B - countTranslated entries / B
     ∧ (countTranslated entries < B →
        length (batchIndices entries B) = ceil_div (length entries) B))
  ∧ (∀ entries cfg batch,
       batch ∈ allBatches terms entries cfg →
       untranslatedEntries batch ≠ []
       ∧ textsToTranslate batch = map text (untranslatedEntries batch)
       ∧ ∀ e, e ∈ untranslatedEntries batch → e ∈ entries ∧ isTranslated e = false)
  ∧ (∀ decode net w cfg entries filename fileTaskId tokensUsed s c,
       entries ≠ [] →
       apiKey cfg ≠ "" →
       Controls.write_create w = DataManager.Stored →
       (∀ e, e ∈ entries → isTranslated e = true) →
       allBatches terms entries cfg = []
       ∧ ∃ r, onStartTranslation terms decode net w cfg entries filename fileTaskId
                                 tokensUsed s c = Finished r
              ∧ client r = c).
Proof.
  split; [|split].
  - intros entries B HB. unfold batchIndices.
    destruct (Nat.eqb_spec B 0) as [->|_]; [lia|]. cbv zeta.
    split; [|split].
    + intros i. rewrite elem_of_seq. lia.
    + by rewrite length_seq.
    + intros Hc. by rewrite length_seq, Nat.div_small, Nat.sub_0_r.
  - intros entries cfg batch Hin. unfold allBatches in Hin.
    apply list_elem_of_omap in Hin as (i & _ & Hplan).
    apply planBatch_Some in Hplan as (_ & Hun & Hne & Htexts).
    split; [done|]. split; [done|].
    intros e He. rewrite Hun in He. apply list_elem_of_In, filter_In in He as [He Hu].
    split.
    + by apply list_elem_of_In, slice_subseteq in He.
    + rewrite isUntranslated_negb in Hu. by destruct (isTranslated e).
  - intros decode net w cfg entries filename fileTaskId tokensUsed s c Hne Hkey Hw Hall.
    split; [by apply allBatches_all_translated|].
    unfold onStartTranslation. destruct entries as [|e0 es]; [done|].
    destruct (apiKey cfg) as [|a k]; [done|]. cbn [is_empty].
    unfold DataManager.createNewTask, DataManager.persist_tasks. rewrite Hw. cbv zeta.
    rewrite (allBatches_all_translated _ _ Hall).
    assert (batchGroups (threadCount cfg) [] = Some []) as -> by (by destruct (threadCount cfg)).
    cbn [concat runBatches]. eexists. split; [reflexivity|]. done.
Qed.

End OrchestratorFacts.

Section OrchestratorExamples.
Import JS Controls Spec Samples.

(** C1 on the code: with four entries of which the second and the third
    are translated and batches of two, the spec's plan (all ceil(4 / 2) = 2
    batches, filtered) sends [One] and [Four]; the planning loop starts at
    batch floor(2 / 2) = 1 and plans the one batch [Four].  The run makes
    one request and ends with the task marked [completed], while the entry
    [One] has never been sent and has no translation, in the run's task and
    in the task the file was imported as. *)
Lemma gapped_run_leaves_an_entry_unsent :
  countTranslated MoreSamples.gapped_entries = 2
  ∧ batchIndices MoreSamples.gapped_entries 2 = [1]
  ∧ ceil_div (length MoreSamples.gapped_entries) 2 = 2
  ∧ textsToTranslate <$> @allBatches Terms.ascii_unicode [] MoreSamples.gapped_entries
                           (sample_config "sk-test" 2 1 false)
    = [["Four"]]
  ∧ textsToTranslate <$> @Props.specBatches Terms.ascii_unicode [] MoreSamples.gapped_entries
                           (sample_config "sk-test" 2 1 false)
    = [["One"]; ["Four"]]
  ∧ ∃ r,
      MoreSamples.gapped_outcome = Finished r
      ∧ fetches (Translation.events (client r)) = 1
      ∧ (map translatedText ∘ subtitle_entries <$> DataManager.getTaskById "task_run" (store r))
        = Some [None; Some "Deux"; Some "Trois"; Some "Quatre"]
      ∧ (status ∘ translation_progress <$> DataManager.getTaskById "task_run" (store r))
        = Some Completed
      ∧ (map translatedText ∘ subtitle_entries
           <$> DataManager.getTaskById "task_import" (store r))
        = Some [None; Some "Deux"; Some "Trois"; Some "Quatre"].
Proof.
  repeat (split; [vm_compute; reflexivity|]).
  eexists. split; [vm_compute; reflexivity|]. vm_compute. done.
Qed.

End OrchestratorExamples.

Section ScenarioFacts.
Import JS DataManager Spec Samples.

(** C2 on the code: after the run of [onStartTranslation] on the two-entry
    scenario, both entries of the run's task carry their translations and
    its status is [completed], but its progress has [completed = 0] and
    [tokens = 0], where the claim has 2 and 42; one request was made.  The
    task the file was imported as has [completed = 2], [tokens = 0] and is
    still [idle]. *)
Lemma scenario_progress_after_run :
  ∃ s,
    scenario_final_store = Some s
    ∧ (map translatedText ∘ subtitle_entries <$> getTaskById "task_run" s)
      = Some [Some "你好"; Some "世界"]
    ∧ (translation_progress <$> getTaskById "task_run" s)
      = Some (mkProgress 0 2 0 Completed None)
    ∧ (translation_progress <$> getTaskById "task_import" s)
      = Some (mkProgress 2 2 0 Idle None).
Proof. eexists. split; [vm_compute; reflexivity|]. vm_compute. done. Qed.

(** The per-file run of the file list reports what the claim expects on the
    same scenario: [completed = 2], [tokens = 42], [completed] status. *)
Lemma scenario_progress_in_file_list :
  ∃ s,
    scenario_file_list = Some s
    ∧ (map translatedText ∘ subtitle_entries <$> getTaskById "task_import" s)
      = Some [Some "你好"; Some "世界"]
    ∧ (translation_progress <$> getTaskById "task_import" s)
      = Some (mkProgress 2 2 42 Completed None).
Proof. eexists. split; [vm_compute; reflexivity|]. vm_compute. done. Qed.

End ScenarioFacts.


(* ================================================================== *)
(** ** Further properties of the task store *)
(* ================================================================== *)

Section TaskStoreProperties.
Import DataManager Spec Props.

Lemma tasks_of_persist (w : Write) (s : Store) :
  batch_tasks (persist_tasks w s).2 = batch_tasks s.
Proof. by destruct w. Qed.

Lemma findTask_other_insert (tid : string) (tasks : list SingleTask) (i : nat)
    (t t' : SingleTask) :
  tasks !! i = Some t → taskId t ≠ tid → taskId t' ≠ tid →
  snd <$> findTask tid (<[i := t']> tasks) = snd <$> findTask tid tasks.
Proof.
  unfold findTask. revert i. induction tasks as [|x tasks IH]; intros i Hi Ht Ht'; [done|].
  destruct i as [|i]; simpl in *.
  - injection Hi as ->. rewrite !decide_False by done.
    by rewrite <- !option_fmap_compose.
  - destruct (decide (taskId x = tid)); [done|].
    rewrite <- !option_fmap_compose. apply (IH i Hi Ht Ht').
Qed.

Lemma getTaskById_filter (tid tid' : string) (tasks : list SingleTask) :
  tid' ≠ tid →
  snd <$> findTask tid' (filter (λ t, taskId t ≠ tid) tasks) = snd <$> findTask tid' tasks.
Proof.
  intros Hne. unfold findTask. induction tasks as [|x tasks IH]; [done|].
  rewrite filter_cons. destruct (decide (taskId x ≠ tid)) as [Hx|Hx]; simpl.
  - destruct (decide (taskId x = tid')); [done|].
    by rewrite <- !option_fmap_compose.
  - rewrite decide_False by (intros Heq; apply Hx; congruence).
    by rewrite <- option_fmap_compose.
Qed.

Lemma filter_all {A} (P : A → Prop) `{!∀ x, Decision (P x)} (l : list A) :
  Forall P l → filter P l = l.
Proof.
  induction 1 as [|x l Hx _ IH]; [done|].
  by rewrite filter_cons, decide_True, IH.
Qed.

(** X1: [createNewTask] with a task id that no task of the store carries:
    afterwards [getTaskById] finds under that id the new task, with the
    entries and the file name given, progress 0 of N, no tokens, status
    [idle]; every other id is looked up as before.  When the write to
    [localforage] is rejected the call throws, the durable copy is as it
    was, and the task is in memory all the same. *)
Theorem created_task_is_found (filename : string) (entries : list SubtitleEntry)
    (idx : nat) (freshId : string) (w : Write) (s : Store) :
  freshId ∉ (taskId <$> batch_tasks s) →
  let r := createNewTask filename entries idx freshId w s in
  getTaskById freshId r.2
  = Some (mkTask freshId entries filename (mkProgress 0 (length entries) 0 Idle None) idx)
  ∧ (∀ tid, tid ≠ freshId → getTaskById tid r.2 = getTaskById tid s)
  ∧ match w with
    | Stored => r.1 = Return freshId ∧ disk_batch_tasks r.2 = Some (batch_tasks r.2)
    | Rejected e => r.1 = Throw e ∧ disk_batch_tasks r.2 = disk_batch_tasks s
    end.
Proof.
  intros Hfresh r.
  assert (Htasks : batch_tasks r.2 = batch_tasks s ++
            [mkTask freshId entries filename (mkProgress 0 (length entries) 0 Idle None) idx]).
  { subst r. unfold createNewTask. by destruct w. }
  apply findTask_absent in Hfresh. unfold findTask in Hfresh.
  split; [|split].
  - unfold getTaskById, findTask. rewrite Htasks.
    rewrite list_find_app_r by done. simpl. by rewrite decide_True.
  - intros tid Hne. unfold getTaskById, findTask. rewrite Htasks.
    destruct (list_find (λ t, taskId t = tid) (batch_tasks s)) as [[i t]|] eqn:Hfind.
    + by rewrite (list_find_app_l _ _ _ _ _ Hfind).
    + rewrite list_find_app_r by done. simpl. by rewrite decide_False.
  - subst r. unfold createNewTask. by destruct w.
Qed.

Lemma created_task_is_found_witness :
  getTaskById "task_b"
    (createNewTask "b.srt" [Samples.sample_entry 1 None] 1 "task_b"
       (Rejected (JS.Error "quota")) Samples.sample_store).2
  = Some (mkTask "task_b" [Samples.sample_entry 1 None] "b.srt" (mkProgress 0 1 0 Idle None) 1).
Proof.
  refine (proj1 (created_task_is_found "b.srt" [Samples.sample_entry 1 None] 1 "task_b"
                   (Rejected (JS.Error "quota")) Samples.sample_store _)).
  simpl. rewrite list_elem_of_singleton. discriminate.
Defined.

(** X2: after [removeTask] no task is found under the id, whatever the
    write does; tasks with another id are looked up as before and keep
    their order; for an id the store does not know the task list is
    unchanged.  A rejected write is rethrown and leaves the durable copy
    as it was. *)
Theorem removed_task_is_gone (tid : string) (w : Write) (s : Store) :
  let r := removeTask tid w s in
  getTaskById tid r.2 = None
  ∧ (∀ tid', tid' ≠ tid → getTaskById tid' r.2 = getTaskById tid' s)
  ∧ batch_tasks r.2 `sublist_of` batch_tasks s
  ∧ (tid ∉ (taskId <$> batch_tasks s) → batch_tasks r.2 = batch_tasks s)
  ∧ match w with
    | Stored => r.1 = Return () ∧ disk_batch_tasks r.2 = Some (batch_tasks r.2)
    | Rejected e => r.1 = Throw e ∧ disk_batch_tasks r.2 = disk_batch_tasks s
    end.
Proof.
  intros r.
  assert (Htasks : batch_tasks r.2 = filter (λ t, taskId t ≠ tid) (batch_tasks s)).
  { subst r. unfold removeTask. by rewrite tasks_of_persist. }
  split; [|split; [|split; [|split]]].
  - unfold getTaskById. rewrite Htasks.
    assert (findTask tid (filter (λ t, taskId t ≠ tid) (batch_tasks s)) = None) as ->; [|done].
    apply list_find_None, Forall_forall. intros t Ht.
    apply list_elem_of_filter in Ht as [Ht _]. done.
  - intros tid' Hne. unfold getTaskById. rewrite Htasks. by apply getTaskById_filter.
  - rewrite Htasks. apply sublist_filter.
  - intros Habs. rewrite Htasks.
    apply filter_all, Forall_forall. intros t Ht Heq. apply Habs.
    rewrite <- Heq. by apply list_elem_of_fmap_2.
  - subst r. unfold removeTask. by destruct w.
Qed.

Lemma removed_task_is_gone_witness :
  getTaskById "task_a"
    (removeTask "task_b" Stored
       (createNewTask "b.srt" [] 1 "task_b" Stored Samples.sample_store).2).2
  = getTaskById "task_a" (createNewTask "b.srt" [] 1 "task_b" Stored Samples.sample_store).2.
Proof.
  apply (proj1 (proj2 (removed_task_is_gone "task_b" Stored
                  (createNewTask "b.srt" [] 1 "task_b" Stored Samples.sample_store).2))).
  discriminate.
Defined.

Lemma updateOne_keeps {A} (f : SubtitleEntry → A) entryId newText newTranslated entries :
  (∀ e, f (rewriteEntry e newText newTranslated) = f e) →
  map f (updateOne entryId newText newTranslated entries) = map f entries.
Proof.
  intros Hf. unfold updateOne. rewrite map_map. apply map_ext.
  intros e. by destruct (id e =? entryId).
Qed.

Lemma updateMany_keeps {A} (f : SubtitleEntry → A) updates entries :
  (∀ e newText newTranslated, f (rewriteEntry e newText newTranslated) = f e) →
  map f (updateMany updates entries) = map f entries.
Proof.
  intros Hf. unfold updateMany. rewrite map_map. apply map_ext.
  intros e. by destruct (List.find _ updates).
Qed.

Lemma same_shape_refl (t : SingleTask) : same_shape t t.
Proof. by repeat split. Qed.

Lemma same_shape_withProgress (t : SingleTask) (p : Progress) : same_shape t (withProgress t p).
Proof. by repeat split. Qed.

Lemma same_shape_updateOne (t : SingleTask) entryId newText newTranslated :
  same_shape t (withEntries t (updateOne entryId newText newTranslated (subtitle_entries t))).
Proof. repeat split; simpl; by apply updateOne_keeps. Qed.

Lemma same_shape_updateMany (t : SingleTask) updates :
  same_shape t (withEntries t (updateMany updates (subtitle_entries t))).
Proof. repeat split; simpl; by apply updateMany_keeps. Qed.

(** What an operation does to the task list, with the shape of the new task. *)
Lemma applyTaskOp_shape (tid : string) (op : TaskOp) (s : Store) :
  match findTask tid (batch_tasks s) with
  | None => batch_tasks (applyTaskOp tid op s) = batch_tasks s
  | Some (i, t) =>
      ∃ t', batch_tasks (applyTaskOp tid op s) = <[i := t']> (batch_tasks s)
            ∧ same_shape t t'
  end.
Proof.
  destruct (findTask tid (batch_tasks s)) as [[i t]|] eqn:Hfind;
    destruct op as [e x tt|e x tt w|us|ft w|u|u w]; simpl;
      unfold updateTaskSubtitleEntry, updateTaskSubtitleEntryInMemory,
             batchUpdateTaskSubtitleEntries, completeTask,
             updateTaskTranslationProgress, updateTaskTranslationProgressInMemory;
      rewrite ?Hfind; try rewrite tasks_of_persist; simpl; try done;
      eexists; (split; [reflexivity|]);
      auto using same_shape_updateOne, same_shape_updateMany, same_shape_withProgress.
Qed.

(** X3: the six operations that update a task ([updateTaskSubtitleEntry]
    and [updateTaskTranslationProgress] with their in-memory variants,
    [batchUpdateTaskSubtitleEntries], [completeTask]) never add, remove or
    reorder tasks or entries: position by position the tasks keep their id,
    file name and index, and their entries keep their ids and times.  They
    touch neither the terms list nor the history. *)
Theorem task_ops_keep_shape (tid : string) (op : TaskOp) (s : Store) :
  Forall2 same_shape (batch_tasks s) (batch_tasks (applyTaskOp tid op s))
  ∧ taskId <$> batch_tasks (applyTaskOp tid op s) = taskId <$> batch_tasks s
  ∧ terms_list (applyTaskOp tid op s) = terms_list s
  ∧ translation_history (applyTaskOp tid op s) = translation_history s.
Proof.
  pose proof (applyTaskOp_shape tid op s) as Hop.
  assert (Hshape : Forall2 same_shape (batch_tasks s) (batch_tasks (applyTaskOp tid op s))).
  { destruct (findTask tid (batch_tasks s)) as [[i t]|] eqn:Hfind.
    - destruct Hop as (t' & -> & Hs). apply findTask_same_id in Hfind as [_ Hi].
      rewrite <- (list_insert_id _ _ _ Hi) at 1.
      apply Forall2_insert; [|done].
      apply Forall_Forall2_diag, Forall_forall. intros; apply same_shape_refl.
    - rewrite Hop. apply Forall_Forall2_diag, Forall_forall. intros; apply same_shape_refl. }
  split; [done|]. split.
  - clear Hop. induction Hshape as [|t t' l l' Ht _ IH]; [done|].
    rewrite !fmap_cons, IH. f_equal. apply Ht.
  - destruct op as [e x tt|e x tt w|us|ft w|u|u w]; simpl;
      unfold updateTaskSubtitleEntry, updateTaskSubtitleEntryInMemory,
             batchUpdateTaskSubtitleEntries, completeTask,
             updateTaskTranslationProgress, updateTaskTranslationProgressInMemory;
      destruct (findTask tid (batch_tasks s)) as [[i t]|]; try destruct w; done.
Qed.

End TaskStoreProperties.

Section TaskStoreProperties2.
Import DataManager Spec Props.

Lemma getTaskById_updated (tid : string) (s : Store) (i : nat) (t t' : SingleTask) :
  findTask tid (batch_tasks s) = Some (i, t) → taskId t' = tid →
  getTaskById tid (with_tasks s (<[i := t']> (batch_tasks s))) = Some t'.
Proof.
  intros Hfind Hid. unfold getTaskById. simpl.
  by rewrite (findTask_insert tid _ i t t' Hfind Hid).
Qed.

Lemma countTranslated_ext (es es' : list SubtitleEntry) :
  map translatedText es' = map translatedText es →
  countTranslated es' = countTranslated es.
Proof.
  unfold countTranslated. revert es'.
  induction es as [|e es IH]; intros [|e' es'] Heq; try done.
  simpl in Heq. injection Heq as He Hes. simpl.
  assert (isTranslated e' = isTranslated e) as -> by (unfold isTranslated; by rewrite He).
  destruct (isTranslated e); simpl; by rewrite (IH es' Hes).
Qed.

(** X4: an update of an entry that carries no [translatedText]
    ([undefined]) changes texts only: every entry of the task keeps its
    translation, the recounted [completed] is the count it was for the old
    entries, the entries with the id get the new text and the others are
    entries the task had. *)
Theorem text_only_update_keeps_translations (tid : string) (entryId : nat)
    (newText : string) (s : Store) (t : SingleTask) :
  getTaskById tid s = Some t →
  ∃ t',
    getTaskById tid (updateTaskSubtitleEntryInMemory tid entryId newText None s) = Some t'
    ∧ map translatedText (subtitle_entries t') = map translatedText (subtitle_entries t)
    ∧ completed (translation_progress t') = countTranslated (subtitle_entries t)
    ∧ (∀ e, e ∈ subtitle_entries t' → id e = entryId → text e = newText)
    ∧ (∀ e, e ∈ subtitle_entries t' → id e ≠ entryId → e ∈ subtitle_entries t).
Proof.
  unfold getTaskById. intros Hget.
  destruct (findTask tid (batch_tasks s)) as [[i t0]|] eqn:Hfind; [|done].
  simpl in Hget. injection Hget as ->.
  apply findTask_same_id in Hfind as Hid. destruct Hid as [Hid _].
  unfold updateTaskSubtitleEntryInMemory. rewrite Hfind.
  eexists. split; [by apply (getTaskById_updated tid s i t)|]. simpl.
  assert (Htr : map translatedText (updateOne entryId newText None (subtitle_entries t))
                = map translatedText (subtitle_entries t)) by by apply updateOne_keeps.
  split; [done|]. split.
  - by apply countTranslated_ext.
  - split; intros e He Hcase; unfold updateOne in He;
      apply list_elem_of_In, in_map_iff in He as (e0 & He0 & Hin);
      destruct (id e0 =? entryId) eqn:Hcmp; subst e; simpl in *.
    + done.
    + apply Nat.eqb_neq in Hcmp. done.
    + apply Nat.eqb_eq in Hcmp. done.
    + by apply list_elem_of_In.
Qed.

Lemma text_only_update_keeps_translations_witness :
  ∃ t',
    getTaskById "task_a"
      (updateTaskSubtitleEntryInMemory "task_a" 1 "Hi" None
         (updateTaskSubtitleEntryInMemory "task_a" 1 "Hello" (Some "Bonjour")
            Samples.sample_store)) = Some t'
    ∧ map translatedText (subtitle_entries t') = [Some "Bonjour"]
    ∧ completed (translation_progress t') = 1.
Proof.
  destruct (text_only_update_keeps_translations "task_a" 1 "Hi"
              (updateTaskSubtitleEntryInMemory "task_a" 1 "Hello" (Some "Bonjour")
                 Samples.sample_store)
              (mkTask "task_a" [Samples.sample_entry 1 (Some "Bonjour")] "a.srt"
                      (mkProgress 1 1 0 Idle None) 0) eq_refl)
    as (t' & Hget & Htr & Hc & _).
  exists t'. split; [exact Hget|]. split; [exact Htr | exact Hc].
Defined.

(** *** A batch update and the single updates *)

Lemma updateMany_cons (u : EntryUpdate) (updates : list EntryUpdate)
    (entries : list SubtitleEntry) :
  upd_id u ∉ (upd_id <$> updates) →
  updateMany (u :: updates) entries
  = updateMany updates (updateOne (upd_id u) (upd_text u) (upd_translatedText u) entries).
Proof.
  intros Hfresh. unfold updateMany, updateOne. rewrite map_map. apply map_ext.
  intros e. simpl. destruct (upd_id u =? id e) eqn:Hcmp.
  - rewrite Nat.eqb_sym, Hcmp. simpl.
    assert (List.find (λ u0, upd_id u0 =? id e) updates = None) as ->; [|done].
    apply Nat.eqb_eq in Hcmp. rewrite <- Hcmp.
    clear -Hfresh. induction updates as [|u' us IH]; [done|].
    simpl. rewrite fmap_cons in Hfresh. apply not_elem_of_cons in Hfresh as [Hne Hfresh].
    destruct (upd_id u' =? upd_id u) eqn:Hcmp; [apply Nat.eqb_eq in Hcmp; congruence|].
    by apply IH.
  - by rewrite Nat.eqb_sym, Hcmp.
Qed.

Lemma updateOne_length entryId newText newTranslated entries :
  length (updateOne entryId newText newTranslated entries) = length entries.
Proof. unfold updateOne. by rewrite length_map. Qed.

Lemma updateMany_length updates entries :
  length (updateMany updates entries) = length entries.
Proof. unfold updateMany. by rewrite length_map. Qed.

Lemma withEntries_twice (t : SingleTask) (es1 es2 : list SubtitleEntry) :
  length es1 = length es2 →
  withEntries (withEntries t es1) es2 = withEntries t es2.
Proof.
  intros Hlen. unfold withEntries. simpl. f_equal. f_equal.
  destruct (total (translation_progress t) =? 0) eqn:Htot; [|by rewrite Htot].
  destruct (length es1 =? 0) eqn:Hz; [done|]. done.
Qed.

Lemma with_tasks_twice (s : Store) (a b : list SingleTask) :
  with_tasks (with_tasks s a) b = with_tasks s b.
Proof. done. Qed.

Lemma applyUpdates_found (tid : string) (updates : list EntryUpdate) (s : Store)
    (i : nat) (t : SingleTask) (u : EntryUpdate) :
  findTask tid (batch_tasks s) = Some (i, t) →
  NoDup (upd_id <$> u :: updates) →
  Controls.applyUpdates tid (u :: updates) s
  = with_tasks s (<[i := withEntries t (updateMany (u :: updates) (subtitle_entries t))]>
                    (batch_tasks s)).
Proof.
  revert s t u. induction updates as [|u' updates IH]; intros s t u Hfind Hnd.
  - unfold Controls.applyUpdates. simpl. unfold updateTaskSubtitleEntryInMemory.
    rewrite Hfind. rewrite updateMany_cons by (simpl; apply not_elem_of_nil).
    unfold updateMany at 1. simpl. by rewrite map_id.
  - rewrite fmap_cons in Hnd. apply NoDup_cons in Hnd as [Hfresh Hnd].
    rewrite (updateMany_cons u) by done.
    change (Controls.applyUpdates tid (u :: u' :: updates) s)
      with (Controls.applyUpdates tid (u' :: updates)
              (updateTaskSubtitleEntryInMemory tid (upd_id u) (upd_text u)
                 (upd_translatedText u) s)).
    unfold updateTaskSubtitleEntryInMemory at 1. rewrite Hfind.
    apply findTask_same_id in Hfind as Hid. destruct Hid as [Hid _].
    erewrite IH; [|simpl; by apply (findTask_insert tid _ i t)|done].
    simpl. rewrite with_tasks_twice, list_insert_insert_eq.
    rewrite withEntries_twice; [done|].
    by rewrite updateMany_length.
Qed.

(** X5: for updates that are not empty and name every entry id at most
    once, [batchUpdateTaskSubtitleEntries] leaves the store as the single
    in-memory updates do when applied one after the other (which is what
    [updateEntry] does for each update of a batch). *)
Theorem batch_update_is_the_single_updates (tid : string) (updates : list EntryUpdate)
    (s : Store) :
  updates ≠ [] → NoDup (upd_id <$> updates) →
  batchUpdateTaskSubtitleEntries tid updates s = Controls.applyUpdates tid updates s.
Proof.
  intros Hne Hnd. destruct updates as [|u updates]; [done|].
  unfold batchUpdateTaskSubtitleEntries.
  destruct (findTask tid (batch_tasks s)) as [[i t]|] eqn:Hfind.
  - by rewrite (applyUpdates_found tid updates s i t u Hfind Hnd).
  - clear Hne Hnd. generalize (u :: updates). intros l.
    induction l as [|u' l IH]; [done|].
    unfold Controls.applyUpdates. simpl.
    unfold updateTaskSubtitleEntryInMemory at 2. rewrite Hfind. apply IH.
Qed.

Lemma batch_update_is_the_single_updates_witness :
  batchUpdateTaskSubtitleEntries "task_import"
    [mkEntryUpdate 1 "Hello" (Some "你好"); mkEntryUpdate 2 "World" (Some "世界")]
    Samples.scenario_store
  = Controls.applyUpdates "task_import"
      [mkEntryUpdate 1 "Hello" (Some "你好"); mkEntryUpdate 2 "World" (Some "世界")]
      Samples.scenario_store.
Proof.
  apply batch_update_is_the_single_updates; [discriminate|].
  simpl. apply NoDup_cons. split.
  - rewrite list_elem_of_singleton. discriminate.
  - apply NoDup_singleton.
Defined.

(** X6: [completeTask] on a task of the store: its status becomes
    [completed], [completed] is counted from the entries, the tokens are the
    larger of the given and the stored count (so they never go down), total
    and entries stay; completing again with the same count changes nothing
    in memory.  This holds when the write is rejected, too. *)
Theorem completeTask_marks_completed (tid : string) (finalTokens : nat) (w : Write)
    (s : Store) (t : SingleTask) :
  getTaskById tid s = Some t →
  ∃ t',
    getTaskById tid (completeTask tid finalTokens w s).2 = Some t'
    ∧ status (translation_progress t') = Completed
    ∧ completed (translation_progress t') = countTranslated (subtitle_entries t)
    ∧ tokens (translation_progress t') = Nat.max finalTokens (tokens (translation_progress t))
    ∧ tokens (translation_progress t) ≤ tokens (translation_progress t')
    ∧ total (translation_progress t') = total (translation_progress t)
    ∧ subtitle_entries t' = subtitle_entries t
    ∧ ∀ w', batch_tasks (completeTask tid finalTokens w' (completeTask tid finalTokens w s).2).2
            = batch_tasks (completeTask tid finalTokens w s).2.
Proof.
  unfold getTaskById. intros Hget.
  destruct (findTask tid (batch_tasks s)) as [[i t0]|] eqn:Hfind; [|done].
  simpl in Hget. injection Hget as ->.
  apply findTask_same_id in Hfind as Hid. destruct Hid as [Hid Hi].
  set (t' := withProgress t
               (mkProgress (countTranslated (subtitle_entries t))
                  (total (translation_progress t))
                  (Nat.max finalTokens (tokens (translation_progress t))) Completed
                  (current_index (translation_progress t)))).
  assert (Hres : completeTask tid finalTokens w s
                 = persist_tasks w (with_tasks s (<[i := t']> (batch_tasks s)))).
  { unfold completeTask. by rewrite Hfind. }
  rewrite Hres.
  assert (Hs' : batch_tasks (persist_tasks w (with_tasks s (<[i := t']> (batch_tasks s)))).2
                = <[i := t']> (batch_tasks s)) by by rewrite tasks_of_persist.
  assert (Hfind' : findTask tid (<[i := t']> (batch_tasks s)) = Some (i, t'))
    by by apply (findTask_insert tid _ i t).
  exists t'. rewrite Hs', Hfind'.
  repeat split; try done.
  - simpl. lia.
  - intros w'. unfold completeTask. rewrite Hs', Hfind'.
    rewrite !tasks_of_persist. cbn [batch_tasks with_tasks].
    rewrite list_insert_insert_eq.
    f_equal. subst t'. unfold withProgress. simpl. f_equal. f_equal. lia.
Qed.

Lemma completeTask_marks_completed_witness :
  ∃ t',
    getTaskById "task_a" (completeTask "task_a" 7 (Rejected (JS.Error "quota"))
                            Samples.sample_store).2 = Some t'
    ∧ status (translation_progress t') = Completed
    ∧ tokens (translation_progress t') = 7.
Proof.
  destruct (completeTask_marks_completed "task_a" 7 (Rejected (JS.Error "quota"))
              Samples.sample_store _ eq_refl) as (t' & Hget & Hst & _ & Htok & _).
  exists t'. split; [exact Hget|]. split; [exact Hst | exact Htok].
Defined.

End TaskStoreProperties2.

(* ================================================================== *)
(** ** The history view and the data manager *)
(* ================================================================== *)

Section HistoryViewProperties.
Import DataManager HistoryView.

Lemma find_filter_keeps {A} (P Q : A → Prop) `{!∀ x, Decision (P x)} `{!∀ x, Decision (Q x)}
    (l : list A) :
  (∀ x, P x → Q x) →
  snd <$> list_find P (filter Q l) = snd <$> list_find P l.
Proof.
  intros HPQ. induction l as [|x l IH]; [done|].
  rewrite filter_cons. destruct (decide (Q x)) as [Hx|Hx]; simpl.
  - destruct (decide (P x)); [done|]. by rewrite <- !option_fmap_compose.
  - rewrite decide_False by (intros HP; by apply Hx, HPQ).
    by rewrite <- option_fmap_compose.
Qed.

Lemma find_filter_drops {A} (P Q : A → Prop) `{!∀ x, Decision (P x)} `{!∀ x, Decision (Q x)}
    (l : list A) :
  (∀ x, P x → ¬ Q x) → list_find P (filter Q l) = None.
Proof.
  intros HPQ. apply list_find_None, Forall_forall. intros x Hx HP.
  apply list_elem_of_filter in Hx as [HQ _]. by apply (HPQ x).
Qed.

Lemma find_added_history (entry : HistoryInput) (now : nat) (w : Write) (s : Store) :
  snd <$> list_find (λ h, hist_taskId h = in_taskId entry)
            (translation_history (DataManager.addHistoryEntry entry now w s).2)
  = Some (stamp entry now).
Proof.
  rewrite addHistoryEntry_history.
  destruct (list_find _ (translation_history s)) as [[i old]|] eqn:Hfind.
  - assert (list_find (λ h, hist_taskId h = in_taskId entry)
              (<[i := stamp entry now]> (translation_history s))
            = Some (i, stamp entry now)) as ->; [|done].
    apply list_find_Some in Hfind as (Hi & _ & Hbefore).
    apply list_find_insert_Some. right; left.
    repeat split; try done. by eapply lookup_lt_Some.
  - simpl. by rewrite decide_True.
Qed.

(** X8: when the history view shows the history of the data manager, it
    still does after [addHistoryEntry] with a successful write, after
    [deleteHistoryEntry] and after [clearHistory].  When the write of
    [addHistoryEntry] is rejected, the view keeps its list and reports the
    error, while the data manager holds the new entry in memory only. *)
Theorem history_view_follows_store (state : HistoryState) (s : Store) :
  history state = translation_history s →
  (∀ entry now,
     let r := addHistoryEntry entry now Stored state s in
     history r.1 = translation_history r.2
     ∧ error r.1 = error state
     ∧ disk_history r.2 = Some (translation_history r.2))
  ∧ (∀ entry now e,
       let r := addHistoryEntry entry now (Rejected e) state s in
       history r.1 = history state
       ∧ error r.1 = Some "保存历史记录失败"
       ∧ stamp entry now ∈ translation_history r.2
       ∧ disk_history r.2 = disk_history s)
  ∧ (∀ tid w,
       let r := deleteHistoryEntry tid w state s in
       history r.1.2 = translation_history r.2)
  ∧ (∀ w,
       let r := clearHistory w state s in
       history r.1.2 = [] ∧ translation_history r.2 = []).
Proof.
  intros Hsync. split; [|split; [|split]].
  - intros entry now. simpl. unfold addHistoryEntry, DataManager.addHistoryEntry. simpl.
    done.
  - intros entry now e r. subst r.
    pose proof (find_added_history entry now (Rejected e) s) as Hfound.
    unfold addHistoryEntry. unfold DataManager.addHistoryEntry in *. simpl in *.
    repeat split; try done.
    destruct (list_find _ (match list_find _ _ with Some _ => _ | None => _ end))
      as [[j h]|] eqn:Hj; [|done].
    simpl in Hfound. injection Hfound as ->.
    apply list_find_Some in Hj as (Hj & _). by eapply list_elem_of_lookup_2.
  - intros tid w. unfold deleteHistoryEntry, DataManager.deleteHistoryEntry.
    destruct w; simpl; by rewrite Hsync.
  - intros w. unfold clearHistory, DataManager.clearHistory. by destruct w.
Qed.

Lemma history_view_follows_store_witness :
  history (addHistoryEntry (mkHistoryInput "task_c" "c.srt" 1 3 Samples.sample_snapshot) 300
             (Rejected (JS.Error "quota"))
             MoreSamples.mounted_history Samples.sample_history).1
  = history MoreSamples.mounted_history
  ∧ stamp (mkHistoryInput "task_c" "c.srt" 1 3 Samples.sample_snapshot) 300
    ∈ translation_history
        (addHistoryEntry (mkHistoryInput "task_c" "c.srt" 1 3 Samples.sample_snapshot) 300
           (Rejected (JS.Error "quota"))
           MoreSamples.mounted_history Samples.sample_history).2.
Proof.
  destruct (history_view_follows_store MoreSamples.mounted_history
              Samples.sample_history eq_refl) as (_ & Hrej & _).
  destruct (Hrej (mkHistoryInput "task_c" "c.srt" 1 3 Samples.sample_snapshot) 300
              (JS.Error "quota")) as (Hview & _ & Hstore & _).
  split; [exact Hview | exact Hstore].
Defined.

(** X9: [loadHistoryEntry] returns the entry just added (stamped with
    the time of the call) under its task id; after [deleteHistoryEntry] it
    returns nothing for the deleted id and what it returned before for any
    other id; after [clearHistory] it returns nothing. *)
Theorem history_entry_round_trip (state : HistoryState) (s : Store) :
  (∀ entry now,
     loadHistoryEntry (in_taskId entry) (addHistoryEntry entry now Stored state s).1
     = Some (stamp entry now))
  ∧ (∀ tid w,
       loadHistoryEntry tid (deleteHistoryEntry tid w state s).1.2 = None)
  ∧ (∀ tid tid' w,
       tid' ≠ tid →
       loadHistoryEntry tid' (deleteHistoryEntry tid w state s).1.2
       = loadHistoryEntry tid' state)
  ∧ (∀ tid w, loadHistoryEntry tid (clearHistory w state s).1.2 = None).
Proof.
  split; [|split; [|split]].
  - intros entry now. unfold loadHistoryEntry.
    pose proof (find_added_history entry now Stored s) as Hfound.
    unfold addHistoryEntry. unfold DataManager.addHistoryEntry in *. simpl in *. done.
  - intros tid w. unfold loadHistoryEntry, deleteHistoryEntry.
    destruct (DataManager.deleteHistoryEntry tid w s) as [r s']. simpl.
    rewrite find_filter_drops; [done|]. intros h Hh Hne. done.
  - intros tid tid' w Hne. unfold loadHistoryEntry, deleteHistoryEntry.
    destruct (DataManager.deleteHistoryEntry tid w s) as [r s']. simpl.
    apply find_filter_keeps. intros h Hh. congruence.
  - intros tid w. unfold loadHistoryEntry, clearHistory.
    by destruct (DataManager.clearHistory w s) as [r s'].
Qed.

Lemma history_entry_round_trip_witness :
  loadHistoryEntry "task_a"
    (deleteHistoryEntry "task_b" Stored
       MoreSamples.mounted_history Samples.sample_history).1.2
  = loadHistoryEntry "task_a" MoreSamples.mounted_history.
Proof.
  apply (proj1 (proj2 (proj2 (history_entry_round_trip
           MoreSamples.mounted_history Samples.sample_history)))).
  discriminate.
Defined.

End HistoryViewProperties.

(* ================================================================== *)
(** ** The terms list and the terms provider *)
(* ================================================================== *)

Section TermsListProperties.
Import DataManager TermsList.

Lemma terms_of_persist (w : Write) (item : option (list Term)) (s : Store) :
  terms_list (persist_terms w item s).2 = terms_list s.
Proof. by destruct w. Qed.

Lemma filter_index_all {A} (keep : nat → bool) (j : nat) (m : list A) :
  (∀ i, j ≤ i → keep i = true) → filter_index keep j m = m.
Proof.
  revert j. induction m as [|z m IH]; intros j Hkeep; simpl; [done|].
  rewrite Hkeep by lia. f_equal. apply IH. intros i Hi. apply Hkeep. lia.
Qed.

Lemma filter_index_delete {A} (index k : nat) (l : list A) :
  filter_index (fun i => negb (i =? k + index)) k l = take index l ++ drop (S index) l.
Proof.
  revert index k. induction l as [|x l IH]; intros index k; simpl.
  - by destruct index.
  - destruct index as [|index]; simpl.
    + rewrite Nat.add_0_r, Nat.eqb_refl. simpl. rewrite drop_0.
      apply filter_index_all. intros i Hi. apply negb_true_iff, Nat.eqb_neq. lia.
    + assert ((k =? k + S index) = false) as -> by (apply Nat.eqb_neq; lia). simpl.
      f_equal. replace (k + S index) with (S k + index) by lia. apply IH.
Qed.

Lemma imap_insert {A} (index : nat) (x : A) (l : list A) :
  imap (fun i t => if i =? index then x else t) l = <[index := x]> l.
Proof.
  revert index. induction l as [|y l IH]; intros index; [done|].
  rewrite imap_cons. destruct index as [|index]; simpl.
  - f_equal. clear IH. induction l as [|z l IH]; [done|].
    rewrite imap_cons. simpl. f_equal. rewrite <- IH at 2. by apply imap_ext.
  - f_equal. rewrite <- IH. by apply imap_ext.
Qed.

(** X10: when the terms provider shows the terms list of the data
    manager, it still does after [addTerm] (the term goes last),
    [removeTerm] (the term at the index is dropped, for any index),
    [updateTerm] at an index inside the list, [clearTerms] and
    [importTerms], whatever the write does. *)
Theorem terms_view_follows_store (state : TermsView.TermsState) (s : Store) :
  TermsView.terms state = terms_list s →
  (∀ original translation w,
     let r := TermsView.addTerm original translation w state s in
     TermsView.terms r.1.2 = terms_list r.2
     ∧ terms_list r.2 = terms_list s ++ [mkTerm original translation])
  ∧ (∀ index w,
       let r := TermsView.removeTerm index w state s in
       TermsView.terms r.1.2 = terms_list r.2
       ∧ terms_list r.2 = take index (terms_list s) ++ drop (S index) (terms_list s))
  ∧ (∀ index original translation w,
       index < length (terms_list s) →
       ∃ r, TermsView.updateTerm index original translation w state s = Some r
            ∧ TermsView.terms r.1.2 = terms_list r.2
            ∧ terms_list r.2 = <[index := mkTerm original translation]> (terms_list s))
  ∧ (∀ w,
       let r := TermsView.clearTerms w state s in
       TermsView.terms r.1.2 = [] ∧ terms_list r.2 = []
       ∧ (w = Stored → disk_terms r.2 = None))
  ∧ (∀ termsText w,
       let r := TermsView.importTerms termsText w state s in
       TermsView.terms r.1 = terms_list r.2 ∧ terms_list r.2 = TermsView.parseTerms termsText).
Proof.
  intros Hsync. split; [|split; [|split; [|split]]].
  - intros original translation w. unfold TermsView.addTerm, addTerm.
    destruct w; simpl; by rewrite Hsync.
  - intros index w. unfold TermsView.removeTerm, removeTerm.
    pose proof (filter_index_delete index 0 (terms_list s)) as Hdel. simpl in Hdel.
    destruct w; simpl; by rewrite Hsync, Hdel.
  - intros index original translation w Hlt.
    unfold TermsView.updateTerm, updateTerm, assign.
    apply Nat.ltb_lt in Hlt as Hltb. rewrite Hltb. simpl.
    destruct w; simpl; eexists; (split; [reflexivity|]); simpl;
      by rewrite imap_insert, Hsync.
  - intros w. unfold TermsView.clearTerms, clearTerms. by destruct w.
  - intros termsText w. unfold TermsView.importTerms, saveTerms. by destruct w.
Qed.

Lemma terms_view_follows_store_witness :
  ∃ r, TermsView.updateTerm 0 "cat" "minou" Stored
         MoreSamples.one_term_view MoreSamples.one_term_store = Some r
       ∧ TermsView.terms r.1.2 = terms_list r.2
       ∧ terms_list r.2 = [mkTerm "cat" "minou"].
Proof.
  destruct (terms_view_follows_store MoreSamples.one_term_view MoreSamples.one_term_store
              eq_refl) as (_ & _ & Hupd & _).
  apply (Hupd 0 "cat" "minou" Stored). simpl. lia.
Defined.

(** X11: [updateTerm] at the index just past the end: the reducer's
    [map] leaves the view's list as it is, while the data manager's
    assignment appends the term, so that view and store differ
    afterwards. *)
Theorem update_past_the_end_parts_view_and_store (state : TermsView.TermsState) (s : Store)
    (original translation : string) (w : Write) :
  TermsView.terms state = terms_list s →
  ∃ r, TermsView.updateTerm (length (terms_list s)) original translation w state s = Some r
       ∧ TermsView.terms r.1.2 = TermsView.terms state
       ∧ terms_list r.2 = terms_list s ++ [mkTerm original translation]
       ∧ TermsView.terms r.1.2 ≠ terms_list r.2.
Proof.
  intros Hsync. unfold TermsView.updateTerm, updateTerm, assign.
  rewrite Nat.ltb_irrefl, Nat.eqb_refl. simpl.
  assert (Hview : imap (fun i t => if i =? length (terms_list s)
                                   then mkTerm original translation else t) (TermsView.terms state)
                  = TermsView.terms state).
  { rewrite imap_insert, Hsync. apply list_insert_ge. lia. }
  destruct w; simpl; eexists; (split; [reflexivity|]); simpl; rewrite Hview;
    repeat split; try done;
    rewrite Hsync; intros Heq; apply (f_equal length) in Heq;
    rewrite length_app in Heq; simpl in Heq; lia.
Qed.

Lemma update_past_the_end_parts_view_and_store_witness :
  ∃ r, TermsView.updateTerm 1 "dog" "chien" Stored
         MoreSamples.one_term_view MoreSamples.one_term_store = Some r
       ∧ TermsView.terms r.1.2 = [mkTerm "cat" "chat"]
       ∧ terms_list r.2 = [mkTerm "cat" "chat"; mkTerm "dog" "chien"].
Proof.
  destruct (update_past_the_end_parts_view_and_store
              MoreSamples.one_term_view MoreSamples.one_term_store
              "dog" "chien" Stored eq_refl)
    as (r & Hr & Hview & Hstore & _).
  exists r. split; [exact Hr|]. split; [exact Hview | exact Hstore].
Defined.

(** X12: [addTerm] with a rejected write throws and keeps the term in
    memory; with a successful write the durable list is the list in memory.
    [removeTerm] with an index past the end changes nothing; with an index
    inside the list the list gets one shorter and the later terms move up
    by one. *)
Theorem terms_writes_and_failures (s : Store) :
  (∀ term e,
     addTerm term (Rejected e) s = (Throw e, with_terms s (terms_list s ++ [term])))
  ∧ (∀ term,
       let r := addTerm term Stored s in
       r.1 = Return () ∧ disk_terms r.2 = Some (terms_list r.2))
  ∧ (∀ index w,
       length (terms_list s) ≤ index → terms_list (removeTerm index w s).2 = terms_list s)
  ∧ (∀ index w,
       index < length (terms_list s) →
       length (terms_list (removeTerm index w s).2) = length (terms_list s) - 1
       ∧ ∀ j, terms_list (removeTerm index w s).2 !! j
              = terms_list s !! (if j <? index then j else S j)).
Proof.
  split; [|split; [|split]].
  - done.
  - done.
  - intros index w Hle. unfold removeTerm. rewrite terms_of_persist. simpl.
    pose proof (filter_index_delete index 0 (terms_list s)) as Hdel. simpl in Hdel.
    rewrite Hdel, take_ge, drop_ge by lia. by rewrite app_nil_r.
  - intros index w Hlt. unfold removeTerm. rewrite terms_of_persist. simpl.
    pose proof (filter_index_delete index 0 (terms_list s)) as Hdel. simpl in Hdel.
    rewrite Hdel. split.
    + rewrite length_app, length_take, length_drop. lia.
    + intros j. destruct (j <? index) eqn:Hj.
      * apply Nat.ltb_lt in Hj. rewrite lookup_app_l by (rewrite length_take; lia).
        by rewrite lookup_take_lt.  
      * apply Nat.ltb_ge in Hj. rewrite lookup_app_r by (rewrite length_take; lia).
        rewrite length_take, lookup_drop. f_equal. lia.
Qed.

Lemma terms_writes_and_failures_witness :
  terms_list (removeTerm 5 Stored MoreSamples.one_term_store).2 = [mkTerm "cat" "chat"]
  ∧ length (terms_list (removeTerm 0 Stored MoreSamples.one_term_store).2) = 0.
Proof.
  destruct (terms_writes_and_failures MoreSamples.one_term_store)
    as (_ & _ & Hout & Hin).
  split.
  - apply (Hout 5 Stored). simpl. lia.
  - apply (Hin 0 Stored). simpl. lia.
Defined.

End TermsListProperties.


(* ================================================================== *)
(** ** Exporting and importing terms *)
(* ================================================================== *)

Section TermsTextProperties.
Import JS Props.

Lemma list_ascii_app (a b : string) :
  list_ascii_of_string (a +:+ b) = list_ascii_of_string a ++ list_ascii_of_string b.
Proof.
  induction a as [|x a IH]; [done|].
  change (x :: list_ascii_of_string (a +:+ b)
          = x :: (list_ascii_of_string a ++ list_ascii_of_string b)). by rewrite IH.
Qed.

Lemma lacks_app (c : ascii) (a b : string) : lacks c a → lacks c b → lacks c (a +:+ b).
Proof. unfold lacks. intros Ha Hb. rewrite list_ascii_app. by apply Forall_app. Qed.

Lemma split_lacks (c : ascii) (s : string) : lacks c s → split c s = [s].
Proof.
  unfold lacks. induction s as [|a s IH]; simpl; [done|].
  intros H. apply Forall_cons in H as [Ha Hs].
  destruct (Ascii.eqb_spec a c); [done|]. by rewrite IH.
Qed.

Lemma split_at (c : ascii) (x rest : string) :
  lacks c x → split c (x +:+ String c rest) = x :: split c rest.
Proof.
  unfold lacks. induction x as [|a x IH]; simpl.
  - intros _. by rewrite ?Ascii.eqb_refl.
  - intros H. apply Forall_cons in H as [Ha Hs].
    destruct (Ascii.eqb_spec a c); [done|]. by rewrite IH.
Qed.

(** *** [trim] keeps what is not white space *)

Lemma strip_prefix_Some (p l rest : list nat) :
  strip_prefix p l = Some rest → l = p ++ rest.
Proof.
  revert l. induction p as [|x p IH]; intros l H; simpl in *.
  - by injection H as ->.
  - destruct l as [|y l]; [done|].
    destruct (Nat.eqb_spec x y) as [->|]; [|done]. by rewrite (IH l H).
Qed.

Lemma strip_one_Some (table : list (list nat)) (l rest : list nat) :
  strip_one table l = Some rest → ∃ p, p ∈ table ∧ l = p ++ rest.
Proof.
  induction table as [|p table IH]; simpl; [done|].
  destruct (strip_prefix p l) as [r|] eqn:Hp.
  - intros H. injection H as ->. exists p. split; [by left|].
    by apply strip_prefix_Some.
  - intros H. destruct (IH H) as (q & Hq & Hl). exists q. split; [by right|done].
Qed.

Lemma trim_start_fuel_keeps (table : list (list nat)) (b : nat) (fuel : nat) (l : list nat) :
  Forall (fun p => b ∉ p) table → b ∈ l → b ∈ trim_start_fuel table fuel l.
Proof.
  intros Htable. revert l. induction fuel as [|fuel IH]; intros l Hb; simpl; [done|].
  destruct (strip_one table l) as [rest|] eqn:Hs; [|done].
  apply strip_one_Some in Hs as (p & Hp & ->). apply IH.
  apply elem_of_app in Hb as [Hb|Hb]; [|done].
  rewrite Forall_forall in Htable. by destruct (Htable p Hp).
Qed.

Lemma elem_of_rev (b : nat) (l : list nat) : b ∈ l → b ∈ rev l.
Proof. rewrite !list_elem_of_In. apply in_rev. Qed.

Lemma colon_is_no_white_space :
  Forall (fun p => 58 ∉ p) white_space
  ∧ Forall (fun p => 58 ∉ p) (map (@rev nat) white_space).
Proof.
  split; apply (bool_decide_unpack _); vm_compute; exact I.
Qed.

Lemma is_empty_of_bytes (l : list nat) : l ≠ [] → is_empty (of_bytes l) = false.
Proof. by destruct l. Qed.

Lemma bytes_app (a b : string) : bytes (a +:+ b) = bytes a ++ bytes b.
Proof. unfold bytes. by rewrite list_ascii_app, map_app. Qed.

Lemma trim_with_colon (a b : string) :
  is_empty (trim (a +:+ String TermsView.COLON b)) = false.
Proof.
  unfold trim. apply is_empty_of_bytes.
  destruct colon_is_no_white_space as [Hws Hrev].
  assert (H : 58 ∈ trim_end_bytes (trim_start_bytes (bytes (a +:+ String TermsView.COLON b)))).
  { unfold trim_end_bytes, trim_start_bytes. apply elem_of_rev.
    apply trim_start_fuel_keeps; [done|]. apply elem_of_rev.
    apply trim_start_fuel_keeps; [done|].
    rewrite bytes_app. apply elem_of_app. right. by left. }
  intros Heq. rewrite Heq in H. by apply elem_of_nil in H.
Qed.

Lemma trim_leading_space (s : string) : trim (String " " s) = trim s.
Proof. reflexivity. Qed.

(** *** Export and import *)

Lemma term_line_single (term : Term) : plain_term term → Spec.single_line (term_line term).
Proof.
  intros [(Ho & _ & _) (Ht & _ & _)]. unfold term_line.
  apply (lacks_app LF); [done|]. apply (lacks_app LF ": "); [|done].
  repeat constructor; discriminate.
Qed.

Lemma term_line_parts (term : Term) :
  plain_term term →
  map trim (split TermsView.COLON (term_line term)) = [original term; translation term].
Proof.
  intros [(_ & Ho & Hto) (_ & Ht & Htt)]. unfold term_line.
  change (": " +:+ translation term) with (String TermsView.COLON (String " " (translation term))).
  rewrite split_at by done. rewrite split_lacks.
  - simpl. by rewrite trim_leading_space, Hto, Htt.
  - apply Forall_cons. split; [discriminate|done].
Qed.

Lemma term_line_kept (term : Term) : negb (is_empty (trim (term_line term))) = true.
Proof.
  unfold term_line.
  change (": " +:+ translation term) with (String TermsView.COLON (String " " (translation term))).
  by rewrite trim_with_colon.
Qed.

Lemma parse_lines (ts : list Term) :
  Forall plain_term ts →
  omap (fun line =>
          match map trim (split TermsView.COLON line) with
          | part0 :: part1 :: _ => Some (mkTerm part0 part1)
          | _ => None
          end)
       (List.filter (fun line => negb (is_empty (trim line))) (map term_line ts))
  = ts.
Proof.
  set (f := fun line : string =>
              match map trim (split TermsView.COLON line) with
              | part0 :: part1 :: _ => Some (mkTerm part0 part1)
              | _ => None
              end).
  set (g := fun line : string => negb (is_empty (trim line))).
  induction 1 as [|term ts Hterm _ IH]; [done|].
  assert (Hf : f (term_line term) = Some term).
  { subst f. cbv beta. rewrite term_line_parts by done. by destruct term. }
  assert (Hg : g (term_line term) = true) by apply term_line_kept.
  change (List.filter g (map term_line (term :: ts)))
    with (if g (term_line term)
          then term_line term :: List.filter g (map term_line ts)
          else List.filter g (map term_line ts)).
  rewrite Hg.
  change (omap f (term_line term :: List.filter g (map term_line ts)))
    with (match f (term_line term) with
          | Some y => y :: omap f (List.filter g (map term_line ts))
          | None => omap f (List.filter g (map term_line ts))
          end).
  by rewrite Hf, IH.
Qed.

(** X13: for terms whose two sides have no colon, no line feed and no
    white space at either end, importing the text [exportTerms] writes gives
    the same terms back, in the view and in the data manager. *)
Theorem exported_terms_import_back (state : TermsView.TermsState) :
  Forall plain_term (TermsView.terms state) →
  TermsView.parseTerms (TermsView.exportTerms state) = TermsView.terms state
  ∧ ∀ w view s,
      TermsView.terms (TermsView.importTerms (TermsView.exportTerms state) w view s).1 = TermsView.terms state
      ∧ DataManager.terms_list (TermsView.importTerms (TermsView.exportTerms state) w view s).2 = TermsView.terms state.
Proof.
  intros Hplain.
  assert (Hparse : TermsView.parseTerms (TermsView.exportTerms state) = TermsView.terms state).
  { unfold TermsView.parseTerms, TermsView.exportTerms.
    change (map (fun term => original term +:+ ": " +:+ translation term) (TermsView.terms state))
      with (map term_line (TermsView.terms state)).
    destruct (TermsView.terms state) as [|term ts] eqn:Hts; [done|].
    rewrite split_join.
    - by apply parse_lines.
    - done.
    - apply Forall_forall. intros line Hline.
      apply list_elem_of_In, in_map_iff in Hline as (t & <- & Ht).
      apply term_line_single. rewrite Forall_forall in Hplain.
      by apply Hplain, list_elem_of_In. }
  split; [done|]. intros w view s. unfold TermsView.importTerms, TermsList.saveTerms. rewrite Hparse.
  by destruct w.
Qed.

Lemma exported_terms_import_back_witness :
  TermsView.parseTerms
    (TermsView.exportTerms (TermsView.mkTermsState MoreSamples.two_terms false None))
  = MoreSamples.two_terms.
Proof.
  refine (proj1 (exported_terms_import_back
                   (TermsView.mkTermsState MoreSamples.two_terms false None) _)).
  repeat (apply Forall_cons; split; [|]); try apply Forall_nil;
    (split; (split; [|split]; [| |reflexivity]));
    unfold lacks; simpl; repeat constructor; discriminate.
Defined.

End TermsTextProperties.


(* ================================================================== *)
(** ** The file list and the task store *)
(* ================================================================== *)

Section SubtitlesProperties.
Import DataManager Subtitles Props.

Lemma generateStableFileId_inj (a b : string) :
  generateStableFileId a = generateStableFileId b → a = b.
Proof. unfold generateStableFileId. intros H. by simplify_eq/=. Qed.

Lemma created_tasks (filename : string) (es : list SubtitleEntry) (idx : nat)
    (freshId : string) (w : Write) (s : Store) :
  batch_tasks (createNewTask filename es idx freshId w s).2
  = batch_tasks s ++ [mkTask freshId es filename (mkProgress 0 (length es) 0 Idle None) idx].
Proof. unfold createNewTask. by destruct w. Qed.

Lemma getTaskById_snoc_fresh (tid : string) (tasks : list SingleTask) (t : SingleTask) :
  tid ∉ (taskId <$> tasks) → taskId t = tid →
  snd <$> findTask tid (tasks ++ [t]) = Some t.
Proof.
  intros Hfresh Hid. apply findTask_absent in Hfresh. unfold findTask in *.
  rewrite list_find_app_r by done. simpl. by rewrite decide_True.
Qed.

Lemma getTaskById_snoc_other (tid : string) (tasks : list SingleTask) (t : SingleTask) :
  taskId t ≠ tid →
  snd <$> findTask tid (tasks ++ [t]) = snd <$> findTask tid tasks.
Proof.
  intros Hne. unfold findTask.
  destruct (list_find (λ t, taskId t = tid) tasks) as [[i t0]|] eqn:Hfind.
  - by rewrite (list_find_app_l _ _ _ _ _ Hfind).
  - rewrite list_find_app_r by done. simpl. by rewrite decide_False.
Qed.

Lemma getTaskById_known (tid : string) (s : Store) (t : SingleTask) :
  getTaskById tid s = Some t → tid ∈ (taskId <$> batch_tasks s).
Proof.
  unfold getTaskById. destruct (findTask tid (batch_tasks s)) as [[i t0]|] eqn:Hfind; [|done].
  intros _. apply findTask_same_id in Hfind as [<- Hi].
  apply list_elem_of_fmap_2. by eapply list_elem_of_lookup_2.
Qed.

Lemma in_step_files (state state' : SubtitleState) (s : Store) :
  files state' = files state → in_step state s → in_step state' s.
Proof. unfold in_step. by intros ->. Qed.

Lemma getFile_None (fileId : string) (state : SubtitleState) :
  getFile fileId state = None → Forall (fun f => file_id f ≠ fileId) (files state).
Proof.
  unfold getFile. destruct (list_find _ _) as [[i f]|] eqn:Hfind; [done|].
  intros _. by apply list_find_None in Hfind.
Qed.

Lemma getFile_Some (fileId : string) (state : SubtitleState) (file : SubtitleFile) :
  getFile fileId state = Some file → file ∈ files state ∧ file_id file = fileId.
Proof.
  unfold getFile. destruct (list_find _ _) as [[i f]|] eqn:Hfind; [|done].
  simpl. intros H. injection H as ->. apply list_find_Some in Hfind as (Hi & Hid & _).
  split; [by eapply list_elem_of_lookup_2 | done].
Qed.

Lemma updated_lookup (tid tid' : string) (entryId : nat) (newText : string)
    (newTranslated : option string) (s : Store) :
  getTaskById tid' (updateTaskSubtitleEntryInMemory tid entryId newText newTranslated s)
  = if decide (tid' = tid)
    then (fun t => withEntries t (updateOne entryId newText newTranslated (subtitle_entries t)))
           <$> getTaskById tid s
    else getTaskById tid' s.
Proof.
  unfold updateTaskSubtitleEntryInMemory, getTaskById.
  destruct (findTask tid (batch_tasks s)) as [[i t]|] eqn:Hfind.
  - apply findTask_same_id in Hfind as Hid. destruct Hid as [Hid Hi].
    destruct (decide (tid' = tid)) as [->|Hne]; simpl.
    + by rewrite (findTask_insert tid _ i t (withEntries t _) Hfind Hid).
    + apply (findTask_other_insert tid' _ i t); simpl; congruence.
  - destruct (decide (tid' = tid)) as [->|Hne]; [by rewrite ?Hfind|done].
Qed.

Lemma removed_lookup (tid tid' : string) (w : Write) (s : Store) :
  tid' ≠ tid → getTaskById tid' (removeTask tid w s).2 = getTaskById tid' s.
Proof.
  intros Hne. unfold getTaskById, removeTask. rewrite tasks_of_persist. simpl.
  by apply getTaskById_filter.
Qed.

Lemma in_step_removed (fileId : string) (state : SubtitleState) (s s' : Store) :
  in_step state s →
  (∀ tid, generateStableFileId tid ≠ fileId → getTaskById tid s' = getTaskById tid s) →
  in_step (subtitleReducer state (REMOVE_FILE fileId)) s'.
Proof.
  unfold in_step. simpl. intros Hstep Hkeep. apply Forall_forall. intros f Hf.
  apply list_elem_of_filter in Hf as [Hne Hf]. rewrite Forall_forall in Hstep.
  destruct (Hstep f Hf) as (Hid & t & Ht & Hes). split; [done|].
  exists t. split; [|done]. rewrite Hkeep; [done|]. by rewrite <- Hid.
Qed.

(** X15: when every file of the list carries the id derived from its
    task and shows the entries the store holds for that task, this is still
    so after [loadFromFile] (given a task id not in use), [updateEntry],
    [clearFile], [removeFile] and [clearAllData], whatever the writes do and
    however parsing ends. *)
Theorem files_and_tasks_stay_in_step (op : FileOp) (state : SubtitleState) (s : Store) :
  in_step state s → fresh_id op s →
  in_step (applyFileOp op state s).1 (applyFileOp op state s).2.
Proof.
  intros Hstep Hfresh. destruct op as [fileName lm parsed freshId w|fileId entryId newText tr
                                       |fileId w|fileId w|w]; simpl in *.
  - (* loadFromFile *)
    unfold loadFromFile. destruct parsed as [es|e]; [|by simpl].
    pose proof (created_tasks fileName es (length (files state)) freshId w s) as Htasks.
    assert (Hold : Forall (fun f =>
              file_id f = generateStableFileId (currentTaskId f)
              ∧ ∃ t, getTaskById (currentTaskId f)
                       (createNewTask fileName es (length (files state)) freshId w s).2 = Some t
                     ∧ subtitle_entries t = entries f) (files state)).
    { unfold in_step in Hstep. rewrite Forall_forall in Hstep |- *. intros f Hf.
      destruct (Hstep f Hf) as (Hid & t & Ht & Hes). split; [done|]. exists t. split; [|done].
      unfold getTaskById. rewrite Htasks, getTaskById_snoc_other; [done|].
      simpl. intros Heq. apply Hfresh. rewrite Heq. by eapply getTaskById_known. }
    destruct (createNewTask fileName es (length (files state)) freshId w s) as [[tid|e] s']
      eqn:Hcreate; simpl in *; [|done].
    assert (tid = freshId) as ->.
    { unfold createNewTask in Hcreate. destruct w; simpl in Hcreate; congruence. }
    unfold in_step. simpl. apply Forall_app. split; [done|].
    apply Forall_singleton. simpl. split; [done|]. eexists. split.
    + unfold getTaskById. rewrite Htasks. by apply getTaskById_snoc_fresh.
    + done.
  - (* updateEntry *)
    unfold updateEntry. destruct (getFile fileId state) as [file|] eqn:Hfile; simpl.
    + apply getFile_Some in Hfile as [Hin Hfid].
      unfold in_step in *. simpl. rewrite Forall_forall in Hstep.
      apply Forall_forall. intros f' Hf'.
      apply list_elem_of_In, in_map_iff in Hf' as (f & <- & Hf). apply list_elem_of_In in Hf.
      destruct (Hstep f Hf) as (Hid & t & Ht & Hes).
      destruct (Hstep file Hin) as (Hid0 & _).
      rewrite updated_lookup.
      destruct (String.eqb_spec (file_id f) fileId) as [Heq|Hne]; simpl.
      * assert (currentTaskId f = currentTaskId file) as Hsame.
        { apply generateStableFileId_inj. congruence. }
        rewrite decide_True by done. split; [done|].
        rewrite <- Hsame, Ht. simpl. eexists. split; [reflexivity|]. simpl.
        by rewrite Hes.
      * rewrite decide_False.
        -- split; [done|]. by exists t.
        -- intros Hsame. apply Hne. congruence.
    + apply getFile_None in Hfile. unfold in_step in *. simpl.
      rewrite Forall_forall in Hstep, Hfile.
      apply Forall_forall. intros f' Hf'.
      apply list_elem_of_In, in_map_iff in Hf' as (f & <- & Hf). apply list_elem_of_In in Hf.
      destruct (String.eqb_spec (file_id f) fileId) as [Heq|Hne]; [by destruct (Hfile f Hf)|].
      by apply Hstep.
  - (* clearFile *)
    unfold clearFile. destruct (getFile fileId state) as [file|] eqn:Hfile.
    + apply getFile_Some in Hfile as [Hin Hfid].
      unfold in_step in Hstep. rewrite Forall_forall in Hstep.
      destruct (Hstep file Hin) as (Hid0 & _).
      destruct (removeTask (currentTaskId file) w s) as [r s'] eqn:Hrm. simpl.
      apply (in_step_removed fileId state s); [by apply Forall_forall|].
      intros tid Hne. replace s' with (removeTask (currentTaskId file) w s).2 by by rewrite Hrm.
      apply removed_lookup. intros ->. congruence.
    + simpl. by apply (in_step_removed fileId state s).
  - (* removeFile *)
    unfold removeFile. destruct (getFile fileId state) as [file|] eqn:Hfile; [|done].
    apply getFile_Some in Hfile as [Hin Hfid].
    unfold in_step in Hstep. rewrite Forall_forall in Hstep.
    destruct (Hstep file Hin) as (Hid0 & _). simpl.
    apply (in_step_removed fileId state s); [by apply Forall_forall|].
    intros tid Hne. apply removed_lookup. intros ->. congruence.
  - (* clearAllData *)
    unfold clearAllData. destruct (clearBatchTasks w s) as [r s']. simpl. constructor.
Qed.

Lemma files_and_tasks_stay_in_step_witness :
  in_step MoreSamples.one_file.1 MoreSamples.one_file.2
  ∧ in_step
      (applyFileOp (Edit "file_task_1" 1 "Hi" (Some "Salut"))
         MoreSamples.one_file.1 MoreSamples.one_file.2).1
      (applyFileOp (Edit "file_task_1" 1 "Hi" (Some "Salut"))
         MoreSamples.one_file.1 MoreSamples.one_file.2).2.
Proof.
  assert (Hloaded : in_step MoreSamples.one_file.1 MoreSamples.one_file.2).
  { apply (files_and_tasks_stay_in_step
             (Load "a.srt" 0 (Return [Samples.sample_entry 1 None]) "task_1" Stored)
             initialState empty).
    - constructor.
    - simpl. apply not_elem_of_nil. }
  split; [exact Hloaded|].
  apply files_and_tasks_stay_in_step; [exact Hloaded | exact I].
Defined.

Lemma count_split (es : list SubtitleEntry) :
  length (List.filter hasTranslation es)
  = countTranslated es + length (List.filter blankTranslation es).
Proof.
  unfold countTranslated. induction es as [|e es IH]; [done|]. simpl.
  unfold hasTranslation at 1, isTranslated at 1, blankTranslation at 1.
  destruct (translatedText e) as [t|]; simpl; [|done].
  destruct (JS.is_empty t); simpl; [done|].
  destruct (JS.is_empty (JS.trim t)); simpl; lia.
Qed.

(** X16: [getTranslationProgress] of a file counts the entries whose
    [translatedText] is not empty: the entries the data manager counts as
    translated plus those whose translation is blank.  It is at least the
    data manager's count and at most the number of entries; for an unknown
    file it is 0 of 0. *)
Theorem view_progress_counts_blank_translations (fileId : string) (state : SubtitleState) :
  match getFile fileId state with
  | None => getTranslationProgress fileId state = (0, 0)
  | Some file =>
      getTranslationProgress fileId state
      = (countTranslated (entries file) + length (List.filter blankTranslation (entries file)),
         length (entries file))
      ∧ countTranslated (entries file) ≤ (getTranslationProgress fileId state).1
      ∧ (getTranslationProgress fileId state).1 ≤ (getTranslationProgress fileId state).2
  end.
Proof.
  unfold getTranslationProgress. destruct (getFile fileId state) as [file|]; [|done].
  rewrite count_split. simpl. split; [done|]. split; [lia|].
  rewrite <- count_split. apply List.filter_length_le.
Qed.

End SubtitlesProperties.



(* ================================================================== *)
(** ** The provider state *)
(* ================================================================== *)

Section ProviderProperties.
Import JS Provider.

Lemma reducer_keeps_isConfigured (state : TranslationState) (action : TranslationAction) :
  isConfigured state = negb (is_empty (apiKey (config state))) →
  isConfigured (translationReducer state action)
  = negb (is_empty (apiKey (config (translationReducer state action)))).
Proof.
  intros Hinv. destruct action; simpl; try done.
  by destruct (default (apiKey (config state)) (set_apiKey payload)).
Qed.

(** X18: after any sequence of actions from the initial state,
    [isConfigured] is true exactly when the configured key string is not
    empty; and while it is false [translateBatch] throws the
    configuration error without touching the client. *)
Theorem isConfigured_tracks_the_key (actions : list TranslationAction) :
  isConfigured (dispatchAll actions initialState)
  = negb (is_empty (apiKey (config (dispatchAll actions initialState))))
  ∧ ∀ decode net texts contextBefore contextAfter terms maxRetries c,
      isConfigured (dispatchAll actions initialState) = false →
      Translation.translateBatch decode net (config (dispatchAll actions initialState))
        texts contextBefore contextAfter terms maxRetries c
      = (Throw Translation.notConfigured, c).
Proof.
  assert (Hinv : ∀ state,
            isConfigured state = negb (is_empty (apiKey (config state))) →
            isConfigured (dispatchAll actions state)
            = negb (is_empty (apiKey (config (dispatchAll actions state))))).
  { unfold dispatchAll. induction actions as [|a actions IH]; intros state Hstate; [done|].
    simpl. apply IH. by apply reducer_keeps_isConfigured. }
  specialize (Hinv initialState eq_refl). split; [done|].
  intros decode net texts cb ca terms maxRetries c Hoff.
  rewrite Hoff in Hinv. unfold Translation.translateBatch.
  by destruct (is_empty (apiKey (config (dispatchAll actions initialState)))).
Qed.

Lemma isConfigured_tracks_the_key_witness :
  Translation.translateBatch Samples.no_json (Samples.always_400 "bad request")
    (config (dispatchAll [SET_TRANSLATING true; RESET_PROGRESS] initialState))
    ["Hello"] "" "" "" 5 Samples.fresh_client
  = (Throw Translation.notConfigured, Samples.fresh_client).
Proof.
  apply (proj2 (isConfigured_tracks_the_key [SET_TRANSLATING true; RESET_PROGRESS])).
  reflexivity.
Defined.

End ProviderProperties.

(* ================================================================== *)
(** ** Tokens, keys and the reflection pass *)
(* ================================================================== *)

Section ClientProperties.
Import JS Translation Spec Props.

Variable decode : string -> Completion Val.
Variable net : nat -> Step.
Variable cfg : TranslationConfig.

Lemma directAttempt_requested (directPrompt : string) (step : Step) (c : Client) :
  abortedAfterWait step = false →
  validKeys (apiKey cfg) ≠ [] →
  ∃ outcome,
    directAttempt decode cfg directPrompt step c
    = (outcome, requested cfg directPrompt c, tokensOf step).
Proof.
  intros Hwait Hkeys. unfold directAttempt. rewrite Hwait.
  change (apiKeyIndex (emit Acquire c)) with (apiKeyIndex c).
  rewrite (getNextApiKey_valid cfg) by done.
  unfold tokensOf, requested.
  destruct (answer step) as [e|[d|e]|st [b|e]]; eexists; reflexivity.
Qed.

Lemma usageOf_step (n m : nat) :
  n < m → usageOf net n m = tokensOf (net n) + usageOf net (S n) m.
Proof.
  intros Hlt. unfold usageOf. replace (m - n) with (S (m - S n)) by lia. done.
Qed.

Lemma usageOf_none (n : nat) : usageOf net n n = 0.
Proof. unfold usageOf. by rewrite Nat.sub_diag. Qed.

Lemma isCancellation_cancelled : isCancellation cancelled = true.
Proof. reflexivity. Qed.

Lemma directLoop_usage (directPrompt : string) (maxRetries remaining attempt : nat)
    (lastError : option JsError) (total : nat) (c : Client)
    (v : Val) (lastError' : option JsError) (total' : nat) (c' : Client) :
  validKeys (apiKey cfg) ≠ [] →
  directLoop decode net cfg directPrompt maxRetries remaining attempt lastError total c
  = (Return (v, lastError', total'), c') →
  requests c ≤ requests c'
  ∧ requests c' - requests c ≤ remaining
  ∧ total' = total + usageOf net (requests c) (requests c')
  ∧ fetches (events c') = fetches (events c) + (requests c' - requests c).
Proof.
  intros Hkeys. revert attempt lastError total c.
  induction remaining as [|remaining IH]; intros attempt lastError total c Hloop.
  - simpl in Hloop. injection Hloop as <- <- <- <-.
    rewrite usageOf_none, Nat.sub_diag. lia.
  - rewrite directLoop_step in Hloop. cbv zeta in Hloop.
    destruct (abortedAtStart (net (requests c))) eqn:Hstart; [done|].
    destruct (abortedAfterWait (net (requests c))) eqn:Hwait.
    { unfold directAttempt in Hloop. rewrite Hwait in Hloop.
      by rewrite isCancellation_cancelled in Hloop. }
    destruct (directAttempt_requested directPrompt (net (requests c)) (next_step c) Hwait Hkeys)
      as (outcome & Hattempt).
    rewrite Hattempt in Hloop.
    assert (Hfetch : fetches (events (requested cfg directPrompt (next_step c)))
                     = S (fetches (events c)))
      by apply (fetches_requested cfg directPrompt (next_step c)).
    destruct outcome as [v0|e].
    + injection Hloop as <- <- <- <-.
      change (requests (requested cfg directPrompt (next_step c))) with (S (requests c)).
      rewrite (usageOf_step (requests c) (S (requests c))) by lia.
      rewrite usageOf_none. 
      rewrite Hfetch. lia.
    + destruct (isCancellation e); [done|].
      apply IH in Hloop as (Hle & Hrem & Htot & Hfet).
      assert (Hreq : ∀ b : bool,
                requests (if b then emit (Sleep (1000 * attempt))
                                      (requested cfg directPrompt (next_step c))
                          else requested cfg directPrompt (next_step c))
                = S (requests c)) by by intros [].
      assert (Hev : ∀ b : bool,
                fetches (events (if b then emit (Sleep (1000 * attempt))
                                          (requested cfg directPrompt (next_step c))
                                 else requested cfg directPrompt (next_step c)))
                = S (fetches (events c))).
      { intros []; [rewrite fetches_emit; cbn [is_fetch]|]; rewrite Hfetch; lia. }
      rewrite Hreq in Hle, Hrem, Htot, Hfet. rewrite Hev in Hfet.
      rewrite (usageOf_step (requests c) (requests c')) by lia. lia.
Qed.

(** X19: with reflection off and a valid key, the [tokensUsed] a
    successful [translateBatch] returns is the sum of the tokens reported by
    all responses of the call, those of failed attempts included; the call
    made at least one and at most [maxRetries] requests, one per
    attempt. *)
Theorem tokens_of_failed_attempts_are_counted
    (texts : list string) (contextBefore contextAfter terms : string) (maxRetries : nat)
    (c c' : Client) (v : Val) (used : nat) :
  enableReflection cfg = false →
  validKeys (apiKey cfg) ≠ [] →
  translateBatch decode net cfg texts contextBefore contextAfter terms maxRetries c
  = (Return (v, used), c') →
  used = usageOf net (requests c) (requests c')
  ∧ requests c < requests c'
  ∧ requests c' - requests c ≤ maxRetries
  ∧ fetches (events c') = fetches (events c) + (requests c' - requests c).
Proof.
  intros Hoff Hkeys. unfold translateBatch. rewrite Hoff.
  destruct (is_empty (apiKey cfg)); [done|].
  destruct (directLoop _ _ _ _ _ _ _ _ _ _) as [[[[direct lastError] total]|e] c1] eqn:Hloop;
    [|done].
  destruct (isEmptyResult direct) eqn:Hempty; [done|].
  intros H. injection H as <- <- <-.
  pose proof Hloop as Hloop'.
  apply directLoop_usage in Hloop as (Hle & Hrem & Htot & Hfet); [|done].
  repeat split; try done.
  destruct (decide (requests c = requests c1)) as [Heq|]; [|lia].
  exfalso.
  destruct maxRetries as [|m].
  - simpl in Hloop'. injection Hloop' as <- _ _ _. done.
  - rewrite directLoop_step in Hloop'. cbv zeta in Hloop'.
    destruct (abortedAtStart (net (requests c))); [done|].
    destruct (abortedAfterWait (net (requests c))) eqn:Hwait.
    { unfold directAttempt in Hloop'. rewrite Hwait in Hloop'.
      by rewrite isCancellation_cancelled in Hloop'. }
    destruct (directAttempt_requested
                (Prompts.generateDirectPrompt (join nl texts)
                   (Prompts.generateSharedPrompt contextBefore contextAfter terms)
                   (sourceLanguage cfg) (targetLanguage cfg))
                (net (requests c)) (next_step c) Hwait Hkeys) as (outcome & Hattempt).
    rewrite Hattempt in Hloop'. destruct outcome as [v0|e].
    + injection Hloop' as _ _ _ Hc. rewrite <- Hc in Heq. simpl in Heq. lia.
    + destruct (isCancellation e); [done|].
      apply directLoop_usage in Hloop' as (Hle' & _); [|done].
      assert (Hreq : ∀ b : bool,
                requests (if b then emit (Sleep (1000 * 1))
                                      (requested cfg
                   (Prompts.generateDirectPrompt (join nl texts)
                   (Prompts.generateSharedPrompt contextBefore contextAfter terms)
                   (sourceLanguage cfg) (targetLanguage cfg)) (next_step c))
                          else requested cfg 
                   (Prompts.generateDirectPrompt (join nl texts)
                   (Prompts.generateSharedPrompt contextBefore contextAfter terms)
                   (sourceLanguage cfg) (targetLanguage cfg)) (next_step c))
                = S (requests c)) by by intros [].
      rewrite Hreq in Hle'. lia.
Qed.

(** X21: when the key index is past the end of the list of valid keys
    (the list got shorter), the next request is sent with no key
    ([undefined]) and the index is back inside the list afterwards, so that
    the request after it carries a key that is not empty. *)
Theorem stale_key_index_sends_no_key (directPrompt : string) (step : Step) (c : Client) :
  validKeys (apiKey cfg) ≠ [] →
  length (validKeys (apiKey cfg)) ≤ apiKeyIndex c →
  abortedAfterWait step = false →
  let c' := (directAttempt decode cfg directPrompt step c).1.2 in
  events c' = events c ++ [Acquire; Fetch None directPrompt]
  ∧ apiKeyIndex c' < length (validKeys (apiKey cfg))
  ∧ ∀ step' prompt',
      abortedAfterWait step' = false →
      ∃ key, validKeys (apiKey cfg) !! apiKeyIndex c' = Some key
             ∧ is_empty key = false
             ∧ events (directAttempt decode cfg prompt' step' c').1.2
               = events c' ++ [Acquire; Fetch (Some key) prompt'].
Proof.
  intros Hkeys Hstale Hwait c'.
  destruct (directAttempt_requested directPrompt step c Hwait Hkeys) as (outcome & Hattempt).
  assert (Hc' : c' = requested cfg directPrompt c) by (subst c'; by rewrite Hattempt).
  assert (Hlen : 0 < length (validKeys (apiKey cfg)))
    by (destruct (validKeys (apiKey cfg)); [done|simpl; lia]).
  assert (Hidx : apiKeyIndex c' < length (validKeys (apiKey cfg))).
  { rewrite Hc'. simpl. apply Nat.mod_upper_bound. lia. }
  split; [|split; [done|]].
  - rewrite Hc'. unfold requested. simpl.
    rewrite (lookup_ge_None_2 _ _ Hstale), <- app_assoc. done.
  - intros step' prompt' Hwait'.
    destruct (lookup_lt_is_Some_2 _ _ Hidx) as [key Hkey].
    exists key. split; [done|]. split.
    + apply list_elem_of_lookup_2 in Hkey. unfold validKeys in Hkey.
      apply list_elem_of_In, filter_In in Hkey as [_ Hkey].
      by destruct (is_empty key).
    + destruct (directAttempt_requested prompt' step' c' Hwait' Hkeys) as (outcome' & Hatt').
      rewrite Hatt'. unfold requested. simpl. by rewrite Hkey, <- app_assoc.
Qed.

Lemma reflectionAttempt_tokens (textToTranslate sharedPrompt : string) (directResult : Val)
    (total : nat) (step : Step) (c c' : Client) (v : Val) (used : nat) :
  reflectionAttempt decode cfg textToTranslate sharedPrompt directResult total step c
  = (Return (v, used), c') →
  total ≤ used.
Proof.
  unfold reflectionAttempt.
  destruct (abortedAtStart step); [done|].
  destruct (Prompts.generateReflectionPrompt _ _ _ _ _); [|done].
  destruct (abortedAfterWait step); [done|].
  destruct (getNextApiKey _ _) as [[key|e] i]; [|done].
  destruct (answer step) as [e|[d|e]|st [b|e]]; try done.
  - destruct (bind _ _); intros H; injection H as _ <- _; lia.
  - intros H; injection H as _ <- _; lia.
Qed.

End ClientProperties.

Section ReflectionProperties.
Import JS Translation Spec.

Variable decode : string -> Completion Val.
Variable net : nat -> Step.
Variable cfg : TranslationConfig.

(** X22: when the direct pass succeeds, [translateBatch] with reflection
    switched on throws only what the code takes for a cancellation, and
    otherwise returns at least the tokens of the direct pass. *)
Theorem reflection_fails_only_on_cancellation
    (texts : list string) (contextBefore contextAfter terms : string) (maxRetries : nat)
    (c c1 : Client) (direct : Val) (used : nat) :
  translateBatch decode net (withReflection false cfg) texts contextBefore contextAfter
                 terms maxRetries c = (Return (direct, used), c1) →
  match (translateBatch decode net (withReflection true cfg) texts contextBefore contextAfter
           terms maxRetries c).1 with
  | Throw e => isCancellation e = true
  | Return (v, used') => used ≤ used'
  end.
Proof.
  unfold translateBatch.
  change (apiKey (withReflection false cfg)) with (apiKey cfg).
  change (apiKey (withReflection true cfg)) with (apiKey cfg).
  change (sourceLanguage (withReflection false cfg)) with (sourceLanguage cfg).
  change (sourceLanguage (withReflection true cfg)) with (sourceLanguage cfg).
  change (targetLanguage (withReflection false cfg)) with (targetLanguage cfg).
  change (targetLanguage (withReflection true cfg)) with (targetLanguage cfg).
  change (enableReflection (withReflection false cfg)) with false.
  change (enableReflection (withReflection true cfg)) with true.
  destruct (is_empty (apiKey cfg)); [done|].
  rewrite !directLoop_reflection_switch.
  destruct (directLoop _ _ _ _ _ _ _ _ _ _) as [[[[d lastError] total]|e] c2]; [|done].
  destruct (isEmptyResult d); [done|].
  intros H. injection H as -> -> ->.
  unfold reflectionPass.
  destruct (reflectionAttempt _ _ _ _ _ _ _ _) as [[[v u]|e] c3] eqn:Hatt; simpl.
  - by apply reflectionAttempt_tokens in Hatt.
  - destruct (isCancellation e) eqn:Hc; simpl; [done|lia].
Qed.

End ReflectionProperties.

Section ClientPropertiesExamples.
Import JS Translation Spec Samples Props MoreSamples.

Lemma tokens_of_failed_attempts_are_counted_witness :
  ∃ v c',
    translateBatch (decode_only scenario_content scenario_result) garbled_then_ok
      (sample_config "k1" 2 1 false) ["Hello"; "World"] "" "" "" defaultMaxRetries fresh_client
    = (Return (v, 12), c')
    ∧ 12 = usageOf garbled_then_ok 0 (requests c')
    ∧ requests c' = 2.
Proof.
  eexists _, _. split; [vm_compute; reflexivity|].
  split; [|reflexivity].
  refine (proj1 (tokens_of_failed_attempts_are_counted
                   (decode_only scenario_content scenario_result) garbled_then_ok
                   (sample_config "k1" 2 1 false) ["Hello"; "World"] "" "" ""
                   defaultMaxRetries fresh_client _ scenario_result 12 eq_refl _ _)).
  - vm_compute. discriminate.
  - vm_compute. reflexivity.
Defined.

Lemma stale_key_index_sends_no_key_witness :
  events (directAttempt no_json (sample_config "k1" 2 1 false) "prompt"
            (always_400 "bad request" 0) (mkClient 2 0 [])).1.2
  = [Acquire; Fetch None "prompt"].
Proof.
  refine (proj1 (stale_key_index_sends_no_key no_json (sample_config "k1" 2 1 false)
                   "prompt" (always_400 "bad request" 0) (mkClient 2 0 []) _ _ _)).
  - vm_compute. discriminate.
  - vm_compute. lia.
  - reflexivity.
Defined.

Lemma reflection_fails_only_on_cancellation_witness :
  match (translateBatch (decode_only scenario_content scenario_result) garbled_then_ok
           (withReflection true (sample_config "k1" 2 1 false)) ["Hello"; "World"] "" "" ""
           defaultMaxRetries fresh_client).1 with
  | Throw e => isCancellation e = true
  | Return (v, used') => 12 ≤ used'
  end.
Proof.
  eapply (reflection_fails_only_on_cancellation
            (decode_only scenario_content scenario_result) garbled_then_ok
            (sample_config "k1" 2 1 false)).
  vm_compute. reflexivity.
Defined.

End ClientPropertiesExamples.

(* ================================================================== *)
(** ** What the planned batches cover *)
(* ================================================================== *)

Section PlanningProperties.
Import JS Controls Spec.
Context {U : Terms.Unicode}.
Variable terms : list Term.

Lemma take_add_app {A} (a b : nat) (l : list A) :
  take (a + b) l = take a l ++ take b (drop a l).
Proof.
  revert l. induction a as [|a IH]; intros l; [done|].
  destruct l as [|x l]; simpl; [by rewrite take_nil|]. by rewrite IH.
Qed.

Lemma slice_batch {A} (i B : nat) (l : list A) :
  slice (i * B) (Nat.min (i * B + B) (length l)) l = take B (drop (i * B) l).
Proof.
  unfold slice. destruct (Nat.le_gt_cases (i * B + B) (length l)) as [Hle|Hgt].
  - rewrite Nat.min_l by done. f_equal. lia.
  - rewrite Nat.min_r by lia.
    rewrite !take_ge; [done| |]; rewrite length_drop; lia.
Qed.

Lemma concat_slices {A} (B a m : nat) (l : list A) :
  concat (map (fun i => take B (drop (i * B) l)) (seq a m)) = take (m * B) (drop (a * B) l).
Proof.
  revert a. induction m as [|m IH]; intros a; simpl; [done|].
  rewrite IH, take_add_app, drop_drop. do 3 f_equal. lia.
Qed.

Lemma filter_concat {A} (f : A → bool) (ls : list (list A)) :
  List.filter f (concat ls) = concat (map (List.filter f) ls).
Proof.
  induction ls as [|l ls IH]; [done|]. simpl. by rewrite List.filter_app, IH.
Qed.

Lemma omap_cons_match {A B} (f : A → option B) (x : A) (l : list A) :
  omap f (x :: l) = match f x with Some y => y :: omap f l | None => omap f l end.
Proof. done. Qed.

Lemma planned_entries (entries : list SubtitleEntry) (cfg : TranslationConfig)
    (indices : list nat) :
  concat (untranslatedEntries <$> omap (planBatch terms entries cfg) indices)
  = concat (map (fun i => List.filter isUntranslated
                            (take (batchSize cfg) (drop (i * batchSize cfg) entries)))
                indices).
Proof.
  induction indices as [|i indices IH]; [done|].
  rewrite omap_cons_match, map_cons. cbn [concat]. rewrite <- IH, <- slice_batch.
  destruct (planBatch terms entries cfg i) as [batch|] eqn:Hplan.
  - apply planBatch_Some in Hplan as (_ & Hun & _).
    rewrite fmap_cons. cbn [concat]. by rewrite Hun.
  - unfold planBatch in Hplan. cbv zeta in Hplan.
    destruct (List.filter isUntranslated _) as [|e es]; [done|discriminate].
Qed.

Lemma planned_texts (entries : list SubtitleEntry) (cfg : TranslationConfig)
    (indices : list nat) :
  concat (textsToTranslate <$> omap (planBatch terms entries cfg) indices)
  = map text (concat (untranslatedEntries <$> omap (planBatch terms entries cfg) indices)).
Proof.
  induction indices as [|i indices IH]; [done|].
  rewrite omap_cons_match.
  destruct (planBatch terms entries cfg i) as [batch|] eqn:Hplan; [|done].
  apply planBatch_Some in Hplan as (_ & _ & _ & Htexts).
  rewrite !fmap_cons. cbn [concat]. by rewrite map_app, IH, Htexts.
Qed.

(** X24: for a batch size of at least 1, the planned batches hold, in
    order and once each, the entries without a translation from position
    floor(c / B) B on, where c is the number of translated entries, and the
    texts sent are their texts; entries before that position are in no
    batch.  When fewer than B entries are translated, every entry without a
    translation is in a batch. *)
Theorem batches_cover_the_rest_once (entries : list SubtitleEntry) (cfg : TranslationConfig) :
  1 ≤ batchSize cfg →
  let resumeAt := countTranslated entries / batchSize cfg * batchSize cfg in
  concat (untranslatedEntries <$> allBatches terms entries cfg)
  = List.filter isUntranslated (drop resumeAt entries)
  ∧ concat (textsToTranslate <$> allBatches terms entries cfg)
    = map text (List.filter isUntranslated (drop resumeAt entries))
  ∧ (countTranslated entries < batchSize cfg →
     concat (untranslatedEntries <$> allBatches terms entries cfg)
     = List.filter isUntranslated entries).
Proof.
  intros HB resumeAt.
  assert (Hcover : concat (untranslatedEntries <$> allBatches terms entries cfg)
                   = List.filter isUntranslated (drop resumeAt entries)).
  { unfold allBatches, batchIndices.
    destruct (Nat.eqb_spec (batchSize cfg) 0) as [Hz|_]; [lia|]. cbv zeta.
    rewrite planned_entries.
    rewrite <- (map_map (fun i => take (batchSize cfg) (drop (i * batchSize cfg) entries))
                        (List.filter isUntranslated)).
    rewrite <- filter_concat, concat_slices. f_equal.
    apply take_ge. rewrite length_drop.
    pose proof (ceil_div_spec (length entries) (batchSize cfg) HB) as [Hceil _].
    assert (countTranslated entries / batchSize cfg ≤ ceil_div (length entries) (batchSize cfg)).
    { unfold ceil_div. apply Nat.Div0.div_le_mono.
      pose proof (List.filter_length_le isTranslated entries). unfold countTranslated. lia. }
    nia. }
  split; [done|]. split.
  - unfold allBatches. by rewrite planned_texts, <- Hcover.
  - intros Hfew. rewrite Hcover. subst resumeAt.
    by rewrite Nat.div_small.
Qed.

End PlanningProperties.

Section PlanningExamples.
Import JS Controls Spec Samples.

Lemma batches_cover_the_rest_once_witness :
  concat (textsToTranslate <$>
            @allBatches Terms.ascii_unicode [] resumed_entries (sample_config "k" 2 1 false))
  = ["Three"; "Four"].
Proof.
  refine (proj1 (proj2 (@batches_cover_the_rest_once Terms.ascii_unicode [] resumed_entries
                          (sample_config "k" 2 1 false) _))).
  simpl. lia.
Defined.

End PlanningExamples.

(* ================================================================== *)
(** ** The updates collected from an answer *)
(* ================================================================== *)

Section UpdateProperties.
Import JS Controls Spec DataManager.

(** X27: every update collected from an answer names an entry of the
    batch, keeps that entry's text and carries a translation that is not
    empty; there are at most as many updates as the answer has keys. *)
Theorem collected_updates_come_from_the_batch (results : list (string * Val))
    (untranslated : list SubtitleEntry) (batchUpdates updates : list EntryUpdate) :
  collectUpdates results untranslated batchUpdates = Return (Some updates) →
  ∃ new,
    updates = batchUpdates ++ new
    ∧ length new ≤ length results
    ∧ Forall (fun u =>
                ∃ e t, e ∈ untranslated
                       ∧ upd_id u = id e ∧ upd_text u = text e
                       ∧ upd_translatedText u = Some t ∧ t ≠ "")
             new.
Proof.
  revert batchUpdates. induction results as [|[key value] results IH]; intros acc Hcollect.
  - simpl in Hcollect. injection Hcollect as <-. exists []. by rewrite app_nil_r.
  - simpl in Hcollect.
    assert (Hskip : collectUpdates results untranslated acc = Return (Some updates) →
                    ∃ new, updates = acc ++ new ∧ length new ≤ length ((key, value) :: results)
                           ∧ Forall (fun u =>
                                ∃ e t, e ∈ untranslated
                                       ∧ upd_id u = id e ∧ upd_text u = text e
                                       ∧ upd_translatedText u = Some t ∧ t ≠ "") new).
    { intros H. destruct (IH _ H) as (new & -> & Hlen & Hall).
      exists new. simpl. repeat split; [lia|done]. }
    destruct (entryAt untranslated key) as [e|] eqn:Hentry; [|by apply Hskip].
    destruct (typeof_object value); [|by apply Hskip].
    destruct (get value "direct") as [direct|err]; [|done].
    destruct (truthy direct) eqn:Htruthy; [|by apply Hskip].
    destruct direct as [| | | |t| |]; try done.
    destruct (IH _ Hcollect) as (new & -> & Hlen & Hall).
    exists (mkEntryUpdate (id e) (text e) (Some t) :: new).
    rewrite <- app_assoc. split; [done|]. split; [simpl; lia|].
    apply Forall_cons. split; [|done].
    exists e, t. repeat split; try done.
    + unfold entryAt in Hentry. destruct (parseInt key) as [z|]; [|done].
      destruct (z - 1 <? 0)%Z; [done|]. by eapply list_elem_of_lookup_2.
    + intros ->. done.
Qed.

Lemma collected_updates_come_from_the_batch_witness :
  ∃ new,
    [mkEntryUpdate 1 "Hello" (Some "你好"); mkEntryUpdate 2 "World" (Some "世界")] = [] ++ new
    ∧ length new ≤ 2.
Proof.
  destruct (collected_updates_come_from_the_batch
              [("1", VObj [("origin", VStr "Hello"); ("direct", VStr "你好")]);
               ("2", VObj [("origin", VStr "World"); ("direct", VStr "世界")])]
              Samples.scenario_entries []
              [mkEntryUpdate 1 "Hello" (Some "你好"); mkEntryUpdate 2 "World" (Some "世界")]
              eq_refl) as (new & Hnew & Hlen & _).
  exists new. split; [exact Hnew | exact Hlen].
Defined.

End UpdateProperties.


(* ================================================================== *)
(** ** What a finished run leaves in the store *)
(* ================================================================== *)

Section RunProperties.
Import JS Controls Spec DataManager Props.

Lemma applyTaskOp_found (tid : string) (op : TaskOp) (s : Store) (i : nat) (t : SingleTask) :
  findTask tid (batch_tasks s) = Some (i, t) →
  ∃ t', batch_tasks (applyTaskOp tid op s) = <[i := t']> (batch_tasks s)
        ∧ same_shape t t'
        ∧ (keepsTokens op →
           tokens (translation_progress t') = tokens (translation_progress t)).
Proof.
  intros Hfind.
  destruct op as [e x tt|e x tt w|us|ft w|u|u w]; simpl;
    unfold updateTaskSubtitleEntry, updateTaskSubtitleEntryInMemory,
           batchUpdateTaskSubtitleEntries, completeTask,
           updateTaskTranslationProgress, updateTaskTranslationProgressInMemory;
    rewrite ?Hfind; try rewrite tasks_of_persist; simpl;
    eexists; (split; [reflexivity|]);
    (split; [auto using same_shape_updateOne, same_shape_updateMany, same_shape_withProgress|]);
    try done; simpl; by intros ->.
Qed.

Lemma applyTaskOp_lookup (tid tid' : string) (op : TaskOp) (s : Store) (t : SingleTask) :
  getTaskById tid s = Some t →
  ∃ t', getTaskById tid (applyTaskOp tid' op s) = Some t'
        ∧ same_shape t t'
        ∧ (keepsTokens op →
           tokens (translation_progress t') = tokens (translation_progress t)).
Proof.
  unfold getTaskById. intros Hget.
  destruct (decide (tid' = tid)) as [->|Hne].
  - destruct (findTask tid (batch_tasks s)) as [[i t0]|] eqn:Hfind; [|done].
    simpl in Hget. injection Hget as ->.
    destruct (applyTaskOp_found tid op s i t Hfind) as (t' & Htasks & Hshape & Htok).
    exists t'. rewrite Htasks. split; [|done].
    apply findTask_same_id in Hfind as Hid. destruct Hid as [Hid _].
    rewrite (findTask_insert tid _ i t t' Hfind); [done|].
    destruct Hshape as (Hid' & _). congruence.
  - exists t. split; [|split; [apply same_shape_refl|done]].
    destruct (findTask tid' (batch_tasks s)) as [[j t2]|] eqn:Hfind.
    + destruct (applyTaskOp_found tid' op s j t2 Hfind) as (t2' & Htasks & Hshape & _).
      apply findTask_same_id in Hfind as [Hid Hj]. destruct Hshape as (Hid' & _).
      rewrite Htasks, (findTask_other_insert tid _ j t2 t2'); [done|done|congruence|congruence].
    + pose proof (applyTaskOp_shape tid' op s) as Hop. rewrite Hfind in Hop.
      by rewrite Hop.
Qed.

Lemma run_task_op (tid tid' : string) (ids : list nat) (op : TaskOp) (s : Store) :
  keepsTokens op → run_task tid ids s → run_task tid ids (applyTaskOp tid' op s).
Proof.
  intros Hkeep (t & Ht & Htok & Hids).
  destruct (applyTaskOp_lookup tid tid' op s t Ht) as (t' & Ht' & Hshape & Htok').
  exists t'. split; [done|]. split; [by rewrite Htok'|].
  destruct Hshape as (_ & _ & _ & Hids' & _). congruence.
Qed.

Lemma run_task_applyUpdates (tid fileTaskId : string) (ids : list nat)
    (updates : list EntryUpdate) (s : Store) :
  run_task tid ids s → run_task tid ids (applyUpdates fileTaskId updates s).
Proof.
  unfold applyUpdates. revert s. induction updates as [|u updates IH]; intros s Hrun; [done|].
  simpl. apply IH.
  apply (run_task_op tid fileTaskId ids
           (UpdateEntryInMemory (upd_id u) (upd_text u) (upd_translatedText u))); done.
Qed.

Lemma run_task_updateProgress (tid : string) (ids : list nat) (current totalCount : nat)
    (phase : Translation.Phase) (taskId currentTaskId : string) (s : Store) :
  run_task tid ids s →
  run_task tid ids
    (Translation.updateProgress current totalCount phase taskId currentTaskId None s).
Proof.
  intros Hrun. unfold Translation.updateProgress.
  destruct (is_empty (if is_empty taskId then currentTaskId else taskId)); [done|].
  by apply (run_task_op tid _ ids (ProgressInMemory _)).
Qed.

Section WithWorld.
Context {U : Terms.Unicode}.
Variable terms : list Term.
Variable decode : string -> Completion Val.
Variable net : nat -> Translation.Step.

Lemma run_task_runBatch (tid : string) (ids : list nat) (cfg : TranslationConfig)
    (entryCount : nat) (currentTaskId fileTaskId : string) (batch : Batch) (r r' : Run) :
  runBatch decode net cfg entryCount currentTaskId fileTaskId batch r = Some r' →
  run_task tid ids (store r) → run_task tid ids (store r').
Proof.
  unfold runBatch. intros Hrun Hinv.
  destruct (Translation.translateBatch _ _ _ _ _ _ _ _ _) as [[[translations used]|e] c].
  - destruct (bind _ _) as [[[|u updates]|]|e]; try done;
      injection Hrun as <-; cbn [store]; [done| |done].
    apply run_task_updateProgress.
    apply (run_task_applyUpdates tid fileTaskId ids (u :: updates)).
    by apply (run_task_op tid currentTaskId ids (BatchUpdate (u :: updates))).
  - by injection Hrun as <-.
Qed.

Lemma run_task_runBatches (tid : string) (ids : list nat) (cfg : TranslationConfig)
    (entryCount : nat) (currentTaskId fileTaskId : string) (batches : list Batch)
    (r r' : Run) :
  runBatches decode net cfg entryCount currentTaskId fileTaskId batches r = Some r' →
  run_task tid ids (store r) → run_task tid ids (store r').
Proof.
  revert r. induction batches as [|batch batches IH]; intros r Hrun Hinv; simpl in Hrun.
  - by injection Hrun as <-.
  - destruct (runBatch decode net cfg entryCount currentTaskId fileTaskId batch r)
      as [r1|] eqn:Hbatch; [|done]. simpl in Hrun.
    apply (IH r1 Hrun). by eapply run_task_runBatch.
Qed.

End WithWorld.

Lemma progress_lookup (tid : string) (u : ProgressUpdate) (s : Store) (t : SingleTask) :
  getTaskById tid s = Some t →
  getTaskById tid (updateTaskTranslationProgressInMemory tid u s)
  = Some (withProgress t (mergeProgress (translation_progress t) u)).
Proof.
  unfold getTaskById, updateTaskTranslationProgressInMemory.
  destruct (findTask tid (batch_tasks s)) as [[i t0]|] eqn:Hfind; [|done].
  simpl. intros H. injection H as ->. 
  apply findTask_same_id in Hfind as Hid. destruct Hid as [Hid _].
  by rewrite (findTask_insert tid _ i t (withProgress t _) Hfind Hid).
Qed.

Lemma progress_persisted_lookup (tid tid' : string) (u : ProgressUpdate) (w : Write) (s : Store) :
  getTaskById tid' (updateTaskTranslationProgress tid u w s).2
  = getTaskById tid' (updateTaskTranslationProgressInMemory tid u s).
Proof.
  unfold getTaskById, updateTaskTranslationProgress, updateTaskTranslationProgressInMemory.
  destruct (findTask tid (batch_tasks s)) as [[i t]|]; [|done].
  by rewrite tasks_of_persist.
Qed.

Lemma history_keeps_tasks (entry : HistoryInput) (now : nat) (w : Write) (s : Store) :
  batch_tasks (addHistoryEntry entry now w s).2 = batch_tasks s.
Proof. unfold addHistoryEntry. by destruct w. Qed.

End RunProperties.

Section FinishedRun.
Import JS Controls Spec DataManager Props.
Context {U : Terms.Unicode}.
Variable terms : list Term.
Variable decode : string -> Completion Val.
Variable net : nat -> Translation.Step.

(** X28: after a finished run of [onStartTranslation] (with a generated
    task id that is not empty and not in use) the run's task is in the
    store with status [completed], total N, the ids of the entries, the
    [completed] count the entries had when the run started, and 0 tokens;
    when it has a translated entry, the history holds an entry under the
    run's id with the time of the clock and the provider's [tokensUsed]
    counter as [totalTokens]. *)
Theorem finished_run_records_no_tokens (w : World) (cfg : TranslationConfig)
    (entries : list SubtitleEntry) (filename fileTaskId : string) (tokensUsed : nat)
    (s : Store) (c : Translation.Client) (r : Run) :
  freshTaskId w ≠ "" →
  freshTaskId w ∉ (taskId <$> batch_tasks s) →
  onStartTranslation terms decode net w cfg entries filename fileTaskId tokensUsed s c
  = Finished r →
  ∃ task,
    getTaskById (freshTaskId w) (store r) = Some task
    ∧ status (translation_progress task) = Completed
    ∧ total (translation_progress task) = length entries
    ∧ completed (translation_progress task) = countTranslated entries
    ∧ tokens (translation_progress task) = 0
    ∧ map id (subtitle_entries task) = map id entries
    ∧ (0 < countTranslated (subtitle_entries task) →
       ∃ h, h ∈ translation_history (store r)
            ∧ hist_taskId h = freshTaskId w
            ∧ totalTokens h = tokensUsed
            ∧ completedCount h = countTranslated (subtitle_entries task)
            ∧ timestamp h = clock w).
Proof.
  intros Hname Hfresh. unfold onStartTranslation.
  destruct entries as [|e0 es] eqn:Hentries; [done|]. rewrite <- Hentries.
  destruct (is_empty (apiKey cfg)); [done|].
  pose proof (created_tasks filename entries 0 (freshTaskId w) (write_create w) s) as Htasks.
  destruct (createNewTask filename entries 0 (freshTaskId w) (write_create w) s)
    as [[tid|e] s1] eqn:Hcreate; [|done].
  assert (tid = freshTaskId w) as ->.
  { unfold createNewTask in Hcreate. destruct (write_create w); simpl in Hcreate; congruence. }
  simpl in Htasks.
  destruct (batchGroups (threadCount cfg) (allBatches terms entries cfg)) as [groups|]; [|done].
  destruct (runBatches decode net cfg (length entries) (freshTaskId w) fileTaskId
              (concat groups) _) as [r0|] eqn:Hrun; [|done].
  intros H. injection H as <-.
  assert (Hinv : run_task (freshTaskId w) (map id entries) (store r0)).
  { eapply run_task_runBatches; [exact Hrun|]. simpl.
    apply run_task_updateProgress. eexists. split.
    - unfold getTaskById. rewrite Htasks. by apply getTaskById_snoc_fresh.
    - done. }
  destruct Hinv as (t0 & Ht0 & Htok0 & Hids0).
  set (u1 := mkUpdate (Some (countTranslated entries)) (Some (length entries)) None
                      (Some Completed) None).
  set (s2 := updateTaskTranslationProgressInMemory (freshTaskId w) u1 (store r0)).
  assert (Hup : Translation.updateProgress (countTranslated entries) (length entries)
                  Translation.PhaseCompleted (freshTaskId w) "" None (store r0) = s2).
  { unfold Translation.updateProgress. by destruct (freshTaskId w). }
  pose proof (progress_lookup (freshTaskId w) u1 (store r0) t0 Ht0) as Ht1. fold s2 in Ht1.
  set (t1 := withProgress t0 (mergeProgress (translation_progress t0) u1)) in *.
  set (u2 := mkUpdate None None (Some (tokens (translation_progress t1))) (Some Completed) None).
  set (s3 := updateTaskTranslationProgressInMemory (freshTaskId w) u2 s2).
  assert (Hct : Translation.completeTranslation (freshTaskId w) s2 = s3).
  { unfold Translation.completeTranslation. by rewrite Ht1. }
  pose proof (progress_lookup (freshTaskId w) u2 s2 t1 Ht1) as Ht2. fold s3 in Ht2.
  set (t2 := withProgress t1 (mergeProgress (translation_progress t1) u2)) in *.
  set (s4 := (updateTaskTranslationProgress (freshTaskId w) u2 (write_complete w) s3).2).
  assert (Htimer : Translation.completeTranslationTimer (freshTaskId w)
                     (tokens (translation_progress t1)) (write_complete w) s3 = s4) by done.
  assert (Ht3 : getTaskById (freshTaskId w) s4
                = Some (withProgress t2 (mergeProgress (translation_progress t2) u2))).
  { subst s4. rewrite progress_persisted_lookup. by apply progress_lookup. }
  set (t3 := withProgress t2 (mergeProgress (translation_progress t2) u2)) in *.
  unfold finish. cbv zeta. cbn [store]. rewrite !Hup, !Ht1, !Hct, !Htimer, !Ht3.
  assert (Hfacts : status (translation_progress t3) = Completed
                   ∧ total (translation_progress t3) = length entries
                   ∧ completed (translation_progress t3) = countTranslated entries
                   ∧ tokens (translation_progress t3) = 0
                   ∧ map id (subtitle_entries t3) = map id entries).
  { subst t3 t2 t1 u1 u2. simpl. by rewrite Htok0. }
  destruct Hfacts as (Hst & Htot & Hcomp & Htok & Hids).
  clearbody t3. exists t3.
  destruct (0 <? countTranslated (subtitle_entries t3)) eqn:Hdone.
  - split.
    { unfold getTaskById in *. by rewrite history_keeps_tasks. }
    repeat split; try done. intros _.
    pose proof (find_added_history
                  (historyInput (freshTaskId w) filename tokensUsed t3)
                  (clock w) (write_history w) s4) as Hfound.
    destruct (list_find _ _) as [[j h]|] eqn:Hj; [|done].
    simpl in Hfound. injection Hfound as ->.
    apply list_find_Some in Hj as (Hj & _).
    eexists. split; [by eapply list_elem_of_lookup_2|].
    unfold stamp, historyInput. simpl. rewrite Htok. done.
  - repeat split; try done. intros Hpos. apply Nat.ltb_ge in Hdone. lia.
Qed.

End FinishedRun.

Section FinishedRunExamples.
Import JS Controls Spec DataManager Samples.

Lemma finished_run_records_no_tokens_witness :
  ∃ r task,
    scenario_outcome = Finished r
    ∧ getTaskById "task_run" (store r) = Some task
    ∧ completed (translation_progress task) = 0
    ∧ tokens (translation_progress task) = 0.
Proof.
  assert (Hrun : ∃ r, scenario_outcome = Finished r) by (vm_compute; eauto).
  destruct Hrun as (r & Hr). exists r.
  destruct (@finished_run_records_no_tokens Terms.ascii_unicode []
              (decode_only scenario_content scenario_result) scenario_net
              scenario_world (sample_config "sk-test" 2 1 false)
              scenario_entries "a.srt" "task_import" 0 scenario_store fresh_client r)
    as (task & Hget & _ & _ & Hcomp & Htok & _).
  - discriminate.
  - apply (bool_decide_unpack _). vm_compute. exact I.
  - exact Hr.
  - exists task. split; [exact Hr|]. split; [exact Hget|]. split; [exact Hcomp | exact Htok].
Defined.

End FinishedRunExamples.

(* ================================================================== *)
(** ** The per-file run *)
(* ================================================================== *)

Section FileRunProperties.
Import JS Controls FileList Spec DataManager Props.
Context {U : Terms.Unicode}.
Variable terms : list Term.
Variable decode : string -> Completion Val.
Variable net : nat -> Translation.Step.

Lemma storeBatch_lookup (fileTaskId : string) (translations : Val) (j : nat)
    (batch : list SubtitleEntry) (s s' : Store) (t : SingleTask) :
  storeBatch fileTaskId translations j batch s = Return (Some s') →
  getTaskById fileTaskId s = Some t →
  ∃ t', getTaskById fileTaskId s' = Some t'
        ∧ same_shape t t'
        ∧ tokens (translation_progress t') = tokens (translation_progress t).
Proof.
  revert j s t. induction batch as [|entry batch IH]; intros j s t Hstore Hget.
  - simpl in Hstore. injection Hstore as <-. exists t.
    split; [done|]. split; [apply same_shape_refl|done].
  - simpl in Hstore. destruct (get translations (decimal (j + 1))) as [item|e]; [|done].
    simpl in Hstore.
    destruct (or_else (get_opt item "direct") (VStr "")) as [| | | |tr| |]; try done.
    destruct (is_empty tr).
    + by apply (IH (S j) s t).
    + destruct (applyTaskOp_lookup fileTaskId fileTaskId
                  (UpdateEntryInMemory (id entry) (text entry) (Some tr)) s t Hget)
        as (t1 & Ht1 & Hshape1 & Htok1).
      destruct (IH (S j) _ t1 Hstore Ht1) as (t' & Ht' & Hshape & Htok).
      exists t'. split; [done|]. split.
      * destruct Hshape1 as (?&?&?&?&?&?), Hshape as (?&?&?&?&?&?).
        repeat split; congruence.
      * rewrite Htok. by apply Htok1.
Qed.

Lemma runFrom_progress (cfg : TranslationConfig) (batchSize : nat) (termsString : string)
    (entries : list SubtitleEntry) (fileTaskId : string) (ks : list nat)
    (s s' : Store) (c c' : Translation.Client) (t : SingleTask) :
  fileTaskId ≠ "" →
  runFrom decode net cfg batchSize termsString entries fileTaskId ks s c
  = (Return (Some s'), c') →
  getTaskById fileTaskId s = Some t →
  ∃ t', getTaskById fileTaskId s' = Some t'
        ∧ same_shape t t'
        ∧ tokens (translation_progress t) ≤ tokens (translation_progress t')
        ∧ match last ks with
          | None => translation_progress t' = translation_progress t
          | Some k =>
              completed (translation_progress t')
              = Nat.min (k * batchSize
                         + length (slice (k * batchSize) (k * batchSize + batchSize) entries))
                        (length entries)
              ∧ total (translation_progress t') = length entries
              ∧ status (translation_progress t') = Translating
          end.
Proof.
  intros Hname. revert s c t. induction ks as [|k ks IH]; intros s c t Hrun Hget.
  - simpl in Hrun. injection Hrun as <- <-. exists t.
    split; [done|]. split; [apply same_shape_refl|]. split; [lia|done].
  - simpl in Hrun.
    destruct (Translation.translateBatch _ _ _ _ _ _ _ _ _)
      as [[[translations used]|e] c1]; [|done].
    destruct (storeBatch fileTaskId translations 0 _ s) as [[s1|]|e] eqn:Hstore; try done.
    destruct (storeBatch_lookup _ _ _ _ _ _ t Hstore Hget) as (t1 & Ht1 & Hshape1 & Htok1).
    rewrite Ht1 in Hrun.
    set (u := mkUpdate
                (Some (Nat.min (k * batchSize
                                + length (slice (k * batchSize) (k * batchSize + batchSize)
                                            entries)) (length entries)))
                (Some (length entries))
                (Some (tokens (translation_progress t1) + used)) (Some Translating) None)
      in *.
    assert (Hup : Translation.updateProgress
                    (Nat.min (k * batchSize
                              + length (slice (k * batchSize) (k * batchSize + batchSize)
                                          entries)) (length entries))
                    (length entries) Translation.PhaseDirect fileTaskId ""
                    (Some (tokens (translation_progress t1) + used)) s1
                  = updateTaskTranslationProgressInMemory fileTaskId u s1).
    { unfold Translation.updateProgress. by destruct fileTaskId. }
    rewrite Hup in Hrun.
    pose proof (progress_lookup fileTaskId u s1 t1 Ht1) as Ht2.
    destruct (IH _ _ _ Hrun Ht2) as (t' & Ht' & Hshape & Htok & Hlast).
    exists t'. split; [done|]. split; [|split].
    + destruct Hshape1 as (?&?&?&?&?&?), Hshape as (?&?&?&?&?&?).
      repeat split; simpl in *; congruence.
    + simpl in Htok. lia.
    + destruct ks as [|k' ks].
      * simpl in Hlast |- *. by rewrite Hlast.
      * change (last (k :: k' :: ks)) with (last (k' :: ks)).
        destruct (last (k' :: ks)) eqn:Hl; [exact Hlast|]. by apply last_None in Hl.
Qed.

(** X29: when the per-file run of the file list returns (no batch
    threw), the file's task has status [completed], [completed] and total
    equal to the number of entries (whether or not every entry got a
    translation), tokens not below what it had, and the entries' ids
    unchanged. *)
Theorem file_run_reports_every_entry (cfg : TranslationConfig)
    (entries : list SubtitleEntry) (filename fileTaskId : string)
    (s s' : Store) (c c' : Translation.Client) (t : SingleTask) :
  fileTaskId ≠ "" →
  entries ≠ [] →
  getTaskById fileTaskId s = Some t →
  handleStartTranslation terms decode net cfg entries filename fileTaskId s c
  = (Return (Some s'), c') →
  ∃ t', getTaskById fileTaskId s' = Some t'
        ∧ status (translation_progress t') = Completed
        ∧ completed (translation_progress t') = length entries
        ∧ total (translation_progress t') = length entries
        ∧ tokens (translation_progress t) ≤ tokens (translation_progress t')
        ∧ map id (subtitle_entries t') = map id (subtitle_entries t).
Proof.
  intros Hname Hne Hget. unfold handleStartTranslation. cbv zeta.
  set (B := if batchSize cfg =? 0 then 10 else batchSize cfg).
  assert (HB : 1 ≤ B) by (subst B; destruct (Nat.eqb_spec (batchSize cfg) 0); lia).
  destruct (runFrom _ _ _ _ _ _ _ _ _ _) as [[[s1|]|e] c1] eqn:Hrun; try done.
  intros H. injection H as <- <-.
  destruct (runFrom_progress _ _ _ _ _ _ _ _ _ _ t Hname Hrun Hget)
    as (t1 & Ht1 & Hshape & Htok & Hlast).
  assert (Hn : 0 < length entries) by (destruct entries; [done|simpl; lia]).
  pose proof (ceil_div_spec (length entries) B HB) as [Hceil Hfloor].
  specialize (Hfloor Hn).
  destruct (ceil_div (length entries) B) as [|m] eqn:Hm; [lia|].
  rewrite seq_S, last_snoc in Hlast. simpl in Hlast, Hfloor.
  rewrite Nat.sub_0_r in Hfloor.
  destruct Hlast as (Hcomp & Htot & _).
  unfold Translation.completeTranslation. rewrite Ht1.
  eexists. split; [by apply progress_lookup|]. simpl.
  split; [done|]. split; [|split; [done|split; [done|]]].
  - rewrite Hcomp. unfold slice. rewrite length_take, length_drop. lia.
  - by destruct Hshape as (_ & _ & _ & Hids & _).
Qed.

End FileRunProperties.

Section FileRunExamples.
Import JS Controls FileList Spec DataManager Samples.

Lemma file_run_reports_every_entry_witness :
  ∃ s' t',
    scenario_file_list = Some s'
    ∧ getTaskById "task_import" s' = Some t'
    ∧ completed (translation_progress t') = 2.
Proof.
  assert (Hrun : ∃ s' c',
            @handleStartTranslation Terms.ascii_unicode []
              (decode_only scenario_content scenario_result) scenario_net
              (sample_config "sk-test" 2 1 false)
              scenario_entries "a.srt" "task_import" scenario_store fresh_client
            = (Return (Some s'), c')) by (vm_compute; eauto).
  destruct Hrun as (s' & c' & Hrun). exists s'.
  destruct (@file_run_reports_every_entry Terms.ascii_unicode []
              (decode_only scenario_content scenario_result) scenario_net
              (sample_config "sk-test" 2 1 false)
              scenario_entries "a.srt" "task_import" scenario_store s' fresh_client c'
              (mkTask "task_import" scenario_entries "a.srt" (mkProgress 0 2 0 Idle None) 0))
    as (t' & Hget & _ & Hcomp & _).
  - discriminate.
  - discriminate.
  - reflexivity.
  - exact Hrun.
  - exists t'. split; [|split; [exact Hget | exact Hcomp]].
    unfold scenario_file_list. by rewrite Hrun.
Defined.

End FileRunExamples.

(* ================================================================== *)
(** ** Restoring the file list *)
(* ================================================================== *)

Section RestoreProperties.
Import DataManager Subtitles Props.

Lemma findTask_NoDup (tasks : list SingleTask) (t : SingleTask) :
  NoDup (taskId <$> tasks) → t ∈ tasks → snd <$> findTask (taskId t) tasks = Some t.
Proof.
  unfold findTask. induction tasks as [|x tasks IH]; intros Hnd Hin.
  - by apply elem_of_nil in Hin.
  - rewrite fmap_cons in Hnd. apply NoDup_cons in Hnd as [Hx Hnd].
    apply elem_of_cons in Hin as [->|Hin]; simpl.
    + by rewrite decide_True.
    + rewrite decide_False.
      * rewrite <- option_fmap_compose. by apply IH.
      * intros Heq. apply Hx. rewrite Heq. by apply list_elem_of_fmap_2.
Qed.

(** X17: the effect run when the subtitle provider mounts does nothing
    when the list already has files; on an empty list it shows one file per
    stored task, in order, with the task's id, entries and file name, and
    when the stored tasks have distinct ids the files are in step with the
    store. *)
Theorem restored_files_mirror_the_tasks (now : nat) (state : SubtitleState) (s : Store) :
  (files state ≠ [] → loadSavedData now state s = state)
  ∧ (files state = [] →
     currentTaskId <$> files (loadSavedData now state s) = taskId <$> batch_tasks s
     ∧ entries <$> files (loadSavedData now state s) = subtitle_entries <$> batch_tasks s
     ∧ name <$> files (loadSavedData now state s) = subtitle_filename <$> batch_tasks s
     ∧ (NoDup (taskId <$> batch_tasks s) → in_step (loadSavedData now state s) s)).
Proof.
  unfold loadSavedData. split.
  - intros Hne. by destruct (files state).
  - intros Hfiles. rewrite Hfiles.
    destruct (batch_tasks s) as [|t0 tasks] eqn:Htasks.
    + rewrite Hfiles. repeat split; try done. intros _.
      unfold in_step. rewrite Hfiles. constructor.
    + rewrite <- Htasks. simpl.
      repeat split; try (rewrite <- list_fmap_compose; done).
      intros Hnd. unfold in_step. simpl. apply Forall_forall. intros f Hf.
      apply list_elem_of_In, in_map_iff in Hf as (t & <- & Ht). simpl.
      split; [done|]. exists t. split; [|done].
      unfold getTaskById. apply findTask_NoDup; [done|]. by apply list_elem_of_In.
Qed.

Lemma restored_files_mirror_the_tasks_witness :
  currentTaskId <$> files (loadSavedData 0 initialState Samples.scenario_store)
  = ["task_import"]
  ∧ in_step (loadSavedData 0 initialState Samples.scenario_store) Samples.scenario_store.
Proof.
  destruct (restored_files_mirror_the_tasks 0 initialState Samples.scenario_store)
    as (_ & Hempty).
  destruct (Hempty eq_refl) as (Hids & _ & _ & Hstep).
  split; [exact Hids|]. apply Hstep.
  simpl. apply NoDup_singleton.
Defined.

End RestoreProperties.


(* ================================================================== *)
(** ** The formatted reflection result *)
(* ================================================================== *)

Section ReflectionFormat.
Import JS Translation Props.

Lemma obj_replace_spec (P : string * Val → Prop) (k : string) (v : Val)
    (l : list (string * Val)) :
  P (k, v) → Forall P l → Forall P (obj_replace k v l).
Proof.
  intros Hkv. induction 1 as [|[k' v'] l Hx Hl IH]; simpl; [done|].
  destruct (String.eqb k' k); by constructor.
Qed.

Lemma obj_insert_index_spec (P : string * Val → Prop) (n : nat) (k : string) (v : Val)
    (l : list (string * Val)) :
  P (k, v) → Forall P l → Forall P (obj_insert_index n k v l).
Proof.
  intros Hkv. induction 1 as [|[k' v'] l Hx Hl IH]; simpl; [by repeat constructor|].
  destruct (array_index k') as [m|]; [destruct (m <? n)|]; by repeat constructor.
Qed.

Lemma obj_set_spec (P : string * Val → Prop) (k : string) (v : Val)
    (l : list (string * Val)) :
  P (k, v) → Forall P l → Forall P (obj_set k v l).
Proof.
  intros Hkv Hl. unfold obj_set. destruct (assoc k l).
  - by apply obj_replace_spec.
  - destruct (array_index k).
    + by apply obj_insert_index_spec.
    + apply Forall_app. split; [done|]. by repeat constructor.
Qed.

Lemma obj_replace_keys (k : string) (v : Val) (l : list (string * Val)) :
  fst <$> obj_replace k v l = fst <$> l.
Proof.
  induction l as [|[k' v'] l IH]; simpl; [done|].
  destruct (String.eqb_spec k' k) as [->|]; [done|]. by rewrite !fmap_cons, IH.
Qed.

Lemma obj_insert_index_keys (n : nat) (k k0 : string) (v : Val) (l : list (string * Val)) :
  k0 ∈ (fst <$> obj_insert_index n k v l) ↔ k0 = k ∨ k0 ∈ (fst <$> l).
Proof.
  induction l as [|[k' v'] l IH]; simpl.
  - rewrite list_elem_of_singleton. split; [by left|]. intros [->|H]; [done|].
    by apply elem_of_nil in H.
  - destruct (array_index k') as [m|]; [destruct (m <? n)|]; simpl;
      rewrite ?elem_of_cons, ?IH; simpl; tauto.
Qed.

Lemma assoc_Some_key (k : string) (l : list (string * Val)) (v : Val) :
  assoc k l = Some v → k ∈ (fst <$> l).
Proof.
  induction l as [|[k' v'] l IH]; simpl; [done|].
  destruct (String.eqb_spec k' k) as [->|]; [intros _; by left|].
  intros H. right. by apply IH.
Qed.

Lemma obj_set_keys (k k0 : string) (v : Val) (l : list (string * Val)) :
  k0 ∈ (fst <$> obj_set k v l) ↔ k0 = k ∨ k0 ∈ (fst <$> l).
Proof.
  unfold obj_set. destruct (assoc k l) as [old|] eqn:Hassoc.
  - rewrite obj_replace_keys. apply assoc_Some_key in Hassoc.
    split; [by right|]. by intros [->|H].
  - destruct (array_index k).
    + apply obj_insert_index_keys.
    + rewrite fmap_app, elem_of_app. simpl. rewrite list_elem_of_singleton. tauto.
Qed.

Lemma formatItem_spec (item v : Val) :
  formatItem item = Return v →
  ∃ origin free direct,
    get item "origin" = Return origin
    ∧ get item "free" = Return free
    ∧ get item "direct" = Return direct
    ∧ v = VObj [("origin", origin); ("direct", if truthy free then free else direct)].
Proof.
  unfold formatItem.
  destruct (get item "origin") as [origin|e]; [|done]. simpl.
  destruct (get item "free") as [free|e]; [|done]. simpl.
  destruct (get item "direct") as [direct|e]; [|done]. simpl.
  intros H. injection H as <-. by exists origin, free, direct.
Qed.

Lemma formatKeys_spec (reflectionResult : Val) (keys : list string)
    (acc l : list (string * Val)) :
  formatKeys reflectionResult keys acc = Return l →
  (Forall (formatted_from reflectionResult) acc → Forall (formatted_from reflectionResult) l)
  ∧ (∀ k, k ∈ (fst <$> l) ↔ k ∈ keys ∨ k ∈ (fst <$> acc)).
Proof.
  revert acc. induction keys as [|key keys IH]; intros acc Hfmt; simpl in Hfmt.
  - injection Hfmt as <-. split; [done|]. intros k. split; [by right|].
    intros [H|H]; [by apply elem_of_nil in H|done].
  - destruct (get reflectionResult key) as [item|e] eqn:Hitem; [|done]. simpl in Hfmt.
    destruct (formatItem item) as [v|e] eqn:Hv; [|done]. simpl in Hfmt.
    destruct (IH _ Hfmt) as [Hall Hkeys]. split.
    + intros Hacc. apply Hall, obj_set_spec; [|done].
      apply formatItem_spec in Hv as (origin & free & direct & Ho & Hf & Hd & ->).
      by exists item, origin, free, direct.
    + intros k. rewrite Hkeys, obj_set_keys, elem_of_cons. tauto.
Qed.

(** X23: the result built from a reflection answer has the keys of the
    answer, and each of its items has exactly the fields [origin] and
    [direct]: the [origin] of the answer's item under the same key, and its
    [free] translation, or its [direct] one when [free] is falsy. *)
Theorem formatted_reflection_prefers_free (reflectionResult v : Val) :
  formatReflection reflectionResult = Return v →
  ∃ l keys,
    v = VObj l
    ∧ Object_keys reflectionResult = Return keys
    ∧ Forall (formatted_from reflectionResult) l
    ∧ (∀ k, k ∈ (fst <$> l) ↔ k ∈ keys).
Proof.
  unfold formatReflection.
  destruct (Object_keys reflectionResult) as [keys|e]; [|done]. simpl.
  destruct (formatKeys reflectionResult keys []) as [l|e] eqn:Hfmt; [|done]. simpl.
  intros H. injection H as <-. exists l, keys.
  apply formatKeys_spec in Hfmt as [Hall Hkeys].
  split; [done|]. split; [done|]. split; [by apply Hall|].
  intros k. rewrite Hkeys. split; [|by left].
  intros [H|H]; [done|]. by apply elem_of_nil in H.
Qed.

Lemma formatted_reflection_prefers_free_witness :
  ∃ l,
    VObj [("1", VObj [("origin", VStr "Hello"); ("direct", VStr "你好啊")]);
          ("2", VObj [("origin", VStr "World"); ("direct", VStr "世界")])] = VObj l
    ∧ Forall (formatted_from MoreSamples.reflected_answer) l.
Proof.
  destruct (formatted_reflection_prefers_free MoreSamples.reflected_answer
              (VObj [("1", VObj [("origin", VStr "Hello"); ("direct", VStr "你好啊")]);
                     ("2", VObj [("origin", VStr "World"); ("direct", VStr "世界")])])
              eq_refl) as (l & keys & Hv & _ & Hall & _).
  exists l. split; [exact Hv | exact Hall].
Defined.

End ReflectionFormat.


(* ================================================================== *)
(** ** The groups of the dispatch loop *)
(* ================================================================== *)

Section GroupProperties.
Import JS Controls.

Lemma chunks_concat {A} (fuel size : nat) (l : list A) :
  1 ≤ size → length l ≤ fuel →
  concat (chunks fuel size l) = l
  ∧ Forall (fun g => 1 ≤ length g ≤ size) (chunks fuel size l).
Proof.
  intros Hsize. revert l. induction fuel as [|fuel IH]; intros l Hlen.
  - destruct l; [done|simpl in Hlen; lia].
  - destruct l as [|x l]; [done|].
    change (chunks (S fuel) size (x :: l))
      with (take size (x :: l) :: chunks fuel size (drop size (x :: l))).
    destruct (IH (drop size (x :: l))) as [Hcat Hall].
    { rewrite length_drop. simpl in *. lia. }
    split.
    + cbn [concat]. by rewrite Hcat, take_drop.
    + apply Forall_cons. split; [|done].
      rewrite length_take. simpl. lia.
Qed.

(** X25: with a thread count of at least 1 the dispatch loop forms
    groups of 1 to [threadCount] batches that hold every planned batch once,
    in order; with a thread count of 0 and a batch to send it does not
    terminate; without batches there is no group. *)
Theorem groups_dispatch_every_batch_once (threadCount : nat) (batches : list Batch) :
  (1 ≤ threadCount →
   ∃ groups, batchGroups threadCount batches = Some groups
             ∧ concat groups = batches
             ∧ Forall (fun g => 1 ≤ length g ≤ threadCount) groups)
  ∧ (threadCount = 0 → batches ≠ [] → batchGroups threadCount batches = None)
  ∧ batchGroups threadCount [] = Some [].
Proof.
  split; [|split].
  - intros Hthreads. unfold batchGroups.
    destruct threadCount as [|n]; [lia|].
    eexists. split; [reflexivity|]. by apply chunks_concat.
  - intros -> Hne. by destruct batches.
  - by destruct threadCount.
Qed.

Lemma groups_dispatch_every_batch_once_witness :
  ∃ groups,
    batchGroups 4 Samples.scenario_batches = Some groups
    ∧ concat groups = Samples.scenario_batches.
Proof.
  destruct (proj1 (groups_dispatch_every_batch_once 4 Samples.scenario_batches))
    as (groups & Hg & Hcat & _); [lia|].
  exists groups. split; [exact Hg | exact Hcat].
Defined.

End GroupProperties.

(* ================================================================== *)
(** ** The keys of an answer *)
(* ================================================================== *)

Section KeyProperties.
Import JS Controls DataManager Props.

Lemma to_uint_nonnil (n : nat) : Nat.to_uint n ≠ Nil.
Proof.
  rewrite <- (Unsigned.of_to n) at 1. rewrite Unsigned.to_of.
  unfold unorm. by destruct (nzhead (Nat.to_uint n)).
Qed.

Lemma bytes_uint (d : uint) :
  bytes (NilEmpty.string_of_uint d)
  = match d with
    | Nil => []
    | D0 d' => 48 :: bytes (NilEmpty.string_of_uint d')
    | D1 d' => 49 :: bytes (NilEmpty.string_of_uint d')
    | D2 d' => 50 :: bytes (NilEmpty.string_of_uint d')
    | D3 d' => 51 :: bytes (NilEmpty.string_of_uint d')
    | D4 d' => 52 :: bytes (NilEmpty.string_of_uint d')
    | D5 d' => 53 :: bytes (NilEmpty.string_of_uint d')
    | D6 d' => 54 :: bytes (NilEmpty.string_of_uint d')
    | D7 d' => 55 :: bytes (NilEmpty.string_of_uint d')
    | D8 d' => 56 :: bytes (NilEmpty.string_of_uint d')
    | D9 d' => 57 :: bytes (NilEmpty.string_of_uint d')
    end.
Proof. by destruct d. Qed.

Lemma digits_value_uint (d : uint) (acc : nat) :
  digits_value 10 (Some acc) (bytes (NilEmpty.string_of_uint d))
  = Some (Nat.of_uint_acc d acc).
Proof.
  revert acc. induction d as [|d IH|d IH|d IH|d IH|d IH|d IH|d IH|d IH|d IH|d IH];
    intros acc; [done|..];
    cbn [NilEmpty.string_of_uint Nat.of_uint_acc];
    rewrite Nat.tail_mul_spec;
    change (bytes (String ?a ?s)) with (nat_of_ascii a :: bytes s);
    cbn [digits_value]; cbv [digit_value nat_of_ascii]; simpl; rewrite IH;
    do 2 f_equal; lia.
Qed.

Lemma digits_value_start (d : uint) :
  d ≠ Nil →
  digits_value 10 None (bytes (NilEmpty.string_of_uint d)) = Some (Nat.of_uint d).
Proof.
  intros Hd. unfold Nat.of_uint. destruct d; [done|..];
    cbn [NilEmpty.string_of_uint Nat.of_uint_acc];
    change (bytes (String ?a ?s)) with (nat_of_ascii a :: bytes s);
    cbn [digits_value]; cbv [digit_value nat_of_ascii]; simpl;
    rewrite digits_value_uint; done.
Qed.

Lemma parseInt_uint (d : uint) :
  d ≠ Nil → parseInt (NilEmpty.string_of_uint d) = Some (Z.of_nat (Nat.of_uint d)).
Proof.
  intros Hd. pose proof (digits_value_start d Hd) as Hdigits.
  unfold parseInt. rewrite bytes_uint in *.
  destruct d as [|d|d|d|d|d|d|d|d|d|d]; [done|..]; try parse_digits Hdigits.
  rewrite (bytes_uint d) in *.
  destruct d as [|d|d|d|d|d|d|d|d|d|d]; parse_digits Hdigits.
Qed.

Lemma parseInt_decimal (n : nat) : parseInt (decimal n) = Some (Z.of_nat n).
Proof.
  unfold decimal. rewrite parseInt_uint by apply to_uint_nonnil.
  by rewrite Unsigned.of_to.
Qed.

Lemma entryAt_decimal (untranslated : list SubtitleEntry) (i : nat) :
  entryAt untranslated (decimal (S i)) = untranslated !! i.
Proof.
  unfold entryAt. rewrite parseInt_decimal.
  destruct (Z.ltb_spec (Z.of_nat (S i) - 1) 0); [lia|]. f_equal. lia.
Qed.

Lemma collectUpdates_answered (n : nat) (lines : list (string * string))
    (untranslated : list SubtitleEntry) (acc : list EntryUpdate) :
  Forall (fun line => line.2 ≠ "") lines →
  collectUpdates
    (imap (fun i line => (decimal (S (n + i)),
                          VObj [("origin", VStr line.1); ("direct", VStr line.2)])) lines)
    untranslated acc
  = Return (Some (acc ++ zip_with (fun e line => mkEntryUpdate (id e) (text e) (Some line.2))
                           (drop n untranslated) lines)).
Proof.
  intros Hlines. revert n acc. induction Hlines as [|[o t] lines Ht _ IH]; intros n acc.
  - simpl. by rewrite zip_with_nil_r, app_nil_r.
  - rewrite imap_cons. cbn [collectUpdates]. rewrite Nat.add_0_r, entryAt_decimal.
    assert (Hnext : ∀ acc',
              collectUpdates
                (imap ((fun i line => (decimal (S (n + i)),
                          VObj [("origin", VStr line.1); ("direct", VStr line.2)])) ∘ S) lines)
                untranslated acc'
              = Return (Some (acc' ++ zip_with
                                (fun e line => mkEntryUpdate (id e) (text e) (Some line.2))
                                (drop (S n) untranslated) lines))).
    { intros acc'. rewrite <- IH. f_equal. apply imap_ext. intros i line _. simpl.
      do 3 f_equal. lia. }
    destruct (untranslated !! n) as [e|] eqn:He.
    + simpl in Ht. cbn [typeof_object get assoc String.eqb]. simpl.
      destruct t as [|a t]; [done|]. simpl.
      rewrite Hnext, <- app_assoc. do 3 f_equal.
      rewrite (drop_S _ _ _ He). done.
    + rewrite Hnext. rewrite !drop_ge; [done| |]; apply lookup_ge_None in He; lia.
Qed.

(** X26: key k of an answer addresses the k-th entry of the batch: an
    answer that holds a translation that is not empty under the keys 1, 2,
    ... yields the updates that give the k-th entry of the batch its own
    text and the k-th translation (translations beyond the batch are
    ignored). *)
Theorem answer_keys_address_the_batch (lines : list (string * string))
    (untranslated : list SubtitleEntry) :
  Forall (fun line => line.2 ≠ "") lines →
  collectUpdates (answered lines) untranslated []
  = Return (Some (zip_with (fun e line => mkEntryUpdate (id e) (text e) (Some line.2))
                    untranslated lines))
  ∧ ∀ i, entryAt untranslated (decimal (S i)) = untranslated !! i.
Proof.
  intros Hlines. split; [|apply entryAt_decimal].
  pose proof (collectUpdates_answered 0 lines untranslated [] Hlines) as H.
  rewrite drop_0 in H. exact H.
Qed.

Lemma answer_keys_address_the_batch_witness :
  collectUpdates (answered [("Hello", "你好"); ("World", "世界")]) Samples.scenario_entries []
  = Return (Some [mkEntryUpdate 1 "Hello" (Some "你好"); mkEntryUpdate 2 "World" (Some "世界")]).
Proof.
  refine (proj1 (answer_keys_address_the_batch [("Hello", "你好"); ("World", "世界")]
                   Samples.scenario_entries _)).
  repeat constructor; discriminate.
Defined.

End KeyProperties.

(* ================================================================== *)
(** ** Recovery after failed attempts *)
(* ================================================================== *)

Section RecoveryProperties.
Import JS Translation Spec Props.

Variable decode : string -> Completion Val.
Variable net : nat -> Step.
Variable cfg : TranslationConfig.

Lemma directAttempt_success (directPrompt : string) (step : Step) (c : Client)
    (data : ChatCompletion) :
  abortedAfterWait step = false →
  validKeys (apiKey cfg) ≠ [] →
  answer step = RespondsOk (ReadOk data) →
  directAttempt decode cfg directPrompt step c
  = (decode (default "" (message_content data)), requested cfg directPrompt c, tokensOf step).
Proof.
  intros Hwait Hkeys Hanswer. unfold directAttempt. rewrite Hwait.
  change (apiKeyIndex (emit Acquire c)) with (apiKeyIndex c).
  rewrite (getNextApiKey_valid cfg) by done.
  unfold tokensOf, requested. by rewrite Hanswer.
Qed.

Lemma directLoop_recovers (directPrompt : string) (maxRetries k remaining attempt : nat)
    (lastError : option JsError) (total : nat) (c : Client) (v : Val) (data : ChatCompletion) :
  validKeys (apiKey cfg) ≠ [] →
  k < remaining →
  attempt + k ≤ maxRetries →
  (∀ j, j < k → failsTransiently decode net (requests c + j)) →
  abortedAtStart (net (requests c + k)) = false →
  abortedAfterWait (net (requests c + k)) = false →
  answer (net (requests c + k)) = RespondsOk (ReadOk data) →
  decode (default "" (message_content data)) = Return v →
  ∃ lastError' c',
    directLoop decode net cfg directPrompt maxRetries remaining attempt lastError total c
    = (Return (v, lastError', total + usageOf net (requests c) (requests c + S k)), c')
    ∧ sleeps (events c') = sleeps (events c) ++ ((fun a => 1000 * a) <$> seq attempt k)
    ∧ fetches (events c') = fetches (events c) + S k.
Proof.
  intros Hkeys. revert remaining attempt lastError total c.
  induction k as [|k IH]; intros remaining attempt lastError total c
                                 Hrem Hatt Hall Hstart Hwait Hanswer Hdecode.
  - destruct remaining as [|remaining]; [lia|].
    rewrite Nat.add_0_r in Hstart, Hwait, Hanswer.
    rewrite directLoop_step. cbv zeta. rewrite Hstart.
    rewrite (directAttempt_success _ _ _ data Hwait Hkeys Hanswer), Hdecode.
    eexists _, _. split; [|split].
    + rewrite (usageOf_step net) by lia.
      replace (requests c + 1) with (S (requests c)) by lia.
      rewrite usageOf_none, Nat.add_0_r. reflexivity.
    + rewrite sleeps_requested. simpl. by rewrite app_nil_r.
    + rewrite fetches_requested. simpl. lia.
  - destruct remaining as [|remaining]; [lia|].
    destruct (Hall 0 ltac:(lia)) as (Hstart0 & Hwait0 & e & Hfail & Hcancel).
    rewrite Nat.add_0_r in Hstart0, Hwait0, Hfail.
    rewrite (directLoop_retry decode net cfg directPrompt _ _ _ _ _ _ e
               Hkeys Hstart0 Hwait0 Hfail Hcancel).
    assert ((attempt <? maxRetries) = true) as -> by (apply Nat.ltb_lt; lia).
    set (c1 := emit (Sleep (1000 * attempt)) (requested cfg directPrompt (next_step c))).
    assert (Hreq : requests c1 = S (requests c)) by done.
    destruct (IH remaining (S attempt) (Some e) (total + tokensOf (net (requests c))) c1)
      as (lastError' & c' & Hrun & Hsleep & Hfetch).
    + lia.
    + lia.
    + intros j Hj. rewrite Hreq. replace (S (requests c) + j) with (requests c + S j) by lia.
      apply Hall. lia.
    + rewrite Hreq. by replace (S (requests c) + k) with (requests c + S k) by lia.
    + rewrite Hreq. by replace (S (requests c) + k) with (requests c + S k) by lia.
    + rewrite Hreq. by replace (S (requests c) + k) with (requests c + S k) by lia.
    + done.
    + exists lastError', c'. rewrite Hrun. split; [|split].
      * do 3 f_equal. rewrite Hreq.
        rewrite (usageOf_step net (requests c)) by lia.
        replace (S (requests c) + S k) with (requests c + S (S k)) by lia. lia.
      * rewrite Hsleep. subst c1. rewrite sleeps_emit, sleeps_requested.
        change (sleeps (events (next_step c))) with (sleeps (events c)).
        simpl. by rewrite <- app_assoc.
      * rewrite Hfetch. subst c1. rewrite fetches_emit, fetches_requested.
        change (events (next_step c)) with (events c). simpl. lia.
Qed.

(** X20: with reflection off: when the first k attempts (k below
    [maxRetries]) fail without being taken for a cancellation and the next
    one is answered with a content that decodes to a result that is not
    empty, [translateBatch] returns that result with the tokens of all
    k + 1 responses, after waits of 1000, ..., 1000 k ms and k + 1
    requests. *)
Theorem a_later_attempt_succeeds
    (texts : list string) (contextBefore contextAfter terms : string) (maxRetries k : nat)
    (c : Client) (v : Val) (data : ChatCompletion) :
  enableReflection cfg = false →
  apiKey cfg ≠ "" →
  validKeys (apiKey cfg) ≠ [] →
  k < maxRetries →
  (∀ j, j < k → failsTransiently decode net (requests c + j)) →
  abortedAtStart (net (requests c + k)) = false →
  abortedAfterWait (net (requests c + k)) = false →
  answer (net (requests c + k)) = RespondsOk (ReadOk data) →
  decode (default "" (message_content data)) = Return v →
  isEmptyResult v = false →
  ∃ c',
    translateBatch decode net cfg texts contextBefore contextAfter terms maxRetries c
    = (Return (v, usageOf net (requests c) (requests c + S k)), c')
    ∧ sleeps (events c') = sleeps (events c) ++ ((fun a => 1000 * a) <$> seq 1 k)
    ∧ fetches (events c') = fetches (events c) + S k.
Proof.
  intros Hoff Hkey Hkeys Hk Hall Hstart Hwait Hanswer Hdecode Hfull.
  unfold translateBatch. rewrite Hoff.
  assert (is_empty (apiKey cfg) = false) as -> by (by destruct (apiKey cfg)).
  destruct (directLoop_recovers
              (Prompts.generateDirectPrompt (join nl texts)
                 (Prompts.generateSharedPrompt contextBefore contextAfter terms)
                 (sourceLanguage cfg) (targetLanguage cfg))
              maxRetries k maxRetries 1 None 0 c v data)
    as (lastError' & c' & Hrun & Hsleep & Hfetch); try done; try lia.
  rewrite Hrun, Hfull. exists c'. done.
Qed.

End RecoveryProperties.

Section RecoveryExamples.
Import JS Translation Spec Samples Props MoreSamples.

Lemma a_later_attempt_succeeds_witness :
  ∃ c',
    translateBatch (decode_only scenario_content scenario_result) garbled_then_ok
      (sample_config "k1" 2 1 false) ["Hello"; "World"] "" "" "" defaultMaxRetries fresh_client
    = (Return (scenario_result, 12), c')
    ∧ sleeps (events c') = [1000]
    ∧ fetches (events c') = 2.
Proof.
  destruct (a_later_attempt_succeeds
              (decode_only scenario_content scenario_result) garbled_then_ok
              (sample_config "k1" 2 1 false) ["Hello"; "World"] "" "" ""
              defaultMaxRetries 1 fresh_client scenario_result
              (mkCompletion (Some 7) (Some scenario_content)))
    as (c' & Hrun & Hsleep & Hfetch); try done.
  - unfold defaultMaxRetries. lia.
  - intros j Hj. assert (j = 0) as -> by lia.
    split; [done|]. split; [done|]. eexists. split; reflexivity.
  - by exists c'.
Defined.

End RecoveryExamples.

(* ================================================================== *)
(** ** Lines the import skips or cuts *)
(* ================================================================== *)

Section ImportEdges.
Import JS Props.

(** X14: [importTerms] skips a line without a colon, and of a line with
    more than one colon it keeps the first two parts only: what follows the
    second colon is dropped. *)
Theorem import_skips_and_truncates :
  (∀ line, lacks LF line → lacks TermsView.COLON line → TermsView.parseTerms line = [])
  ∧ (∀ o t rest,
       plain_part o → plain_part t → lacks LF rest →
       TermsView.parseTerms (o +:+ ":" +:+ t +:+ ":" +:+ rest) = [mkTerm o t]).
Proof.
  split.
  - intros line Hlf Hcolon. unfold TermsView.parseTerms.
    rewrite (split_lacks LF line Hlf). cbn [List.filter].
    destruct (negb (is_empty (trim line))); [|done].
    rewrite omap_cons_match. by rewrite (split_lacks _ line Hcolon).
  - intros o t rest (Holf & Hoc & Hot) (Htlf & Htc & Htt) Hrest.
    unfold TermsView.parseTerms.
    assert (Hline : lacks LF (o +:+ ":" +:+ t +:+ ":" +:+ rest)).
    { apply lacks_app; [done|]. apply (lacks_app LF ":"); [repeat constructor; discriminate|].
      apply lacks_app; [done|]. apply (lacks_app LF ":"); [repeat constructor; discriminate|].
      done. }
    rewrite (split_lacks LF _ Hline). cbn [List.filter].
    change (o +:+ ":" +:+ t +:+ ":" +:+ rest)
      with (o +:+ String TermsView.COLON (t +:+ String TermsView.COLON rest)).
    rewrite trim_with_colon. cbn [negb]. rewrite omap_cons_match.
    rewrite !split_at by done. cbn [map]. rewrite Hot, Htt.
    by destruct (split TermsView.COLON rest).
Qed.

Lemma import_skips_and_truncates_witness :
  TermsView.parseTerms "no separator here" = []
  ∧ TermsView.parseTerms ("ratio" +:+ ":" +:+ "比例 3" +:+ ":" +:+ "1") = [mkTerm "ratio" "比例 3"].
Proof.
  destruct import_skips_and_truncates as [Hskip Hcut]. split.
  - apply Hskip; unfold lacks; simpl; repeat constructor; discriminate.
  - apply Hcut.
    + split; [|split]; [| |reflexivity]; unfold lacks; simpl; repeat constructor; discriminate.
    + split; [|split]; [| |reflexivity]; unfold lacks; simpl; repeat constructor; discriminate.
    + unfold lacks; simpl; repeat constructor; discriminate.
Defined.

End ImportEdges.
